(** * eclipse-processing: [utils.py]

    A shallow embedding of the image utilities of [utils.py] and the
    properties stated about them.

    Conventions of the embedding.
    - A numpy float is an exact rational ([Q]); equality of pixel values
      that went through arithmetic is [Qeq].  NaN and infinities are not
      represented, and nothing is rounded: a property of [mtf] or [ht]
      over [Q] is a property of the formula in exact arithmetic, on
      finite values.  [mtf_float] is the same expression on IEEE
      binary64 numbers (numpy's [float64]), where every operation
      rounds to the nearest double.
    - A numpy array of rank 2 is a shape and a list of rows, of rank 3 a
      shape and a list of lists of rows ([NdArray]).  An array is
      well-formed when its nested lists have the lengths its shape says.
    - A Python [int] is a [Z]; a slice bound is normalised the way Python
      does it (negative bounds count from the end, both are clamped).
    - A FITS header is a finite map from keywords to values
      ([gmap string value]): the order of the cards, commentary cards
      and cards of the same keyword are not represented.  The methods
      of astropy's class [Header] that [extract_subheader] and
      [combine_headers] call ([keys], item access, the constructor from
      a dict) are parameters of these functions; [header_is_map] says
      what the properties assume of them.
    - Objects that the code mutates in place live in a store and are
      named by locations; functions that do so are written in a
      state-and-exception monad.
    - What lies outside the repository is a parameter: astropy's codec
      ([fits_open], [fits_writeto]), the listing of a directory
      ([walk], for [os.walk]) and Python's [str] on a header value.
      The class [Timer] reads the clock and prints; it is not
      modelled. *)

From Stdlib Require Import ZArith QArith Qround Qminmax Qabs Qfield Lqa Lia Floats.
From stdpp Require Import gmap strings list fin_maps.

Local Open Scope Z_scope.

(** ** Python exceptions *)

Inductive exn : Type :=
| TypeError
| ValueError
| KeyError
| IndexError
| OSError
| StopIteration.

(** The result of a call that may raise. *)
Inductive result (X : Type) : Type :=
| Ok (x : X)
| Raise (e : exn).
Arguments Ok {X} x.
Arguments Raise {X} e.

#[global] Instance result_ret : MRet result := λ X x, Ok x.
#[global] Instance result_bind : MBind result := λ X Y k r,
  match r with
  | Ok x => k x
  | Raise e => Raise e
  end.

(** ** Python slices *)

Module Slice.

(** [index n i] is where the bound [i] of a slice falls in a sequence of
    length [n]: a negative bound counts from the end, and the result is
    clamped to [0..n]. *)
Definition index (n : nat) (i : Z) : nat :=
  if i <? 0 then Z.to_nat (Z.max 0 (i + Z.of_nat n))
  else Z.to_nat (Z.min i (Z.of_nat n)).

(** A slice [start:stop]; [None] is an omitted bound. *)
Record t : Type := Make { start : option Z; stop : option Z }.

Definition lo (n : nat) (s : t) : nat :=
  match start s with Some i => index n i | None => 0%nat end.

Definition hi (n : nat) (s : t) : nat :=
  match stop s with Some i => index n i | None => n end.

(** Number of selected positions. *)
Definition len (n : nat) (s : t) : nat := (hi n s - lo n s)%nat.

(** Does position [k] of the sequence belong to the slice? *)
Definition mem (n : nat) (s : t) (k : nat) : bool :=
  (lo n s <=? k)%nat && (k <? hi n s)%nat.

(** [seq[start:stop]] on a list. *)
Definition get {A : Type} (s : t) (l : list A) : list A :=
  take (len (length l) s) (drop (lo (length l) s) l).

Definition range (a b : Z) : t := Make (Some a) (Some b).
Definition from (a : Z) : t := Make (Some a) None.
Definition all : t := Make None None.

End Slice.

(** ** Arrays of rank 2 *)

Module Image.
Section Image.
Context {A : Type}.

(** [shape0] rows of [shape1] cells each.  With one channel vector per
    cell this is also an array of shape [(H, W, C)], whose first two
    axes are the ones the geometry functions slice. *)
Record t : Type := Make { shape0 : nat; shape1 : nat; rows : list (list A) }.

Definition wf (a : t) : Prop :=
  length (rows a) = shape0 a ∧ Forall (λ r, length r = shape1 a) (rows a).

(** [a[i, j]] for in-range, non-negative [i] and [j]. *)
Definition get (a : t) (i j : nat) : option A :=
  r ← rows a !! i; r !! j.

(** [a[rs, cs]] for two slices.  (numpy returns a view; where that
    matters the caller keeps the location and the slices instead.) *)
Definition getslice (a : t) (rs cs : Slice.t) : t :=
  Make (Slice.len (shape0 a) rs) (Slice.len (shape1 a) cs)
       ((λ r, take (Slice.len (shape1 a) cs) (drop (Slice.lo (shape1 a) cs) r))
          <$> take (Slice.len (shape0 a) rs) (drop (Slice.lo (shape0 a) rs) (rows a))).

(** [a[rs, cs] = v] for a scalar [v]. *)
Definition setslice_scalar (a : t) (rs cs : Slice.t) (v : A) : t :=
  Make (shape0 a) (shape1 a)
       (imap (λ i r,
                if Slice.mem (shape0 a) rs i
                then imap (λ j x, if Slice.mem (shape1 a) cs j then v else x) r
                else r)
             (rows a)).

(** Can an axis of length [n] be broadcast to length [m]? *)
Definition broadcastable (n m : nat) : bool := (n =? m)%nat || (n =? 1)%nat.

(** Index into an axis of length [n] that is broadcast. *)
Definition bindex (n k : nat) : nat := if (n =? 1)%nat then 0%nat else k.

(** [a[rs, cs] = b] for an array [b] of rank 2: [b] is broadcast to the
    shape of the selection, and numpy raises [ValueError] when it
    cannot be. *)
Definition setslice_array (a : t) (rs cs : Slice.t) (b : t) : result t :=
  if broadcastable (shape0 b) (Slice.len (shape0 a) rs)
     && broadcastable (shape1 b) (Slice.len (shape1 a) cs)
  then
    Ok (Make (shape0 a) (shape1 a)
          (imap (λ i r,
                   if Slice.mem (shape0 a) rs i
                   then imap (λ j x,
                                if Slice.mem (shape1 a) cs j
                                then default x
                                       (get b (bindex (shape0 b) (i - Slice.lo (shape0 a) rs))
                                              (bindex (shape1 b) (j - Slice.lo (shape1 a) cs)))
                                else x) r
                   else r)
                (rows a)))
  else Raise ValueError.

(** [a.repeat(n, axis=0)] and [a.repeat(n, axis=1)]: a new array.
    A negative count is a [ValueError]. *)
Definition repeat0 (n : Z) (a : t) : result t :=
  if n <? 0 then Raise ValueError
  else Ok (Make (shape0 a * Z.to_nat n) (shape1 a)
                (rows a ≫= replicate (Z.to_nat n))).

Definition repeat1 (n : Z) (a : t) : result t :=
  if n <? 0 then Raise ValueError
  else Ok (Make (shape0 a) (shape1 a * Z.to_nat n)
                ((λ r, r ≫= replicate (Z.to_nat n)) <$> rows a)).

End Image.
Arguments t : clear implicits.
End Image.

(** ** Arrays of rank 3 *)

Module Cube.
Section Cube.
Context {A : Type}.

Record t : Type :=
  Make { shape0 : nat; shape1 : nat; shape2 : nat; planes : list (list (list A)) }.

Definition wf (a : t) : Prop :=
  length (planes a) = shape0 a
  ∧ Forall (λ p, length p = shape1 a
                 ∧ Forall (λ r, length r = shape2 a) p) (planes a).

(** [a[i, j]], the vector along the last axis, and [a[i, j, k]] *)
Definition cell (a : t) (i j : nat) : option (list A) :=
  p ← planes a !! i; p !! j.

Definition get (a : t) (i j k : nat) : option A :=
  r ← cell a i j; r !! k.

(** [np.zeros((n0, n1, n2))], for the zero [z] of the cell type *)
Definition full (z : A) (n0 n1 n2 : nat) : t :=
  Make n0 n1 n2 (replicate n0 (replicate n1 (replicate n2 z))).

(** [a[:, :, c] = b] for an array [b] of rank 2, broadcast to the first
    two axes of [a]. *)
Definition set_channel (a : t) (c : nat) (b : Image.t A) : result t :=
  if negb (c <? shape2 a)%nat then Raise IndexError
  else if Image.broadcastable (Image.shape0 b) (shape0 a)
          && Image.broadcastable (Image.shape1 b) (shape1 a)
  then
    Ok (Make (shape0 a) (shape1 a) (shape2 a)
          (imap (λ i p,
                   imap (λ j r,
                           match Image.get b (Image.bindex (Image.shape0 b) i)
                                             (Image.bindex (Image.shape1 b) j) with
                           | Some v => <[c := v]> r
                           | None => r
                           end) p)
                (planes a)))
  else Raise ValueError.

(** [np.moveaxis(a, 2, 0)]: shape [(n0, n1, n2)] becomes [(n2, n0, n1)]
    and [result[k, i, j] = a[i, j, k]].  A cell that an ill-formed [a]
    does not have is dropped. *)
Definition moveaxis_2_0 (a : t) : t :=
  Make (shape2 a) (shape0 a) (shape1 a)
       ((λ k, (λ i, omap (λ j, get a i j k) (seq 0 (shape1 a)))
                <$> seq 0 (shape0 a))
          <$> seq 0 (shape2 a)).

(** [np.moveaxis(a, 0, 2)]: shape [(n0, n1, n2)] becomes [(n1, n2, n0)]
    and [result[j, k, i] = a[i, j, k]]. *)
Definition moveaxis_0_2 (a : t) : t :=
  Make (shape1 a) (shape2 a) (shape0 a)
       ((λ j, (λ k, omap (λ i, get a i j k) (seq 0 (shape0 a)))
                <$> seq 0 (shape2 a))
          <$> seq 0 (shape1 a)).

End Cube.
Arguments t : clear implicits.

Definition map {A B : Type} (f : A → B) (a : t A) : t B :=
  Make (shape0 a) (shape1 a) (shape2 a) ((λ p : list (list A), (λ r : list A, f <$> r) <$> p) <$> planes a).

End Cube.

(** ** Arrays of rank 2 or 3 *)

Inductive ndarray (A : Type) : Type :=
| Nd2 (a : Image.t A)
| Nd3 (a : Cube.t A).
Arguments Nd2 {A} a.
Arguments Nd3 {A} a.

Module Nd.

Definition image_map {A B : Type} (f : A → B) (a : Image.t A) : Image.t B :=
  Image.Make (Image.shape0 a) (Image.shape1 a) ((λ r : list A, f <$> r) <$> Image.rows a).

(** an elementwise operation *)
Definition map {A B : Type} (f : A → B) (x : ndarray A) : ndarray B :=
  match x with
  | Nd2 a => Nd2 (image_map f a)
  | Nd3 a => Nd3 (Cube.map f a)
  end.

(** [x.ravel()]: the elements in row-major order *)
Definition flat {A : Type} (x : ndarray A) : list A :=
  match x with
  | Nd2 a => concat (Image.rows a)
  | Nd3 a => concat (concat (Cube.planes a))
  end.

(** [len(x.shape)] *)
Definition ndim {A : Type} (x : ndarray A) : nat :=
  match x with Nd2 _ => 2%nat | Nd3 _ => 3%nat end.


Definition wf {A : Type} (x : ndarray A) : Prop :=
  match x with
  | Nd2 a => Image.wf a
  | Nd3 a => Cube.wf a
  end.

(** Two arrays of one shape whose elements are related pairwise. *)
Definition Forall2 {A B : Type} (R : A → B → Prop) (x : ndarray A) (y : ndarray B) : Prop :=
  match x, y with
  | Nd2 a, Nd2 b =>
      Image.shape0 a = Image.shape0 b ∧ Image.shape1 a = Image.shape1 b
      ∧ List.Forall2 (List.Forall2 R) (Image.rows a) (Image.rows b)
  | Nd3 a, Nd3 b =>
      Cube.shape0 a = Cube.shape0 b ∧ Cube.shape1 a = Cube.shape1 b
      ∧ Cube.shape2 a = Cube.shape2 b
      ∧ List.Forall2 (List.Forall2 (List.Forall2 R)) (Cube.planes a) (Cube.planes b)
  | _, _ => False
  end.

(** Every element satisfies [P]. *)
Definition Forall {A : Type} (P : A → Prop) (x : ndarray A) : Prop :=
  List.Forall P (flat x).

End Nd.

(** ** FITS headers *)

(** The value of a header card. *)
Inductive value : Type :=
| VNum (q : Q)
| VStr (s : string)
| VBool (b : bool).

(** A header maps keywords to values. *)
Abbreviation Header := (gmap string value).

Module Value.

Definition of_Z (n : Z) : value := VNum (inject_Z n).
Definition of_nat (n : nat) : value := of_Z (Z.of_nat n).

(** The number a value stands for in arithmetic: a Python [bool] is the
    integer 0 or 1, a [str] is not a number. *)
Definition number (v : value) : option Q :=
  match v with
  | VNum q => Some q
  | VBool b => Some (if b then 1%Q else 0%Q)
  | VStr _ => None
  end.

(** [v - n] for an [int] [n] *)
Definition sub (v : value) (n : Z) : result value :=
  match number v with
  | Some q => Ok (VNum (q - inject_Z n))
  | None => Raise TypeError
  end.

(** [v / n] for an [int] [n]; Python raises [ZeroDivisionError] for
    [n = 0], which no caller passes. *)
Definition div (v : value) (n : Z) : result Q :=
  match number v with
  | Some q => Ok (q / inject_Z n)%Q
  | None => Raise TypeError
  end.

End Value.

(** ** The functions of [utils.py] that do not mutate their arguments *)

(** [crop(img, x_c, y_c, w=512, h=512)] *)
Definition crop {A : Type} (img : Image.t A) (x_c y_c w h : Z) : Image.t A :=
  Image.getslice img
    (Slice.range (y_c - h / 2) (y_c + h / 2))
    (Slice.range (x_c - w / 2) (x_c + w / 2)).

Definition crop_default {A : Type} (img : Image.t A) (x_c y_c : Z) : Image.t A :=
  crop img x_c y_c 512 512.

(** [combine_red_green(img1, img2)] *)
Definition combine_red_green (img1 img2 : Image.t Q) : result (Cube.t Q) :=
  let img := Cube.full 0%Q (Image.shape0 img1) (Image.shape1 img1) 3 in
  img ← Cube.set_channel img 0 img1;
  img ← Cube.set_channel img 1 img2;
  Ok img.

(** [mtf(x, m)] on one element, in exact arithmetic *)
Definition mtf (x m : Q) : Q :=
  ((m - 1) * x / ((2 * m - 1) * x - m))%Q.

(** [mtf(x, m)] on one element, on doubles: each operation of the
    expression rounds to the nearest double. *)
Definition mtf_float (x m : float) : float :=
  ((m - 1) * x / ((2 * m - 1) * x - m))%float.

(** The denominator of [mtf]. *)
Definition mtf_den (x m : Q) : Q := ((2 * m - 1) * x - m)%Q.

Module Np.

(** [x.min()] and [x.max()] over all elements; [ValueError] on an empty
    array. *)
Definition amin (x : ndarray Q) : result Q :=
  match Nd.flat x with
  | [] => Raise ValueError
  | v :: l => Ok (foldl Qmin v l)
  end.

Definition amax (x : ndarray Q) : result Q :=
  match Nd.flat x with
  | [] => Raise ValueError
  | v :: l => Ok (foldl Qmax v l)
  end.

Fixpoint insert_sorted (v : Q) (l : list Q) : list Q :=
  match l with
  | [] => [v]
  | w :: l' => if Qle_bool v w then v :: l else w :: insert_sorted v l'
  end.

Definition sort (l : list Q) : list Q := foldr insert_sorted [] l.

(** [np.median(x)]: the middle element of the sorted elements, or the
    mean of the two middle ones.  The median of an empty array is NaN
    (with a warning), here [None]. *)
Definition median (x : ndarray Q) : option Q :=
  let s := sort (Nd.flat x) in
  let n := length s in
  if (n =? 0)%nat then None
  else if Nat.odd n then s !! (n / 2)%nat
  else a ← s !! (n / 2 - 1)%nat; b ← s !! (n / 2)%nat; Some ((a + b) / 2)%Q.

(** [np.clip(v, low, high)] on one element *)
Definition clip (low high v : Q) : Q := Qmin (Qmax v low) high.

End Np.

(** The bounds [ht] clips to (the first lines of [ht]): the given ones,
    or the minimum (the median with [shadow_clipping]) and the maximum of
    [x].  The lower bound is [None] when it is NaN. *)
Definition ht_bounds (x : ndarray Q) (low high : option Q) (shadow_clipping : bool)
  : result (option Q * Q) :=
  low ← match low with
        | Some l => Ok (Some l)
        | None => if shadow_clipping then Ok (Np.median x)
                  else l ← Np.amin x; Ok (Some l)
        end;
  high ← match high with
         | Some h => Ok h
         | None => Np.amax x
         end;
  Ok (low, high).

(** [ht(x, m, low=None, high=None, shadow_clipping=False)], in exact
    arithmetic on finite values *)
Definition ht (x : ndarray Q) (m : Q) (low high : option Q) (shadow_clipping : bool)
  : result (ndarray Q) :=
  '(low, high) ← ht_bounds x low high shadow_clipping;
  match low with
  | Some low =>
      let x := Nd.map (Np.clip low high) x in
      let x := Nd.map (λ v, (v - low) / (high - low))%Q x in
      let x := Nd.map (λ v, mtf v m) x in
      Ok x
  | None =>
      (* a NaN bound arises only as the median of an empty array, which
         every elementwise step leaves empty *)
      Ok x
  end.

(** [crop_img]'s loop body for the card [(k, v)]; [h] is [new_header]. *)
Definition crop_img_step (left top : Z) (k : string) (v : value)
    (h : result Header) : result Header :=
  h ← h;
  h ← (if bool_decide (k ∈ ["MOON-X"; "SUN-X"]%string)
       then v' ← Value.sub v left; Ok (<[k := v']> h)
       else Ok h);
  if bool_decide (k ∈ ["MOON-Y"; "SUN-Y"]%string)
  then v' ← Value.sub v top; Ok (<[k := v']> h)
  else Ok h.

(** [crop_img(img, left, right, top, bottom, header=None)]: the cropped
    array and, when a header is given, the new header. *)
Definition crop_img {A : Type} (img : Image.t A) (left right top bottom : Z)
    (header : option Header) : result (Image.t A * option Header) :=
  let new_img :=
    Image.getslice img (Slice.range top (bottom + 1)) (Slice.range left (right + 1)) in
  match header with
  | Some header =>
      let new_header := header in
      let new_header := <["NAXIS1" := Value.of_nat (Image.shape1 img)]> new_header in
      let new_header := <["NAXIS2" := Value.of_nat (Image.shape0 img)]> new_header in
      new_header ← map_fold (crop_img_step left top) (Ok new_header) new_header;
      Ok (new_img, Some new_header)
  | None => Ok (new_img, None)
  end.

(** ** Reading and writing files *)

(** The sample type of the array of a file. *)
Inductive dtype : Type :=
| uint16
| float64
| other_dtype.

(** The primary HDU of a file: an array with its sample type, and a
    header.  The samples of a [uint16] array are the integers of
    [0..65535]. *)
Record hdu : Type := PrimaryHDU { hdu_dtype : dtype; hdu_data : ndarray Q; hdu_header : Header }.

(** C's conversion of a float to an integer drops the fraction. *)
Definition trunc (q : Q) : Z := Z.quot (Qnum q) (Zpos (Qden q)).

(** [.astype('uint16')] on one element *)
Definition astype_uint16 (q : Q) : Q := inject_Z (trunc q mod 65536).

(** The guarded [np.moveaxis] calls: arrays of rank 3 only. *)
Definition moveaxis_2_0_if_rank3 {A : Type} (img : ndarray A) : ndarray A :=
  match img with
  | Nd3 a => Nd3 (Cube.moveaxis_2_0 a)
  | Nd2 a => Nd2 a
  end.

Definition moveaxis_0_2_if_rank3 {A : Type} (img : ndarray A) : ndarray A :=
  match img with
  | Nd3 a => Nd3 (Cube.moveaxis_0_2 a)
  | Nd2 a => Nd2 a
  end.

Section Fits.
(** astropy's FITS codec is not part of the repository: [fits_open]
    gives the primary HDU of the file at a path of the file system
    ([None] when there is no such file), [fits_writeto] writes one,
    replacing what was there. *)
Context {filesystem : Type}.
Variable fits_open : string → filesystem → option hdu.
Variable fits_writeto : hdu → string → filesystem → filesystem.

(** [read_fits_as_float(filepath)] *)
Definition read_fits_as_float (filepath : string) (fs : filesystem)
  : result (ndarray Q * Header) :=
  match fits_open filepath fs with
  | None => Raise OSError
  | Some hdul0 =>
      let img := hdu_data hdul0 in
      let header := hdu_header hdul0 in
      img ← match hdu_dtype hdul0 with
            | uint16 => Ok (Nd.map (λ v, v / 65535)%Q img)
            | float64 => Ok img
            | other_dtype => Raise TypeError
            end;
      Ok (moveaxis_0_2_if_rank3 img, header)
  end.

(** [save_as_fits(img, header, filepath, convert_to_uint16=True)] for a
    float array [img]; the file system after the call. *)
Definition save_as_fits (img : ndarray Q) (header : Header) (filepath : string)
    (convert_to_uint16 : bool) (fs : filesystem) : filesystem :=
  let '(dt, img) :=
    if convert_to_uint16
    then (uint16, Nd.map (λ v, astype_uint16 (Np.clip 0 1 v * 65535)) img)
    else (float64, img) in
  let img := moveaxis_2_0_if_rank3 img in
  fits_writeto (PrimaryHDU dt img header) filepath fs.

End Fits.

(** A file system that keeps what was written. *)
Definition map_open (filepath : string) (fs : gmap string hdu) : option hdu :=
  fs !! filepath.
Definition map_writeto (h : hdu) (filepath : string) (fs : gmap string hdu)
  : gmap string hdu := <[filepath := h]> fs.

(** ** Objects mutated in place *)

(** The caller's arrays and headers live in a store; a Python variable
    holds a location.  A function that mutates its argument, or that
    returns its argument, is written in the monad [M]: a state monad
    over the store with exceptions. *)
Module Store.
Section Store.
Context {Arr : Type}.

Definition loc : Type := positive.

Record t : Type := Make { arrays : gmap loc Arr; headers : gmap loc Header }.

(** A call returns, raises, or is stuck on a location that names no
    object (which no Python program does). *)
Inductive outcome (X : Type) : Type :=
| Return (x : X) (s : t)
| Throw (e : exn) (s : t)
| Stuck.
Arguments Return {X} x s.
Arguments Throw {X} e s.
Arguments Stuck {X}.

Definition M (X : Type) : Type := t → outcome X.

#[global] Instance M_ret : MRet M := λ X x s, Return x s.
#[global] Instance M_bind : MBind M := λ X Y k m s,
  match m s with
  | Return x s' => k x s'
  | Throw e s' => Throw e s'
  | Stuck => Stuck
  end.

(** An expression without effects, which may raise. *)
Definition lift {X : Type} (r : result X) : M X := λ s,
  match r with
  | Ok x => Return x s
  | Raise e => Throw e s
  end.

(** Reading the array or the header at a location. *)
Definition get_array (l : loc) : M Arr := λ s,
  match arrays s !! l with
  | Some a => Return a s
  | None => Stuck
  end.

Definition get_header (l : loc) : M Header := λ s,
  match headers s !! l with
  | Some h => Return h s
  | None => Stuck
  end.

(** Overwriting the object at a location. *)
Definition set_array (l : loc) (a : Arr) : M unit := λ s,
  match arrays s !! l with
  | Some _ => Return () (Make (<[l := a]> (arrays s)) (headers s))
  | None => Stuck
  end.

Definition set_header (l : loc) (h : Header) : M unit := λ s,
  match headers s !! l with
  | Some _ => Return () (Make (arrays s) (<[l := h]> (headers s)))
  | None => Stuck
  end.

(** A new array object. *)
Definition new_array (a : Arr) : M loc := λ s,
  let l := fresh (dom (arrays s)) in
  Return l (Make (<[l := a]> (arrays s)) (headers s)).

End Store.
Arguments t : clear implicits.
Arguments M : clear implicits.
Arguments outcome : clear implicits.
Arguments Return {Arr X} x s.
Arguments Throw {Arr X} e s.
Arguments Stuck {Arr X}.
End Store.

(** [remove_pedestal(img, header)]: [img] and [header] are the caller's
    objects; the result is the location of the returned array. *)
Definition remove_pedestal (img header : Store.loc) : Store.M (ndarray Q) Store.loc :=
  h ← Store.get_header header;
  match h !! "PEDESTAL"%string with
  | Some v =>
      p ← Store.lift (Value.div v 65535);
      a ← Store.get_array img;
      img ← Store.new_array (Nd.map (λ x, x - p)%Q a);
      a ← Store.get_array img;
      img ← Store.new_array (Nd.map (λ x, Qmax x 0) a);
      Store.set_header header (delete "PEDESTAL"%string h);;
      mret img
  | None => mret img
  end.

Section CropInset.
Context {A : Type}.

(** [img[rs, cs] = v] on the array at [img] *)
Definition setitem_scalar (img : Store.loc) (rs cs : Slice.t) (v : A)
  : Store.M (Image.t A) unit :=
  a ← Store.get_array img;
  Store.set_array img (Image.setslice_scalar a rs cs v).

(** [img[rs, cs] = b] on the array at [img] *)
Definition setitem_array (img : Store.loc) (rs cs : Slice.t) (b : Image.t A)
  : Store.M (Image.t A) unit :=
  a ← Store.get_array img;
  a ← Store.lift (Image.setslice_array a rs cs b);
  Store.set_array img a.

(** [crop_inset(img, crop_center, crop_radii, scale=4,
    border_value=np.nan, border_thickness=2)].  [crop] is a view of
    [img] in numpy: it is the pair of slices here, read when [repeat]
    copies it. *)
Definition crop_inset (img : Store.loc) (crop_center crop_radii : Z * Z)
    (scale : Z) (border_value : A) (border_thickness : Z)
  : Store.M (Image.t A) unit :=
  (* Crop *)
  let i_left := crop_center.1 - crop_radii.1 in
  let i_right := crop_center.1 + crop_radii.1 in
  let j_top := crop_center.2 - crop_radii.2 in
  let j_bottom := crop_center.2 + crop_radii.2 in
  let crop := (Slice.range i_left (i_right + 1), Slice.range j_top (j_bottom + 1)) in
  (* Crop border *)
  setitem_scalar img
    (Slice.range (i_left - border_thickness) (i_right + 1 + border_thickness))
    (Slice.range (j_top - border_thickness) j_top) border_value;;
  setitem_scalar img
    (Slice.range (i_left - border_thickness) (i_right + 1 + border_thickness))
    (Slice.range (j_bottom + 1) (j_bottom + 1 + border_thickness)) border_value;;
  setitem_scalar img
    (Slice.range (i_left - border_thickness) i_left)
    (Slice.range (j_top - border_thickness) (j_bottom + 1 + border_thickness))
    border_value;;
  setitem_scalar img
    (Slice.range (i_right + 1) (i_right + 1 + border_thickness))
    (Slice.range (j_top - border_thickness) (j_bottom + 1 + border_thickness))
    border_value;;
  (* Add inset *)
  a ← Store.get_array img;
  inset ← Store.lift (Image.repeat0 scale (Image.getslice a crop.1 crop.2));
  inset ← Store.lift (Image.repeat1 scale inset);
  let h := Z.of_nat (Image.shape0 inset) in
  let w := Z.of_nat (Image.shape1 inset) in
  setitem_array img (Slice.from (- h)) (Slice.from (- w)) inset;;
  (* Inset border *)
  setitem_scalar img
    (Slice.from (- h)) (Slice.range (- w - border_thickness) (- w)) border_value;;
  setitem_scalar img
    (Slice.range (- h - border_thickness) (- h)) (Slice.from (- w)) border_value.

End CropInset.

(** ** Headers and directories *)

(** [read_fits_header(filepath)] *)
Definition read_fits_header {filesystem : Type}
    (fits_open : string → filesystem → option hdu)
    (filepath : string) (fs : filesystem) : result Header :=
  match fits_open filepath fs with
  | None => Raise OSError
  | Some hdul0 =>
      let header := hdu_header hdul0 in
      Ok header
  end.

(** A Python [dict], in insertion order: [d[k] = x] replaces the value
    of a key the dict has and appends a key it has not. *)
Fixpoint dict_setitem {V : Type} (d : list (string * V)) (k : string) (x : V)
  : list (string * V) :=
  match d with
  | [] => [(k, x)]
  | (k', x') :: d' =>
      if decide (k' = k) then (k, x) :: d' else (k', x') :: dict_setitem d' k x
  end.

Section AstropyHeader.
(** The class [fits.Header] is astropy's: [header_keys h] is
    [header.keys()], [header_getitem h k] is [header[k]], which is a
    Python object (an [item]: the value of a card, or what astropy
    returns for a commentary keyword or a pattern), and
    [Header_of_dict d] is [fits.Header(d)] for a dict [d]. *)
Context {item : Type}.
Variable header_keys : Header → list string.
Variable header_getitem : Header → string → result item.
Variable Header_of_dict : list (string * item) → result Header.

(** [for k in keys: kv_dict[k] = header[k]], the loop of both functions *)
Definition copy_cards (header : Header) (keys : list string)
    (kv_dict : list (string * item)) : result (list (string * item)) :=
  foldl (λ (kv_dict : result (list (string * item))) k,
           kv_dict ← kv_dict;
           v ← header_getitem header k;
           Ok (dict_setitem kv_dict k v))
        (Ok kv_dict) keys.

(** [extract_subheader(header, keys)] *)
Definition extract_subheader (header : Header) (keys : list string) : result Header :=
  let kv_dict := [] in
  kv_dict ← copy_cards header keys kv_dict;
  subheader ← Header_of_dict kv_dict;
  Ok subheader.

(** [combine_headers(header1, header2)] *)
Definition combine_headers (header1 header2 : Header) : result Header :=
  let kv_dict := [] in
  kv_dict ← copy_cards header1 (header_keys header1) kv_dict;
  kv_dict ← copy_cards header2 (header_keys header2) kv_dict;
  header ← Header_of_dict kv_dict;
  Ok header.

End AstropyHeader.

(** [s.endswith(suffix)] *)
Fixpoint endswith (s suffix : string) : bool :=
  String.eqb s suffix
  || match s with
     | EmptyString => false
     | String _ s' => endswith s' suffix
     end.

(** [os.path.join(a, b)] of [posixpath] *)
Definition path_join (a b : string) : string :=
  if String.prefix "/" b then b
  else if String.eqb a "" || endswith a "/" then a +:+ b
  else a +:+ "/" +:+ b.

Section Exptime.
(** [walk dirname fs] is [next(os.walk(dirname))] without the
    sub-directories: the path of the directory and the names of its
    files, in the order the system lists them; [None] when [os.walk]
    yields nothing, as it does for a path that is no directory.  [str]
    is Python's [str] on a header value. *)
Context {filesystem : Type}.
Variable fits_open : string → filesystem → option hdu.
Variable walk : string → filesystem → option (string * list string).
Variable str : value → string.

(** [get_filepaths_per_exptime(dirname)] *)
Definition get_filepaths_per_exptime (dirname : string) (fs : filesystem)
  : result (gmap string (list string)) :=
  let filepaths_per_exptime : gmap string (list string) := ∅ in
  match walk dirname fs with
  | None => Raise StopIteration
  | Some (dirpath, filenames) =>
      foldl (λ (filepaths_per_exptime : result (gmap string (list string))) filename,
               filepaths_per_exptime ← filepaths_per_exptime;
               if endswith filename ".fits" then
                 let filepath := path_join dirpath filename in
                 header ← read_fits_header fits_open filepath fs;
                 match header !! "EXPTIME"%string with
                 | None => Raise KeyError
                 | Some exptime =>
                     match filepaths_per_exptime !! str exptime with
                     | Some l =>
                         Ok (<[str exptime := l ++ [filepath]]> filepaths_per_exptime)
                     | None =>
                         Ok (<[str exptime := [filepath]]> filepaths_per_exptime)
                     end
                 end
               else Ok filepaths_per_exptime)
            (Ok filepaths_per_exptime) filenames
  end.

End Exptime.

(** ** Preconditions named in the properties *)

(** The rectangle that [crop] is asked for lies inside the array. *)
Definition crop_in_bounds {A : Type} (img : Image.t A) (x_c y_c w h : Z) : Prop :=
  0 ≤ y_c - h / 2 ∧ y_c + h / 2 ≤ Z.of_nat (Image.shape0 img)
  ∧ 0 ≤ x_c - w / 2 ∧ x_c + w / 2 ≤ Z.of_nat (Image.shape1 img).


(** The keys [crop_img] translates. *)
Definition x_keys : list string := ["MOON-X"; "SUN-X"]%string.
Definition y_keys : list string := ["MOON-Y"; "SUN-Y"]%string.

(** What [crop_img]'s loop makes of the card [(k, v)]. *)
Definition coord_shift (left top : Z) (k : string) (v : value) : result value :=
  if bool_decide (k ∈ x_keys) then Value.sub v left
  else if bool_decide (k ∈ y_keys) then Value.sub v top
  else Ok v.

(** The coordinate cards of a header hold numbers. *)
Definition numeric_coords (h : Header) : Prop :=
  ∀ k v, k ∈ x_keys ++ y_keys → h !! k = Some v → is_Some (Value.number v).

(** A value of the unit interval. *)
Definition unit_interval (v : Q) : Prop := (0 <= v)%Q ∧ (v <= 1)%Q.

(** numpy can broadcast an array of the shape of [b] to the shape of [a]. *)
Definition broadcast_compatible {A : Type} (b a : Image.t A) : bool :=
  Image.broadcastable (Image.shape0 b) (Image.shape0 a)
  && Image.broadcastable (Image.shape1 b) (Image.shape1 a).

(** What the properties assume of the codec: a file that was written
    reads back with the array and the sample type it was written with
    (the codec may rewrite the header). *)
Definition codec_lossless {filesystem : Type}
    (fits_open : string → filesystem → option hdu)
    (fits_writeto : hdu → string → filesystem → filesystem) : Prop :=
  ∀ h filepath fs, ∃ header',
    fits_open filepath (fits_writeto h filepath fs)
    = Some (PrimaryHDU (hdu_dtype h) (hdu_data h) header').

(** Two floats within one quantisation step of each other *)
Definition within_step (a b : Q) : Prop := (Qabs (b - a) <= 1 / 65535)%Q.

(** The precondition of [crop_inset]: radii, scale and thickness are
    sensible; the crop box with its border lies inside the image; the
    inset with its border lies inside the image; and the inset with its
    border does not meet the crop box. *)
Definition inset_fits {A : Type} (a : Image.t A) (crop_center crop_radii : Z * Z)
    (scale border_thickness : Z) : Prop :=
  let i_left := crop_center.1 - crop_radii.1 in
  let i_right := crop_center.1 + crop_radii.1 in
  let j_top := crop_center.2 - crop_radii.2 in
  let j_bottom := crop_center.2 + crop_radii.2 in
  let h := (2 * crop_radii.1 + 1) * scale in
  let w := (2 * crop_radii.2 + 1) * scale in
  0 ≤ crop_radii.1 ∧ 0 ≤ crop_radii.2 ∧ 1 ≤ scale ∧ 0 ≤ border_thickness
  ∧ border_thickness ≤ i_left
  ∧ i_right + 1 + border_thickness ≤ Z.of_nat (Image.shape0 a)
  ∧ border_thickness ≤ j_top
  ∧ j_bottom + 1 + border_thickness ≤ Z.of_nat (Image.shape1 a)
  ∧ h + border_thickness ≤ Z.of_nat (Image.shape0 a)
  ∧ w + border_thickness ≤ Z.of_nat (Image.shape1 a)
  ∧ (i_right + 1 ≤ Z.of_nat (Image.shape0 a) - h - border_thickness
     ∨ j_bottom + 1 ≤ Z.of_nat (Image.shape1 a) - w - border_thickness).

(** The array after the first half of [crop_inset], the border around
    the crop box. *)
Definition crop_border_array {A : Type} (a : Image.t A) (crop_center crop_radii : Z * Z)
    (border_value : A) (border_thickness : Z) : Image.t A :=
  let i_left := crop_center.1 - crop_radii.1 in
  let i_right := crop_center.1 + crop_radii.1 in
  let j_top := crop_center.2 - crop_radii.2 in
  let j_bottom := crop_center.2 + crop_radii.2 in
  let a := Image.setslice_scalar a
      (Slice.range (i_left - border_thickness) (i_right + 1 + border_thickness))
      (Slice.range (j_top - border_thickness) j_top) border_value in
  let a := Image.setslice_scalar a
      (Slice.range (i_left - border_thickness) (i_right + 1 + border_thickness))
      (Slice.range (j_bottom + 1) (j_bottom + 1 + border_thickness)) border_value in
  let a := Image.setslice_scalar a
      (Slice.range (i_left - border_thickness) i_left)
      (Slice.range (j_top - border_thickness) (j_bottom + 1 + border_thickness))
      border_value in
  Image.setslice_scalar a
      (Slice.range (i_right + 1) (i_right + 1 + border_thickness))
      (Slice.range (j_top - border_thickness) (j_bottom + 1 + border_thickness))
      border_value.

(** The array [crop_inset] leaves at [img], as a function of the array
    [a] it finds there: the same statements, on the array. *)
Definition crop_inset_array {A : Type} (a : Image.t A) (crop_center crop_radii : Z * Z)
    (scale : Z) (border_value : A) (border_thickness : Z) : result (Image.t A) :=
  let i_left := crop_center.1 - crop_radii.1 in
  let i_right := crop_center.1 + crop_radii.1 in
  let j_top := crop_center.2 - crop_radii.2 in
  let j_bottom := crop_center.2 + crop_radii.2 in
  let a := crop_border_array a crop_center crop_radii border_value border_thickness in
  inset ← Image.repeat0 scale
             (Image.getslice a (Slice.range i_left (i_right + 1))
                               (Slice.range j_top (j_bottom + 1)));
  inset ← Image.repeat1 scale inset;
  let h := Z.of_nat (Image.shape0 inset) in
  let w := Z.of_nat (Image.shape1 inset) in
  a ← Image.setslice_array a (Slice.from (- h)) (Slice.from (- w)) inset;
  let a := Image.setslice_scalar a
      (Slice.from (- h)) (Slice.range (- w - border_thickness) (- w)) border_value in
  Ok (Image.setslice_scalar a
        (Slice.range (- h - border_thickness) (- h)) (Slice.from (- w)) border_value).

(** What [ht] makes of one element [v], for the bounds [lo] and [hi]:
    0 at or below [lo], 1 at or above [hi], one half at the balance
    point. *)
Definition ht_stretches (lo hi m v y : Q) : Prop :=
  ((v <= lo)%Q → (y == 0)%Q)
  ∧ ((hi <= v)%Q → (y == 1)%Q)
  ∧ ((v == lo + m * (hi - lo))%Q → (y == 1 # 2)%Q).

(** What reading does to one sample of a file of sample type [dt]. *)
Definition sample_to_float (dt : dtype) (v : Q) : Q :=
  match dt with
  | uint16 => (v / 65535)%Q
  | _ => v
  end.

(** What a float [v] has become after it was saved as [uint16] and read
    again. *)
Definition saturated (v y : Q) : Prop :=
  unit_interval y
  ∧ within_step (Np.clip 0 1 v) y
  ∧ ((v <= 0)%Q → (y == 0)%Q)
  ∧ ((1 <= v)%Q → (y == 1)%Q).

(** The cells of the frame that [crop_inset] draws around the crop box:
    within [border_thickness] of the box, and not in it. *)
Definition on_crop_border (crop_center crop_radii : Z * Z) (border_thickness : Z)
    (i j : nat) : Prop :=
  let i_left := crop_center.1 - crop_radii.1 in
  let i_right := crop_center.1 + crop_radii.1 in
  let j_top := crop_center.2 - crop_radii.2 in
  let j_bottom := crop_center.2 + crop_radii.2 in
  i_left - border_thickness ≤ Z.of_nat i ≤ i_right + border_thickness
  ∧ j_top - border_thickness ≤ Z.of_nat j ≤ j_bottom + border_thickness
  ∧ ¬ (i_left ≤ Z.of_nat i ≤ i_right ∧ j_top ≤ Z.of_nat j ≤ j_bottom).

(** The cells of the inset: the block of [(2 * r0 + 1) * scale] by
    [(2 * r1 + 1) * scale] cells in the last rows and columns. *)
Definition in_inset {A : Type} (a : Image.t A) (crop_radii : Z * Z) (scale : Z)
    (i j : nat) : Prop :=
  let h := (2 * crop_radii.1 + 1) * scale in
  let w := (2 * crop_radii.2 + 1) * scale in
  Z.of_nat (Image.shape0 a) - h ≤ Z.of_nat i < Z.of_nat (Image.shape0 a)
  ∧ Z.of_nat (Image.shape1 a) - w ≤ Z.of_nat j < Z.of_nat (Image.shape1 a).

(** The cells of the two strips that [crop_inset] draws along the inset:
    before its first column, and before its first row. *)
Definition on_inset_border {A : Type} (a : Image.t A) (crop_radii : Z * Z)
    (scale border_thickness : Z) (i j : nat) : Prop :=
  let h := (2 * crop_radii.1 + 1) * scale in
  let w := (2 * crop_radii.2 + 1) * scale in
  let H := Z.of_nat (Image.shape0 a) in
  let W := Z.of_nat (Image.shape1 a) in
  (H - h ≤ Z.of_nat i < H ∧ W - w - border_thickness ≤ Z.of_nat j < W - w)
  ∨ (H - h - border_thickness ≤ Z.of_nat i < H - h ∧ W - w ≤ Z.of_nat j < W).

(** The crop box and its frame lie inside the image. *)
Definition crop_box_fits {A : Type} (a : Image.t A) (crop_center crop_radii : Z * Z)
    (border_thickness : Z) : Prop :=
  0 ≤ crop_radii.1 ∧ 0 ≤ crop_radii.2 ∧ 0 ≤ border_thickness
  ∧ border_thickness ≤ crop_center.1 - crop_radii.1
  ∧ crop_center.1 + crop_radii.1 + 1 + border_thickness ≤ Z.of_nat (Image.shape0 a)
  ∧ border_thickness ≤ crop_center.2 - crop_radii.2
  ∧ crop_center.2 + crop_radii.2 + 1 + border_thickness ≤ Z.of_nat (Image.shape1 a).

Section ExptimeKeys.
Context {filesystem : Type}.
Variable fits_open : string → filesystem → option hdu.
Variable str : value → string.

(** The key under which [get_filepaths_per_exptime] lists a file: [str]
    of its [EXPTIME] card; [None] for a file that cannot be opened or
    has no such card. *)
Definition exptime_key (fs : filesystem) (filepath : string) : option string :=
  hdul0 ← fits_open filepath fs;
  exptime ← hdu_header hdul0 !! "EXPTIME"%string;
  Some (str exptime).

(** The paths, among [paths], of the files with a given key. *)
Definition paths_of_key (fs : filesystem) (key : string) (paths : list string)
  : list string :=
  filter (λ p, exptime_key fs p = Some key) paths.

(** One turn of the loop of [get_filepaths_per_exptime]. *)
Definition exptime_step (dirpath : string) (fs : filesystem)
    (acc : result (gmap string (list string))) (filename : string)
  : result (gmap string (list string)) :=
  filepaths_per_exptime ← acc;
  if endswith filename ".fits" then
    let filepath := path_join dirpath filename in
    header ← read_fits_header fits_open filepath fs;
    match header !! "EXPTIME"%string with
    | None => Raise KeyError
    | Some exptime =>
        match filepaths_per_exptime !! str exptime with
        | Some l => Ok (<[str exptime := l ++ [filepath]]> filepaths_per_exptime)
        | None => Ok (<[str exptime := [filepath]]> filepaths_per_exptime)
        end
    end
  else Ok filepaths_per_exptime.

End ExptimeKeys.

(** The paths of the FITS files among [filenames], in their order. *)
Definition fits_paths (dirpath : string) (filenames : list string) : list string :=
  path_join dirpath <$> filter (λ f, endswith f ".fits" = true) filenames.

(** A character of a standard FITS keyword: an upper-case letter, a
    digit, a hyphen or an underscore. *)
Definition keyword_char (c : Ascii.ascii) : bool :=
  let n := Ascii.nat_of_ascii c in
  ((65 <=? n) && (n <=? 90) || (48 <=? n) && (n <=? 57) || (n =? 45) || (n =? 95))%nat.

(** A standard keyword that names one card with a value: one to eight
    such characters, and not one of the keywords astropy treats
    specially. *)
Definition standard_keyword (k : string) : bool :=
  (1 <=? String.length k)%nat && (String.length k <=? 8)%nat
  && forallb keyword_char (String.list_ascii_of_string k)
  && bool_decide (k ∉ ["COMMENT"; "HISTORY"; "CONTINUE"; "END"]%string).

(** [sub in s] for strings *)
Fixpoint str_contains (s sub : string) : bool :=
  String.prefix sub s
  || match s with
     | EmptyString => false
     | String _ s' => str_contains s' sub
     end.

(** A value that a card holds as it is: a number, a truth value, or a
    string of printable ASCII characters that does not end in a space
    (astropy strips the spaces at the end of a value) and has no colon
    followed by a space (which can make astropy read the value as a
    field of a record). *)
Definition card_value (v : value) : bool :=
  match v with
  | VStr s =>
      forallb (λ c, (32 <=? Ascii.nat_of_ascii c)%nat && (Ascii.nat_of_ascii c <=? 126)%nat)
              (String.list_ascii_of_string s)
      && negb (endswith s " ") && negb (str_contains s ": ")
  | _ => true
  end.

(** A card with a standard keyword and such a value. *)
Definition standard_card (kv : string * value) : Prop :=
  standard_keyword kv.1 = true ∧ card_value kv.2 = true.

(** A header all of whose cards are standard. *)
Definition standard_header (h : Header) : Prop :=
  ∀ k v, h !! k = Some v → standard_card (k, v).

(** What the properties assume of [fits.Header]: on standard keywords
    it is a map from keywords to values.  [keys()] lists the keywords
    of the header, each once; [header[k]] for a standard keyword is the
    value of the card, and raises [KeyError] when there is no such
    card; [fits.Header(d)] for a dict of standard cards is the header
    with these cards. *)
Definition header_is_map {item : Type} (plain : value → item)
    (header_keys : Header → list string)
    (header_getitem : Header → string → result item)
    (Header_of_dict : list (string * item) → result Header) : Prop :=
  (∀ h, header_keys h ≡ₚ (map_to_list h).*1)
  ∧ (∀ h k, standard_keyword k = true →
       header_getitem h k = match h !! k with
                            | Some v => Ok (plain v)
                            | None => Raise KeyError
                            end)
  ∧ (∀ d : list (string * value),
       Forall standard_card d → NoDup d.*1 →
       Header_of_dict (prod_map id plain <$> d) = Ok (list_to_map d)).

(** One turn of the loop [copy_cards]. *)
Definition copy_step {item : Type} (header_getitem : Header → string → result item)
    (header : Header) (kv_dict : result (list (string * item))) (k : string)
  : result (list (string * item)) :=
  kv_dict ← kv_dict;
  v ← header_getitem header k;
  Ok (dict_setitem kv_dict k v).

(** The coordinate cards of a header hold integers (Python [int]s, whose
    subtraction is exact). *)
Definition integer_coords (h : Header) : Prop :=
  ∀ k v, k ∈ x_keys ++ y_keys → h !! k = Some v → ∃ n : Z, v = Value.of_Z n.

(** ** Data of the scenarios *)

(** [np.zeros((n0, n1))] *)
Definition zeros (n0 n1 : nat) : Image.t Q :=
  Image.Make n0 n1 (replicate n0 (replicate n1 0%Q)).

(** The header of the scenarios: two features at (120, 80). *)
Definition features_header : Header :=
  <["MOON-X"%string := VNum 120]> (<["MOON-Y"%string := VNum 80]>
  (<["SUN-X"%string := VNum 120]> (<["SUN-Y"%string := VNum 80]>
  (<["EXPTIME"%string := VNum 10]> ∅)))).

(** The header of a 200 x 200 frame with the same features. *)
Definition frame_header : Header :=
  <["NAXIS1"%string := VNum 200]> (<["NAXIS2"%string := VNum 200]> features_header).

(** The store of the scenario: a frame and its header with
    [PEDESTAL = 655]. *)
Definition pedestal_frame : ndarray Q := Nd2 (Image.Make 1 3 [[1 # 2; 1 # 200; 0]]%Q).
Definition pedestal_header : Header :=
  <["PEDESTAL"%string := VNum 655]> (<["EXPTIME"%string := VNum 10]> ∅).
Definition pedestal_store : Store.t (ndarray Q) :=
  Store.Make (<[1%positive := pedestal_frame]> ∅) (<[1%positive := pedestal_header]> ∅).

(** A colour frame of 2 x 1 pixels, channels last. *)
Definition colour_frame : ndarray Q :=
  Nd3 (Cube.Make 2 1 3 [[[0; 1 # 2; 1]]; [[1 # 3; 1 # 4; 1 # 5]]]%Q).

(** An image whose cell [(i, j)] holds [100 * i + j]. *)
Definition ramp (n0 n1 : nat) : Image.t Z :=
  Image.Make n0 n1
    ((λ i, (λ j, 100 * Z.of_nat i + Z.of_nat j) <$> seq 0 n1) <$> seq 0 n0).

(** The store of the scenario: a 12 x 12 ramp at location 1. *)
Definition ramp_store : Store.t (Image.t Z) :=
  Store.Make (<[1%positive := ramp 12 12]> ∅) ∅.

(** The store of the scenario with a [PEDESTAL] card that holds text. *)
Definition text_pedestal_store : Store.t (ndarray Q) :=
  Store.Make (<[1%positive := pedestal_frame]> ∅)
             (<[1%positive := <["PEDESTAL"%string := VStr "655"]> pedestal_header]> ∅).

(** A colour file of 3 x 1 x 2 [uint16] samples, channels first. *)
Definition colour_file : gmap string hdu :=
  <["rgb.fits"%string :=
      PrimaryHDU uint16 (Nd3 (Cube.Make 3 1 2 [[[0; 65535]]; [[1; 2]]; [[3; 4]]]%Q)) ∅]> ∅.

(** A colour file of floats, channels first. *)
Definition float_file : gmap string hdu :=
  <["rgb.fits"%string :=
      PrimaryHDU float64 (Nd3 (Cube.Make 3 1 2 [[[0; 1]]; [[1 # 2; 1 # 3]]; [[1 # 4; 1 # 5]]]%Q))
                 features_header]> ∅.

(** A frame with values outside the unit interval. *)
Definition bright_frame : ndarray Q := Nd2 (Image.Make 1 3 [[-1 # 2; 1 # 3; 7]]%Q).

(** The directory of the scenario: three frames, one of them with
    another exposure time, and a text file. *)
Definition frames_dir : gmap string hdu :=
  <["night/a.fits"%string := PrimaryHDU float64 (Nd2 (zeros 1 1))
                                (<["EXPTIME"%string := VStr "10"]> ∅)]>
  (<["night/b.fits"%string := PrimaryHDU float64 (Nd2 (zeros 1 1))
                                (<["EXPTIME"%string := VStr "30"]> ∅)]>
  (<["night/c.fits"%string := PrimaryHDU float64 (Nd2 (zeros 1 1))
                                (<["EXPTIME"%string := VStr "10"]> ∅)]> ∅)).

Definition frames_walk (dirname : string) (fs : gmap string hdu)
  : option (string * list string) :=
  Some (dirname, ["a.fits"; "log.txt"; "b.fits"; "c.fits"]%string).

(** [str] on the values of the scenario, which are strings. *)
Definition str_of_text (v : value) : string :=
  match v with
  | VStr s => s
  | _ => ""
  end.

(** [fits.Header] as a map and nothing else. *)
Definition map_keys (h : Header) : list string := (map_to_list h).*1.
Definition map_getitem (h : Header) (k : string) : result value :=
  match h !! k with
  | Some v => Ok v
  | None => Raise KeyError
  end.
Definition map_Header_of_dict (d : list (string * value)) : result Header :=
  Ok (list_to_map d).

(** * Properties *)

(** ** Slices and arrays *)

Section SliceFacts.
Implicit Types (n k : nat) (i : Z) (s : Slice.t).

Lemma Slice_index_le n i : (Slice.index n i ≤ n)%nat.
Proof. unfold Slice.index. case_match; lia. Qed.

Lemma Slice_index_nonneg n i : 0 ≤ i ≤ Z.of_nat n → Slice.index n i = Z.to_nat i.
Proof. unfold Slice.index. intros. case_match; lia. Qed.

Lemma Slice_index_neg n i :
  - Z.of_nat n ≤ i < 0 → Slice.index n i = (n - Z.to_nat (- i))%nat.
Proof. unfold Slice.index. intros. case_match; lia. Qed.

Lemma Slice_lo_le n s : (Slice.lo n s ≤ n)%nat.
Proof. unfold Slice.lo. case_match; [apply Slice_index_le | lia]. Qed.

Lemma Slice_hi_le n s : (Slice.hi n s ≤ n)%nat.
Proof. unfold Slice.hi. case_match; [apply Slice_index_le | lia]. Qed.

Lemma Slice_len_le n s : (Slice.lo n s + Slice.len n s ≤ n)%nat.
Proof.
  unfold Slice.len. pose proof (Slice_hi_le n s). pose proof (Slice_lo_le n s). lia.
Qed.

Lemma Slice_mem_spec n s k :
  Slice.mem n s k = true ↔ (Slice.lo n s ≤ k < Slice.hi n s)%nat.
Proof.
  unfold Slice.mem. rewrite andb_true_iff, Nat.leb_le, Nat.ltb_lt. done.
Qed.

Lemma Slice_range_inside n (a b : Z) :
  0 ≤ a → a ≤ b → b ≤ Z.of_nat n →
  Slice.lo n (Slice.range a b) = Z.to_nat a
  ∧ Slice.hi n (Slice.range a b) = Z.to_nat b
  ∧ Slice.len n (Slice.range a b) = Z.to_nat (b - a).
Proof.
  intros. unfold Slice.len, Slice.lo, Slice.hi, Slice.range. simpl.
  rewrite !Slice_index_nonneg by lia. lia.
Qed.

Lemma Slice_from_end n (h : nat) :
  (h ≤ n)%nat → (0 < h)%nat →
  Slice.lo n (Slice.from (- Z.of_nat h)) = (n - h)%nat
  ∧ Slice.hi n (Slice.from (- Z.of_nat h)) = n
  ∧ Slice.len n (Slice.from (- Z.of_nat h)) = h.
Proof.
  intros. unfold Slice.len, Slice.lo, Slice.hi, Slice.from. simpl.
  rewrite Slice_index_neg by lia. lia.
Qed.
End SliceFacts.

Section ImageFacts.
Context {A : Type}.
Implicit Types (a b : Image.t A) (rs cs : Slice.t) (i j : nat).

Lemma Image_get_Some_lt a i j x :
  Image.wf a → Image.get a i j = Some x →
  (i < Image.shape0 a)%nat ∧ (j < Image.shape1 a)%nat.
Proof.
  intros [Hlen Hrows]. unfold Image.get.
  destruct (Image.rows a !! i) as [r|] eqn:Hr; simpl; [|done].
  intros Hj. apply lookup_lt_Some in Hj.
  rewrite (Forall_lookup_1 _ _ _ _ Hrows Hr) in Hj.
  apply lookup_lt_Some in Hr. lia.
Qed.

Lemma Image_get_is_Some a i j :
  Image.wf a → (i < Image.shape0 a)%nat → (j < Image.shape1 a)%nat →
  is_Some (Image.get a i j).
Proof.
  intros [Hlen Hrows] Hi Hj. unfold Image.get.
  destruct (lookup_lt_is_Some_2 (Image.rows a) i) as [r Hr]; [lia|].
  rewrite Hr. simpl. apply lookup_lt_is_Some_2.
  by rewrite (Forall_lookup_1 _ _ _ _ Hrows Hr).
Qed.

Lemma Image_get_getslice a rs cs i j :
  Image.get (Image.getslice a rs cs) i j =
    if decide (i < Slice.len (Image.shape0 a) rs ∧ j < Slice.len (Image.shape1 a) cs)%nat
    then Image.get a (Slice.lo (Image.shape0 a) rs + i) (Slice.lo (Image.shape1 a) cs + j)
    else None.
Proof.
  unfold Image.get, Image.getslice. simpl.
  rewrite list_lookup_fmap, lookup_take, lookup_drop.
  destruct (decide (i < Slice.len (Image.shape0 a) rs)%nat) as [Hi|Hi].
  - destruct (Image.rows a !! (Slice.lo (Image.shape0 a) rs + i)%nat) as [r|];
      simpl; [|by case_decide].
    rewrite lookup_take, lookup_drop. repeat case_decide; (done || lia).
  - simpl. case_decide; [lia | done].
Qed.

Lemma Image_wf_getslice a rs cs : Image.wf a → Image.wf (Image.getslice a rs cs).
Proof.
  intros [Hlen Hrows]. split; simpl.
  - rewrite length_fmap, length_take, length_drop, Hlen.
    pose proof (Slice_len_le (Image.shape0 a) rs). lia.
  - apply Forall_fmap, Forall_take, Forall_drop.
    eapply Forall_impl; [exact Hrows|]. intros r Hr. simpl.
    rewrite length_take, length_drop, Hr.
    pose proof (Slice_len_le (Image.shape1 a) cs). lia.
Qed.

Lemma Image_get_setslice_scalar a rs cs v i j :
  Image.get (Image.setslice_scalar a rs cs v) i j =
    if Slice.mem (Image.shape0 a) rs i && Slice.mem (Image.shape1 a) cs j
    then (λ _, v) <$> Image.get a i j
    else Image.get a i j.
Proof.
  unfold Image.get, Image.setslice_scalar. simpl.
  rewrite list_lookup_imap.
  destruct (Image.rows a !! i) as [r|]; simpl; [|by case_match].
  destruct (Slice.mem (Image.shape0 a) rs i); simpl; [|done].
  rewrite list_lookup_imap. by destruct (Slice.mem (Image.shape1 a) cs j), (r !! j).
Qed.

Lemma Image_wf_setslice_scalar a rs cs v :
  Image.wf a → Image.wf (Image.setslice_scalar a rs cs v).
Proof.
  intros [Hlen Hrows]. split; simpl.
  - by rewrite length_imap.
  - apply Forall_lookup_2. intros i r. rewrite list_lookup_imap.
    destruct (Image.rows a !! i) as [r'|] eqn:Hr; simpl; [|done].
    intros [= <-]. pose proof (Forall_lookup_1 _ _ _ _ Hrows Hr) as Hl.
    case_match; [by rewrite length_imap | done].
Qed.

Lemma lookup_bind_replicate {B : Type} (l : list B) (n k : nat) :
  (0 < n)%nat → (l ≫= replicate n) !! k = l !! (k / n)%nat.
Proof.
  intros Hn. revert k. induction l as [|x l IH]; intros k.
  - done.
  - rewrite bind_cons. destruct (decide (k < n)%nat) as [Hk|Hk].
    + rewrite lookup_app_l by (by rewrite length_replicate).
      rewrite lookup_replicate_2 by done.
      by rewrite Nat.div_small.
    + rewrite lookup_app_r by (rewrite length_replicate; lia).
      rewrite length_replicate, IH.
      replace k with (1 * n + (k - n))%nat at 2 by lia.
      rewrite Nat.div_add_l by lia. done.
Qed.
End ImageFacts.

(** ** [crop] *)

(** The shape of an in-bounds crop, of any size. *)
Lemma crop_shape {A : Type} (img : Image.t A) (x_c y_c w h : Z) :
  0 ≤ w → 0 ≤ h → crop_in_bounds img x_c y_c w h →
  Z.of_nat (Image.shape0 (crop img x_c y_c w h)) = 2 * (h / 2)
  ∧ Z.of_nat (Image.shape1 (crop img x_c y_c w h)) = 2 * (w / 2).
Proof.
  intros Hw Hh (Hy0 & Hy1 & Hx0 & Hx1). unfold crop. simpl.
  assert (0 ≤ h / 2) by (apply Z.div_pos; lia).
  assert (0 ≤ w / 2) by (apply Z.div_pos; lia).
  destruct (Slice_range_inside (Image.shape0 img) (y_c - h / 2) (y_c + h / 2))
    as (_ & _ & ->); [lia..|].
  destruct (Slice_range_inside (Image.shape1 img) (x_c - w / 2) (x_c + w / 2))
    as (_ & _ & ->); [lia..|].
  lia.
Qed.

(** C6 (amended).  For a well-formed image and an in-bounds request of
    even width and height, [crop] returns an array of exactly [h] rows of
    [w] cells, whose cell [(i, j)] is the cell
    [(y_c - h/2 + i, x_c - w/2 + j)] of the image.  (In general the
    result has [2 * (h / 2)] rows and [2 * (w / 2)] columns,
    [crop_shape].) *)
Theorem crop_even_size {A : Type} (img : Image.t A) (x_c y_c w h : Z) :
  Image.wf img →
  0 ≤ w → 0 ≤ h → Z.even w = true → Z.even h = true →
  crop_in_bounds img x_c y_c w h →
  let r := crop img x_c y_c w h in
  Image.wf r
  ∧ length (Image.rows r) = Z.to_nat h
  ∧ Forall (λ row, length row = Z.to_nat w) (Image.rows r)
  ∧ Image.shape0 r = Z.to_nat h ∧ Image.shape1 r = Z.to_nat w
  ∧ ∀ i j : nat, Z.of_nat i < h → Z.of_nat j < w →
      Image.get r i j =
        Image.get img (Z.to_nat (y_c - h / 2) + i) (Z.to_nat (x_c - w / 2) + j).
Proof.
  intros Hwf Hw Hh Hwe Hhe Hin r.
  destruct (crop_shape img x_c y_c w h Hw Hh Hin) as [Hs0 Hs1].
  fold r in Hs0, Hs1.
  apply Zeven_bool_iff, Zeven_div2 in Hwe.
  apply Zeven_bool_iff, Zeven_div2 in Hhe.
  rewrite Z.div2_div in Hwe, Hhe.
  assert (Hr : Image.wf r) by (apply Image_wf_getslice, Hwf).
  assert (H0 : Image.shape0 r = Z.to_nat h) by lia.
  assert (H1 : Image.shape1 r = Z.to_nat w) by lia.
  split; [done|]. destruct Hr as [Hlen Hrows].
  split; [by rewrite Hlen|]. split; [by rewrite <- H1|]. split; [done|]. split; [done|].
  intros i j Hi Hj. unfold r, crop. rewrite Image_get_getslice.
  destruct Hin as (Hy0 & Hy1 & Hx0 & Hx1).
  destruct (Slice_range_inside (Image.shape0 img) (y_c - h / 2) (y_c + h / 2))
    as (-> & _ & ->); [lia..|].
  destruct (Slice_range_inside (Image.shape1 img) (x_c - w / 2) (x_c + w / 2))
    as (-> & _ & ->); [lia..|].
  case_decide; [done | lia].
Qed.

(** The scenario of the specification: a 100 x 100 crop at (50, 50) of a
    200 x 200 image. *)
Lemma crop_even_size_witness :
  let img := Image.Make 200 200 (replicate 200 (replicate 200 0%Q)) in
  Image.shape0 (crop img 50 50 100 100) = 100%nat
  ∧ Image.shape1 (crop img 50 50 100 100) = 100%nat.
Proof.
  intros img.
  assert (Hwf : Image.wf img).
  { split; [apply length_replicate|]. apply Forall_replicate, length_replicate. }
  assert (Hin : crop_in_bounds img 50 50 100 100) by (vm_compute; intuition discriminate).
  destruct (crop_even_size img 50 50 100 100 Hwf ltac:(lia) ltac:(lia) eq_refl eq_refl Hin)
    as (_ & _ & _ & H0 & H1 & _).
  split; assumption.
Defined.

(** C6 as stated fails for odd sizes: a 3 x 3 request in the middle of a
    7 x 7 image returns a 2 x 2 array. *)
Lemma crop_odd_size_counterexample :
  let img := Image.Make 7 7 (replicate 7 [0; 1; 2; 3; 4; 5; 6]) in
  Image.wf img
  ∧ crop_in_bounds img 3 3 3 3
  ∧ crop img 3 3 3 3 = Image.Make 2 2 [[2; 3]; [2; 3]]
  ∧ Image.shape0 (crop img 3 3 3 3) ≠ 3%nat
  ∧ Image.shape1 (crop img 3 3 3 3) ≠ 3%nat.
Proof.
  intros img. split; [split; [reflexivity | repeat constructor]|].
  split; [vm_compute; intuition discriminate|].
  split; [reflexivity|]. split; vm_compute; discriminate.
Qed.

(** ** [crop_img] *)

Ltac solve_keys := unfold x_keys, y_keys in *; set_unfold; naive_solver.

Lemma coord_shift_numeric left top k v :
  (k ∈ x_keys ++ y_keys → is_Some (Value.number v)) →
  ∃ v', coord_shift left top k v = Ok v'.
Proof.
  intros Hnum. unfold coord_shift, Value.sub.
  repeat case_bool_decide; try by eexists.
  - destruct Hnum as [q ->]; [solve_keys|]. by eexists.
  - destruct Hnum as [q ->]; [solve_keys|]. by eexists.
Qed.

Lemma coord_shift_other left top k v :
  k ∉ x_keys ++ y_keys → coord_shift left top k v = Ok v.
Proof.
  intros Hk. unfold coord_shift.
  rewrite !bool_decide_eq_false_2 by solve_keys. done.
Qed.

Lemma crop_img_step_shift left top k v h v' :
  coord_shift left top k v = Ok v' →
  crop_img_step left top k v (Ok h) =
    Ok (if bool_decide (k ∈ x_keys ++ y_keys) then <[k := v']> h else h).
Proof.
  unfold coord_shift, crop_img_step. fold x_keys y_keys. simpl.
  intros Hs.
  destruct (bool_decide (k ∈ x_keys)) eqn:Hx.
  - apply bool_decide_eq_true in Hx.
    rewrite Hs. simpl.
    rewrite (bool_decide_eq_false_2 (k ∈ y_keys)) by solve_keys.
    rewrite bool_decide_eq_true_2 by solve_keys. done.
  - apply bool_decide_eq_false in Hx. simpl.
    destruct (bool_decide (k ∈ y_keys)) eqn:Hy.
    + apply bool_decide_eq_true in Hy. rewrite Hs. simpl.
      rewrite bool_decide_eq_true_2 by solve_keys. done.
    + apply bool_decide_eq_false in Hy.
      rewrite bool_decide_eq_false_2 by solve_keys. done.
Qed.

(** The loop of [crop_img] over a header whose coordinate cards hold
    numbers: every card is replaced by its shifted card. *)
Lemma crop_img_loop left top (h0 : Header) :
  numeric_coords h0 →
  ∃ h, map_fold (crop_img_step left top) (Ok h0) h0 = Ok h
       ∧ ∀ k, h !! k = v ← h0 !! k;
                       match coord_shift left top k v with
                       | Ok v' => Some v'
                       | Raise _ => None
                       end.
Proof.
  intros Hnum.
  cut (∀ m : Header,
         (∀ k v, k ∈ x_keys ++ y_keys → m !! k = Some v → is_Some (Value.number v)) →
         ∃ h, map_fold (crop_img_step left top) (Ok h0) m = Ok h
              ∧ ∀ k, h !! k =
                       if bool_decide (k ∈ x_keys ++ y_keys) then
                         match m !! k with
                         | Some v =>
                             match coord_shift left top k v with
                             | Ok v' => Some v'
                             | Raise _ => None
                             end
                         | None => h0 !! k
                         end
                       else h0 !! k).
  { intros Hcut. destruct (Hcut h0 Hnum) as (h & Hh & Hk).
    exists h. split; [done|]. intros k. rewrite Hk.
    case_bool_decide as Hc; destruct (h0 !! k) as [v|]; simpl; try done.
    by rewrite coord_shift_other. }
  intros m.
  apply (map_fold_weak_ind
           (λ r (m : Header),
              (∀ k v, k ∈ x_keys ++ y_keys → m !! k = Some v → is_Some (Value.number v)) →
              ∃ h, r = Ok h
                   ∧ ∀ k, h !! k =
                            if bool_decide (k ∈ x_keys ++ y_keys) then
                              match m !! k with
                              | Some v =>
                                  match coord_shift left top k v with
                                  | Ok v' => Some v'
                                  | Raise _ => None
                                  end
                              | None => h0 !! k
                              end
                            else h0 !! k)).
  - intros _. exists h0. split; [done|]. intros k. rewrite lookup_empty. by case_bool_decide.
  - clear m. intros i x m r Hi IH Hm.
    destruct IH as (h & -> & Hh).
    { intros k v Hk Hv. apply (Hm k v Hk).
      rewrite lookup_insert_ne; [done|]. intros ->. congruence. }
    destruct (coord_shift_numeric left top i x) as [v' Hv'].
    { intros Hk. apply (Hm i x Hk). by rewrite lookup_insert_eq. }
    rewrite (crop_img_step_shift _ _ _ _ _ _ Hv').
    eexists. split; [done|]. intros k.
    destruct (decide (k = i)) as [->|Hne].
    + rewrite lookup_insert_eq, Hv'.
      case_bool_decide as Hc.
      * by rewrite lookup_insert_eq.
      * rewrite Hh. by rewrite bool_decide_eq_false_2.
    + rewrite (lookup_insert_ne m) by done.
      rewrite <- Hh. case_bool_decide; [by rewrite lookup_insert_ne | done].
Qed.

(** The header [crop_img] returns, card by card. *)
Lemma crop_img_header {A : Type} (img : Image.t A) (left right top bottom : Z)
    (header : Header) :
  numeric_coords header →
  ∃ new_header,
    crop_img img left right top bottom (Some header) =
      Ok (Image.getslice img (Slice.range top (bottom + 1)) (Slice.range left (right + 1)),
          Some new_header)
    ∧ new_header !! "NAXIS1"%string = Some (Value.of_nat (Image.shape1 img))
    ∧ new_header !! "NAXIS2"%string = Some (Value.of_nat (Image.shape0 img))
    ∧ ∀ k, k ≠ "NAXIS1"%string → k ≠ "NAXIS2"%string →
           new_header !! k = v ← header !! k;
                             match coord_shift left top k v with
                             | Ok v' => Some v'
                             | Raise _ => None
                             end.
Proof.
  intros Hnum. unfold crop_img.
  set (h0 := <["NAXIS2"%string := _]> (<["NAXIS1"%string := _]> header)).
  destruct (crop_img_loop left top h0) as (h & Hfold & Hh).
  { intros k v Hk. unfold h0.
    rewrite !lookup_insert_ne by (intros <-; solve_keys). by apply Hnum. }
  rewrite Hfold. simpl. exists h. split; [done|].
  split; [|split].
  - rewrite Hh. unfold h0. rewrite lookup_insert_ne by done.
    by rewrite lookup_insert_eq.
  - rewrite Hh. unfold h0. by rewrite lookup_insert_eq.
  - intros k H1 H2. rewrite Hh. unfold h0. by rewrite !lookup_insert_ne.
Qed.


Lemma zeros_wf n0 n1 : Image.wf (zeros n0 n1).
Proof.
  split; [apply length_replicate|]. apply Forall_replicate, length_replicate.
Qed.

Lemma coord_keys_spec k :
  k ∈ x_keys ++ y_keys ↔
    k = "MOON-X"%string ∨ k = "SUN-X"%string ∨ k = "MOON-Y"%string ∨ k = "SUN-Y"%string.
Proof. solve_keys. Qed.

Lemma numeric_coords_features : numeric_coords features_header.
Proof.
  intros k v Hk. apply coord_keys_spec in Hk.
  destruct Hk as [-> | [-> | [-> | ->]]]; vm_compute; intros [= <-]; by eexists.
Qed.

Lemma numeric_coords_empty : numeric_coords ∅.
Proof. intros k v _ Hv. by rewrite lookup_empty in Hv. Qed.

Lemma numeric_coords_frame : numeric_coords frame_header.
Proof.
  intros k v Hk. apply coord_keys_spec in Hk.
  destruct Hk as [-> | [-> | [-> | ->]]]; vm_compute; intros [= <-]; by eexists.
Qed.

(** C1 (what the code does).  [crop_img] writes the shape of the source
    array, not of the cropped one, into [NAXIS1] and [NAXIS2]: for a
    rectangle inside the image the cropped array has [right - left + 1]
    columns and [bottom - top + 1] rows, and the returned header carries
    the width and height of [img]. *)
Theorem crop_img_naxis_source_shape {A : Type} (img : Image.t A)
    (left right top bottom : Z) (header : Header) :
  numeric_coords header →
  0 ≤ left → left < right → right < Z.of_nat (Image.shape1 img) →
  0 ≤ top → top < bottom → bottom < Z.of_nat (Image.shape0 img) →
  ∃ new_img new_header,
    crop_img img left right top bottom (Some header) = Ok (new_img, Some new_header)
    ∧ Z.of_nat (Image.shape1 new_img) = right - left + 1
    ∧ Z.of_nat (Image.shape0 new_img) = bottom - top + 1
    ∧ new_header !! "NAXIS1"%string = Some (Value.of_nat (Image.shape1 img))
    ∧ new_header !! "NAXIS2"%string = Some (Value.of_nat (Image.shape0 img)).
Proof.
  intros Hnum Hl Hlr Hr Ht Htb Hb.
  destruct (crop_img_header img left right top bottom header Hnum)
    as (new_header & Hcrop & H1 & H2 & _).
  eexists _, new_header. split; [exact Hcrop|]. simpl.
  destruct (Slice_range_inside (Image.shape0 img) top (bottom + 1))
    as (_ & _ & ->); [lia..|].
  destruct (Slice_range_inside (Image.shape1 img) left (right + 1))
    as (_ & _ & ->); [lia..|].
  repeat split; (done || lia).
Qed.

(** The failing input of C1: the 100 x 100 crop of a 200 x 200 image is
    returned with [NAXIS1 = NAXIS2 = 200]. *)
Lemma crop_img_naxis_source_shape_witness :
  ∃ new_img new_header,
    crop_img (zeros 200 200) 50 149 50 149 (Some ∅) = Ok (new_img, Some new_header)
    ∧ Z.of_nat (Image.shape1 new_img) = 100
    ∧ Z.of_nat (Image.shape0 new_img) = 100
    ∧ new_header !! "NAXIS1"%string = Some (VNum 200)
    ∧ new_header !! "NAXIS2"%string = Some (VNum 200).
Proof.
  apply (crop_img_naxis_source_shape (zeros 200 200) 50 149 50 149 ∅
           numeric_coords_empty);
    by vm_compute.
Defined.

(** C2 (amended).  For a header whose coordinate cards hold numbers,
    [crop_img] returns a header in which the value of every card
    [MOON-X], [SUN-X] has [left] subtracted, the value of every card
    [MOON-Y], [SUN-Y] has [top] subtracted, a coordinate card that is
    missing stays missing, and every card other than these and [NAXIS1],
    [NAXIS2] is unchanged. *)
Theorem crop_img_translates_coordinates {A : Type} (img : Image.t A)
    (left right top bottom : Z) (header : Header) :
  numeric_coords header →
  ∃ new_img new_header,
    crop_img img left right top bottom (Some header) = Ok (new_img, Some new_header)
    ∧ (∀ k v q, k ∈ x_keys → header !! k = Some v → Value.number v = Some q →
                new_header !! k = Some (VNum (q - inject_Z left)))
    ∧ (∀ k v q, k ∈ y_keys → header !! k = Some v → Value.number v = Some q →
                new_header !! k = Some (VNum (q - inject_Z top)))
    ∧ (∀ k, k ∈ x_keys ++ y_keys → header !! k = None → new_header !! k = None)
    ∧ (∀ k, k ∉ x_keys ++ y_keys → k ≠ "NAXIS1"%string → k ≠ "NAXIS2"%string →
            new_header !! k = header !! k).
Proof.
  intros Hnum.
  destruct (crop_img_header img left right top bottom header Hnum)
    as (new_header & Hcrop & _ & _ & Hk).
  eexists _, new_header. split; [exact Hcrop|].
  split; [|split; [|split]].
  - intros k v q Hx Hv Hq. rewrite Hk by (intros ->; solve_keys).
    rewrite Hv. simpl. unfold coord_shift, Value.sub.
    rewrite bool_decide_eq_true_2 by done. by rewrite Hq.
  - intros k v q Hy Hv Hq. rewrite Hk by (intros ->; solve_keys).
    rewrite Hv. simpl. unfold coord_shift, Value.sub.
    rewrite bool_decide_eq_false_2 by solve_keys.
    rewrite bool_decide_eq_true_2 by done. by rewrite Hq.
  - intros k Hc Hv. rewrite Hk by (intros ->; solve_keys). by rewrite Hv.
  - intros k Hc H1 H2. rewrite Hk by done.
    destruct (header !! k) as [v|]; simpl; [|done].
    by rewrite coord_shift_other.
Qed.

(** The scenario of the specification: features at (120, 80), cropped
    with [left = 20] and [top = 10], are at (100, 70). *)
Lemma crop_img_translates_coordinates_witness :
  ∃ new_img new_header,
    crop_img (zeros 200 200) 20 119 10 109 (Some features_header)
      = Ok (new_img, Some new_header)
    ∧ new_header !! "MOON-X"%string = Some (VNum 100)
    ∧ new_header !! "MOON-Y"%string = Some (VNum 70)
    ∧ new_header !! "SUN-X"%string = Some (VNum 100)
    ∧ new_header !! "SUN-Y"%string = Some (VNum 70)
    ∧ new_header !! "EXPTIME"%string = Some (VNum 10).
Proof.
  destruct (crop_img_translates_coordinates (zeros 200 200) 20 119 10 109
              features_header numeric_coords_features)
    as (new_img & new_header & Hcrop & Hx & Hy & _ & Ho).
  exists new_img, new_header. split; [exact Hcrop|].
  split; [exact (Hx "MOON-X"%string (VNum 120) 120%Q ltac:(repeat constructor) eq_refl eq_refl)|].
  split; [exact (Hy "MOON-Y"%string (VNum 80) 80%Q ltac:(repeat constructor) eq_refl eq_refl)|].
  split; [exact (Hx "SUN-X"%string (VNum 120) 120%Q ltac:(repeat constructor) eq_refl eq_refl)|].
  split; [exact (Hy "SUN-Y"%string (VNum 80) 80%Q ltac:(repeat constructor) eq_refl eq_refl)|].
  rewrite Ho; [reflexivity | | discriminate | discriminate].
  rewrite coord_keys_spec. intros [H | [H | [H | H]]]; discriminate H.
Defined.

(** C2 as stated fails on the cards [NAXIS1] and [NAXIS2], which are not
    coordinate cards and are rewritten: the header of a 200 x 200 frame,
    passed with a 100 x 100 array, comes back with [NAXIS1 = 100]. *)
Lemma crop_img_other_keys_counterexample :
  ∃ new_img new_header,
    crop_img (zeros 100 100) 20 69 10 59 (Some frame_header)
      = Ok (new_img, Some new_header)
    ∧ "NAXIS1"%string ∉ x_keys ++ y_keys
    ∧ frame_header !! "NAXIS1"%string = Some (VNum 200)
    ∧ new_header !! "NAXIS1"%string = Some (VNum 100)
    ∧ new_header !! "NAXIS1"%string ≠ frame_header !! "NAXIS1"%string.
Proof.
  destruct (crop_img_header (zeros 100 100) 20 69 10 59 frame_header
              numeric_coords_frame)
    as (new_header & Hcrop & H1 & _).
  eexists _, new_header. split; [exact Hcrop|].
  split.
  { rewrite coord_keys_spec. intros [H | [H | [H | H]]]; discriminate H. }
  split; [reflexivity|]. split; [exact H1|].
  rewrite H1. vm_compute. discriminate.
Qed.

(** ** [mtf] and [ht] *)





Lemma mtf_den_neg (x m : Q) :
  (0 < m)%Q → (m < 1)%Q → (0 <= x)%Q → (x <= 1)%Q → (mtf_den x m < 0)%Q.
Proof. unfold mtf_den. intros. nra. Qed.



(** With balance 0.5 the formula of [mtf] is the identity in exact
    arithmetic, on the unit interval and everywhere else. *)
Lemma mtf_half_exact (x : Q) : (mtf x 0.5 == x)%Q.
Proof. unfold mtf. field. Qed.

(** A double of [[2^-1021, 1)] is a normal number: a mantissa of 53 bits
    and an exponent between -1073 and -52. *)
Lemma Prim2SF_normal_below_one (x : float) :
  (0x1p-1021 <=? x)%float = true → (x <? 1)%float = true →
  ∃ m e, Prim2SF x = S754_finite false m e
         ∧ digits2_pos m = 53%positive ∧ -1073 ≤ e ≤ -52.
Proof.
  rewrite leb_spec, ltb_spec. pose proof (Prim2SF_valid x) as Hv.
  change (Prim2SF 0x1p-1021) with (S754_finite false 4503599627370496 (-1073)).
  change (Prim2SF 1) with (S754_finite false 4503599627370496 (-52)).
  destruct (Prim2SF x) as [s|s| |s m e]; try (by destruct s); try done.
  destruct s; [done|]. unfold SFleb, SFltb, SFcompare. intros Hlo Hhi.
  assert (He : -1073 ≤ e ≤ -52).
  { split.
    - destruct (Z.compare_spec (-1073) e); (lia || done).
    - destruct (Z.compare_spec e (-52)); (lia || done). }
  exists m, e. split; [done|]. split; [|done].
  unfold valid_binary, SpecFloat.valid_binary, bounded, canonical_mantissa, fexp,
    SpecFloat.emin, prec, emax in Hv.
  apply andb_true_iff in Hv. destruct Hv as [Hc _]. apply Z.eqb_eq in Hc.
  assert (Z.pos (digits2_pos m) = 53) by lia. congruence.
Qed.

(** The product of such a number with -0.5 is exact: the exponent goes
    down by one. *)
Lemma SF64mul_minus_half (m : positive) (e : Z) :
  digits2_pos m = 53%positive → -1073 ≤ e ≤ 971 →
  SF64mul (S754_finite true 4503599627370496 (-53)) (S754_finite false m e)
  = S754_finite true m (e - 1).
Proof.
  intros Hd He. unfold SF64mul, SFmul. cbn [xorb]. cbv [Pos.mul].
  unfold binary_round_aux, shr_fexp.
  match goal with
  | |- context [Zdigits2 (Z.pos ?p)] =>
      assert (Hdig : Zdigits2 (Z.pos p) = 105)
        by (unfold Zdigits2; cbn [digits2_pos]; rewrite Hd; reflexivity)
  end.
  rewrite Hdig.
  replace (fexp prec emax (105 + (-53 + e)) - (-53 + e)) with 52
    by (unfold fexp, SpecFloat.emin, prec, emax; lia).
  cbn [shr shr_record_of_loc SpecFloat.iter_pos shr_1 orb shr_m loc_of_shr_record
         round_nearest_even].
  unfold Zdigits2. rewrite Hd.
  replace (fexp prec emax (53 + (-53 + e + 52)) - (-53 + e + 52)) with 0
    by (unfold fexp, SpecFloat.emin, prec, emax; lia).
  cbn [shr shr_record_of_loc shr_m].
  replace (-53 + e + 52 <=? emax - prec) with true
    by (symmetry; apply Z.leb_le; unfold emax, prec; lia).
  f_equal. lia.
Qed.

(** Dividing by a half doubles: exact for a normal double below 1. *)
(** The quotient of such a negative number by -0.5 is exact: the exponent
    goes up by one. *)
Lemma SF64div_minus_half (m : positive) (e : Z) :
  digits2_pos m = 53%positive → -1074 ≤ e ≤ 970 →
  SF64div (S754_finite true m e) (S754_finite true 4503599627370496 (-53))
  = S754_finite false m (e + 1).
Proof.
  intros Hd He. unfold SF64div, SFdiv, SFdiv_core_binary.
  cbn [xorb]. change (Zdigits2 4503599627370496) with 53.
  unfold Zdigits2. rewrite Hd.
  replace (Z.min (fexp prec emax (53 + e - (53 + -53))) (e - -53)) with e
    by (unfold fexp, SpecFloat.emin, prec, emax; lia).
  replace (e - -53 - e) with 53 by lia.
  assert (Hq : Z.div_eucl (Z.shiftl (Z.pos m) 53) 4503599627370496
               = (Z.pos m~0, 0)).
  { rewrite Z.shiftl_mul_pow2 by lia.
    pose proof (Z.div_eucl_eq (Z.pos m * 2 ^ 53) 4503599627370496 ltac:(lia)) as Heq.
    pose proof (Z.mod_pos_bound (Z.pos m * 2 ^ 53) 4503599627370496 ltac:(lia)) as Hb.
    unfold Z.modulo in Hb.
    destruct (Z.div_eucl (Z.pos m * 2 ^ 53) 4503599627370496) as [q r].
    change (2 ^ 53) with (2 * 4503599627370496) in Heq.
    assert (r = 0) by lia. subst r. f_equal. lia. }
  rewrite Hq. cbn [new_location new_location_even Z.even Z.eqb].
  unfold binary_round_aux, shr_fexp.
  assert (Hdig : Zdigits2 (Z.pos m~0) = 54)
    by (unfold Zdigits2; cbn [digits2_pos]; rewrite Hd; reflexivity).
  rewrite Hdig.
  replace (fexp prec emax (54 + e) - e) with 1
    by (unfold fexp, SpecFloat.emin, prec, emax; lia).
  cbn [shr shr_record_of_loc SpecFloat.iter_pos shr_1 orb shr_m loc_of_shr_record
         round_nearest_even].
  unfold Zdigits2. rewrite Hd.
  replace (fexp prec emax (53 + (e + 1)) - (e + 1)) with 0
    by (unfold fexp, SpecFloat.emin, prec, emax; lia).
  cbn [shr shr_record_of_loc shr_m].
  replace (e + 1 <=? emax - prec) with true
    by (symmetry; apply Z.leb_le; unfold emax, prec; lia).
  done.
Qed.

(** C8 (amended).  On doubles, [mtf] with midtone balance [m = 0.5] is
    the identity from [2^-1021] up to 1: [(m - 1) * x] is [-x / 2],
    [(2 * m - 1) * x - m] is [-0.5], and both the halving and the
    division are exact for a normal number that is not among the
    smallest. *)
Theorem mtf_float_half_identity (x : float) :
  (0x1p-1021 <=? x)%float = true → (x <? 1)%float = true →
  mtf_float x 0.5 = x.
Proof.
  intros Hlo Hhi.
  destruct (Prim2SF_normal_below_one x Hlo Hhi) as (m & e & Hx & Hd & He).
  apply Prim2SF_inj. unfold mtf_float.
  change (0.5 - 1)%float with (-0.5)%float.
  change (2 * 0.5 - 1)%float with 0%float.
  rewrite div_spec, sub_spec, !mul_spec, Hx.
  change (Prim2SF (-0.5)) with (S754_finite true 4503599627370496 (-53)).
  change (Prim2SF 0.5) with (S754_finite false 4503599627370496 (-53)).
  change (Prim2SF 0) with (S754_zero false).
  rewrite SF64mul_minus_half by (done || lia).
  change (SF64sub (SF64mul (S754_zero false) (S754_finite false m e))
            (S754_finite false 4503599627370496 (-53)))
    with (S754_finite true 4503599627370496 (-53)).
  rewrite SF64div_minus_half by (done || lia).
  f_equal. lia.
Qed.

Lemma mtf_float_half_identity_witness : mtf_float 0.25 0.5 = 0.25%float.
Proof. apply mtf_float_half_identity; reflexivity. Defined.

(** C8 as stated fails on the smallest positive double, which lies in the
    open unit interval: half of it rounds to zero, and [mtf] with
    balance 0.5 returns 0. *)
Lemma mtf_float_half_counterexample :
  let x := 0x1p-1074%float in
  (0 <? x)%float = true ∧ (x <? 1)%float = true
  ∧ mtf_float x 0.5 = 0%float
  ∧ mtf_float x 0.5 ≠ x.
Proof.
  intros x. split; [reflexivity|]. split; [reflexivity|]. split; [reflexivity|].
  intros H. apply (f_equal (λ y, PrimFloat.eqb y 0)) in H. discriminate H.
Qed.




(** ** [combine_red_green] *)

Section CubeFacts.
Context {A : Type}.
Implicit Types (a : Cube.t A) (b : Image.t A).

Lemma Cube_cell_set_channel a c b a' i j :
  Cube.set_channel a c b = Ok a' →
  Cube.cell a' i j =
    (λ r : list A,
       match Image.get b (Image.bindex (Image.shape0 b) i)
                         (Image.bindex (Image.shape1 b) j) with
       | Some v => <[c := v]> r
       | None => r
       end) <$> Cube.cell a i j.
Proof.
  unfold Cube.set_channel.
  destruct (negb _); [done|]. destruct (_ && _); [|done].
  intros [= <-]. unfold Cube.cell. simpl.
  rewrite list_lookup_imap.
  destruct (Cube.planes a !! i) as [p|]; simpl; [|done].
  by rewrite list_lookup_imap.
Qed.

Lemma Cube_cell_full (z : A) n0 n1 n2 i j :
  (i < n0)%nat → (j < n1)%nat →
  Cube.cell (Cube.full z n0 n1 n2) i j = Some (replicate n2 z).
Proof.
  intros Hi Hj. unfold Cube.cell, Cube.full. simpl.
  rewrite lookup_replicate_2 by done. simpl. by rewrite lookup_replicate_2.
Qed.

Lemma Cube_shape_set_channel a c b a' :
  Cube.set_channel a c b = Ok a' →
  Cube.shape0 a' = Cube.shape0 a ∧ Cube.shape1 a' = Cube.shape1 a
  ∧ Cube.shape2 a' = Cube.shape2 a.
Proof.
  unfold Cube.set_channel.
  destruct (negb _); [done|]. destruct (_ && _); [|done]. by intros [= <-].
Qed.

Lemma Cube_wf_set_channel a c b a' :
  Cube.set_channel a c b = Ok a' → Cube.wf a → Cube.wf a'.
Proof.
  unfold Cube.set_channel.
  destruct (negb _); [done|]. destruct (_ && _); [|done].
  intros [= <-] [Hlen Hp]. split; simpl; [by rewrite length_imap|].
  apply Forall_lookup_2. intros i p. rewrite list_lookup_imap.
  destruct (Cube.planes a !! i) as [p'|] eqn:Hi; simpl; [|done].
  intros [= <-]. destruct (Forall_lookup_1 _ _ _ _ Hp Hi) as [Hl Hr].
  split; [by rewrite length_imap|].
  apply Forall_lookup_2. intros j r. rewrite list_lookup_imap.
  destruct (p' !! j) as [r'|] eqn:Hj; simpl; [|done].
  intros [= <-]. pose proof (Forall_lookup_1 _ _ _ _ Hr Hj) as Hr'.
  case_match; [by rewrite length_insert | done].
Qed.

Lemma Cube_wf_full (z : A) n0 n1 n2 : Cube.wf (Cube.full z n0 n1 n2).
Proof.
  split; simpl; [apply length_replicate|].
  apply Forall_replicate. split; [apply length_replicate|].
  apply Forall_replicate, length_replicate.
Qed.
End CubeFacts.

Lemma bindex_lt n k : (k < n)%nat → Image.bindex n k = k.
Proof. unfold Image.bindex. intros. case_match; [|done]. apply Nat.eqb_eq in H0. lia. Qed.

Lemma broadcastable_refl n : Image.broadcastable n n = true.
Proof. unfold Image.broadcastable. by rewrite Nat.eqb_refl. Qed.

(** C7 (amended).  When the shape of [img2] cannot be broadcast to the
    shape of [img1], [combine_red_green] raises; when the two shapes are
    equal it returns an array of shape [(H, W, 3)] with [img1] in channel
    0, [img2] in channel 1 and zeros in channel 2. *)
Theorem combine_red_green_planes (img1 img2 : Image.t Q) :
  Image.wf img1 → Image.wf img2 →
  (broadcast_compatible img2 img1 = false →
   combine_red_green img1 img2 = Raise ValueError)
  ∧ (Image.shape0 img2 = Image.shape0 img1 →
     Image.shape1 img2 = Image.shape1 img1 →
     ∃ img, combine_red_green img1 img2 = Ok img
            ∧ Cube.wf img
            ∧ Cube.shape0 img = Image.shape0 img1
            ∧ Cube.shape1 img = Image.shape1 img1
            ∧ Cube.shape2 img = 3%nat
            ∧ ∀ i j, (i < Image.shape0 img1)%nat → (j < Image.shape1 img1)%nat →
                Cube.get img i j 0 = Image.get img1 i j
                ∧ Cube.get img i j 1 = Image.get img2 i j
                ∧ Cube.get img i j 2 = Some 0%Q).
Proof.
  intros Hwf1 Hwf2. unfold combine_red_green.
  set (z := Cube.full 0%Q (Image.shape0 img1) (Image.shape1 img1) 3).
  destruct (Cube.set_channel z 0 img1) as [r|e] eqn:Hr.
  2: { exfalso. revert Hr. unfold Cube.set_channel. simpl.
       by rewrite !broadcastable_refl. }
  destruct (Cube_shape_set_channel _ _ _ _ Hr) as (Hr0 & Hr1 & Hr2).
  simpl in Hr0, Hr1, Hr2. simpl. split.
  - intros Hbc. unfold Cube.set_channel. rewrite Hr0, Hr1, Hr2. simpl.
    unfold broadcast_compatible in Hbc. by rewrite Hbc.
  - intros H0 H1.
    destruct (Cube.set_channel r 1 img2) as [g|e] eqn:Hg.
    2: { exfalso. revert Hg. unfold Cube.set_channel.
         rewrite Hr0, Hr1, Hr2, H0, H1. simpl. by rewrite !broadcastable_refl. }
    destruct (Cube_shape_set_channel _ _ _ _ Hg) as (Hg0 & Hg1 & Hg2).
    exists g. split; [done|]. split.
    { eapply Cube_wf_set_channel; [exact Hg|].
      eapply Cube_wf_set_channel; [exact Hr|]. apply Cube_wf_full. }
    split; [congruence|]. split; [congruence|]. split; [congruence|].
    intros i j Hi Hj.
    destruct (Image_get_is_Some img1 i j Hwf1 Hi Hj) as [v1 Hv1].
    destruct (Image_get_is_Some img2 i j Hwf2) as [v2 Hv2]; [lia..|].
    assert (Hcell : Cube.cell g i j =
              Some (<[1%nat := v2]> (<[0%nat := v1]> (replicate 3 0%Q)))).
    { rewrite (Cube_cell_set_channel _ _ _ _ _ _ Hg).
      rewrite (Cube_cell_set_channel _ _ _ _ _ _ Hr).
      unfold z. rewrite Cube_cell_full by done. simpl.
      rewrite !bindex_lt by lia. by rewrite Hv1, Hv2. }
    unfold Cube.get. rewrite Hcell, Hv1, Hv2. done.
Qed.

Lemma combine_red_green_planes_witness :
  combine_red_green (Image.Make 2 2 [[1; 2]; [3; 4]]%Q)
                    (Image.Make 3 3 [[5; 6; 7]; [5; 6; 7]; [5; 6; 7]]%Q)
    = Raise ValueError
  ∧ ∃ img, combine_red_green (Image.Make 2 2 [[1; 2]; [3; 4]]%Q)
                             (Image.Make 2 2 [[5; 6]; [7; 8]]%Q) = Ok img
           ∧ Cube.get img 1 0 0 = Some 3%Q
           ∧ Cube.get img 1 0 1 = Some 7%Q
           ∧ Cube.get img 1 0 2 = Some 0%Q.
Proof.
  assert (Hwf1 : Image.wf (Image.Make 2 2 [[1; 2]; [3; 4]]%Q))
    by (split; [reflexivity | repeat constructor]).
  assert (Hwf2 : Image.wf (Image.Make 2 2 [[5; 6]; [7; 8]]%Q))
    by (split; [reflexivity | repeat constructor]).
  assert (Hwf3 : Image.wf (Image.Make 3 3 [[5; 6; 7]; [5; 6; 7]; [5; 6; 7]]%Q))
    by (split; [reflexivity | repeat constructor]).
  split.
  - exact (proj1 (combine_red_green_planes _ _ Hwf1 Hwf3) eq_refl).
  - destruct (proj2 (combine_red_green_planes _ _ Hwf1 Hwf2) eq_refl eq_refl)
      as (img & Himg & _ & _ & _ & _ & Hget).
    exists img. split; [exact Himg|].
    exact (Hget 1%nat 0%nat ltac:(simpl; lia) ltac:(simpl; lia)).
Defined.

(** C7 as stated fails when the second plane has a different shape that
    numpy can broadcast: a 1 x 1 plane is spread over channel 1 of the
    2 x 2 result, and nothing is raised. *)
Lemma combine_red_green_broadcast_counterexample :
  let img1 := Image.Make 2 2 [[1; 2]; [3; 4]]%Q in
  let img2 := Image.Make 1 1 [[7]]%Q in
  Image.wf img1 ∧ Image.wf img2
  ∧ (Image.shape0 img2, Image.shape1 img2) ≠ (Image.shape0 img1, Image.shape1 img1)
  ∧ combine_red_green img1 img2 =
      Ok (Cube.Make 2 2 3 [[[1; 7; 0]; [2; 7; 0]]; [[3; 7; 0]; [4; 7; 0]]]%Q).
Proof.
  intros img1 img2.
  split; [split; [reflexivity | repeat constructor]|].
  split; [split; [reflexivity | repeat constructor]|].
  split; [discriminate | reflexivity].
Qed.

(** ** [remove_pedestal] *)

Lemma Nd_map_map {A B C : Type} (f : A → B) (g : B → C) (x : ndarray A) :
  Nd.map g (Nd.map f x) = Nd.map (g ∘ f) x.
Proof.
  destruct x as [a|a]; simpl; f_equal.
  - unfold Nd.image_map. simpl. f_equal.
    rewrite <- list_fmap_compose. apply list_fmap_ext. intros _ r _. simpl.
    by rewrite <- list_fmap_compose.
  - unfold Cube.map. simpl. f_equal.
    rewrite <- list_fmap_compose. apply list_fmap_ext. intros _ p _. simpl.
    rewrite <- list_fmap_compose. apply list_fmap_ext. intros _ r _. simpl.
    by rewrite <- list_fmap_compose.
Qed.

Ltac run_store :=
  unfold mbind, mret, Store.M_bind, Store.M_ret, Store.get_header, Store.get_array,
    Store.set_header, Store.set_array, Store.new_array, Store.lift; simpl.

Lemma fresh_array_loc {Arr : Type} (s : Store.t Arr) (l : Store.loc) (a : Arr) :
  Store.arrays s !! l = Some a → fresh (dom (Store.arrays s)) ≠ l.
Proof.
  intros Hl Heq. apply (is_fresh (dom (Store.arrays s))).
  rewrite Heq. apply elem_of_dom. by eexists.
Qed.

(** What [remove_pedestal] does when the header has a numeric
    [PEDESTAL] card. *)
Lemma remove_pedestal_present (s : Store.t (ndarray Q)) (img header : Store.loc)
    (a : ndarray Q) (h : Header) (v : value) (p : Q) :
  Store.arrays s !! img = Some a →
  Store.headers s !! header = Some h →
  h !! "PEDESTAL"%string = Some v →
  Value.number v = Some p →
  let l1 := fresh (dom (Store.arrays s)) in
  let arrays1 := <[l1 := Nd.map (λ x, x - p / 65535)%Q a]> (Store.arrays s) in
  let l2 := fresh (dom arrays1) in
  remove_pedestal img header s =
    Store.Return l2
      (Store.Make
         (<[l2 := Nd.map (λ x, Qmax (x - p / 65535) 0) a]> arrays1)
         (<[header := delete "PEDESTAL"%string h]> (Store.headers s))).
Proof.
  intros Ha Hh Hv Hp l1 arrays1 l2.
  unfold remove_pedestal. run_store. rewrite Hh. simpl. rewrite Hv.
  unfold Value.div. rewrite Hp. simpl. rewrite Ha. simpl.
  fold l1. rewrite lookup_insert_eq. simpl. fold arrays1. fold l2.
  rewrite Hh. by rewrite Nd_map_map.
Qed.

Lemma remove_pedestal_absent (s : Store.t (ndarray Q)) (img header : Store.loc)
    (h : Header) :
  Store.headers s !! header = Some h →
  h !! "PEDESTAL"%string = None →
  remove_pedestal img header s = Store.Return img s.
Proof.
  intros Hh Hv. unfold remove_pedestal. run_store. rewrite Hh. simpl. by rewrite Hv.
Qed.

(** C4.  With a (numeric) [PEDESTAL] card in the header,
    [remove_pedestal] returns an array in which [PEDESTAL / 65535] is
    subtracted from every element and negative results are replaced by
    0, and deletes the card from the caller's header; without the card
    it returns the array it was given and changes nothing.  A second call
    after a first therefore returns its argument and changes nothing. *)
Theorem remove_pedestal_spec (s : Store.t (ndarray Q)) (img header : Store.loc)
    (a : ndarray Q) (h : Header) :
  Store.arrays s !! img = Some a →
  Store.headers s !! header = Some h →
  (∀ v p, h !! "PEDESTAL"%string = Some v → Value.number v = Some p →
     ∃ l s', remove_pedestal img header s = Store.Return l s'
       ∧ Store.arrays s' !! l = Some (Nd.map (λ x, Qmax (x - p / 65535) 0) a)
       ∧ Store.headers s' !! header = Some (delete "PEDESTAL"%string h)
       ∧ (∀ header', header' ≠ header →
            Store.headers s' !! header' = Store.headers s !! header')
       ∧ remove_pedestal l header s' = Store.Return l s')
  ∧ (h !! "PEDESTAL"%string = None →
     remove_pedestal img header s = Store.Return img s).
Proof.
  intros Ha Hh. split.
  - intros v p Hv Hp.
    rewrite (remove_pedestal_present s img header a h v p Ha Hh Hv Hp).
    eexists _, _. split; [done|]. simpl.
    split; [by rewrite lookup_insert_eq|].
    split; [by rewrite lookup_insert_eq|].
    split; [intros header' Hne; by rewrite lookup_insert_ne|].
    eapply remove_pedestal_absent; simpl.
    + by rewrite lookup_insert_eq.
    + by rewrite lookup_delete_eq.
  - by apply remove_pedestal_absent.
Qed.

Lemma remove_pedestal_spec_witness :
  ∃ l s', remove_pedestal 1%positive 1%positive pedestal_store = Store.Return l s'
    ∧ Store.arrays s' !! l
      = Some (Nd2 (Image.Make 1 3
                     [[Qmax ((1 # 2) - 655 / 65535) 0;
                       Qmax ((1 # 200) - 655 / 65535) 0;
                       Qmax (0 - 655 / 65535) 0]]%Q))
    ∧ Store.headers s' !! 1%positive = Some (<["EXPTIME"%string := VNum 10]> ∅)
    ∧ remove_pedestal l 1%positive s' = Store.Return l s'.
Proof.
  destruct (proj1 (remove_pedestal_spec pedestal_store 1%positive 1%positive
                     pedestal_frame pedestal_header eq_refl eq_refl)
              (VNum 655) 655%Q eq_refl eq_refl)
    as (l & s' & Hrun & Harr & Hhdr & _ & Hagain).
  exists l, s'. split; [exact Hrun|]. split; [exact Harr|].
  split; [exact Hhdr | exact Hagain].
Defined.

(** C10.  [remove_pedestal] leaves the caller's array object as it was:
    whatever the header holds, the array at [img] is the same after the
    call, and when the [PEDESTAL] card is used the array returned is a
    new object. *)
Theorem remove_pedestal_input_intact (s : Store.t (ndarray Q)) (img header : Store.loc)
    (a : ndarray Q) (h : Header) :
  Store.arrays s !! img = Some a →
  Store.headers s !! header = Some h →
  match remove_pedestal img header s with
  | Store.Return l s' =>
      Store.arrays s' !! img = Some a
      ∧ (is_Some (h !! "PEDESTAL"%string) → l ≠ img)
      ∧ (h !! "PEDESTAL"%string = None → l = img)
  | Store.Throw _ s' => Store.arrays s' !! img = Some a
  | Store.Stuck => False
  end.
Proof.
  intros Ha Hh.
  destruct (h !! "PEDESTAL"%string) as [v|] eqn:Hv.
  - destruct (Value.number v) as [p|] eqn:Hp.
    + rewrite (remove_pedestal_present s img header a h v p Ha Hh Hv Hp). simpl.
      set (l1 := fresh (dom (Store.arrays s))).
      set (arrays1 := <[l1 := _]> (Store.arrays s)).
      assert (Hl1 : l1 ≠ img) by (by eapply fresh_array_loc).
      assert (Ha1 : arrays1 !! img = Some a)
        by (unfold arrays1; by rewrite lookup_insert_ne).
      assert (Hl2 : fresh (dom arrays1) ≠ img).
      { apply (fresh_array_loc (Store.Make arrays1 (Store.headers s)) img a Ha1). }
      split; [by rewrite lookup_insert_ne|]. split; [done|]. done.
    + unfold remove_pedestal. run_store. rewrite Hh. simpl. rewrite Hv.
      unfold Value.div. rewrite Hp. simpl. done.
  - rewrite (remove_pedestal_absent s img header h Hh Hv).
    split; [done|]. split; [by intros [? ?]|done].
Qed.

Lemma remove_pedestal_input_intact_witness :
  ∃ l s', remove_pedestal 1%positive 1%positive pedestal_store = Store.Return l s'
          ∧ Store.arrays s' !! 1%positive = Some pedestal_frame
          ∧ l ≠ 1%positive.
Proof.
  pose proof (remove_pedestal_input_intact pedestal_store 1%positive 1%positive
                pedestal_frame pedestal_header eq_refl eq_refl) as H.
  destruct (remove_pedestal 1%positive 1%positive pedestal_store) as [l s'|e s'|] eqn:Hrun.
  - destruct H as (Ha & Hne & _). exists l, s'.
    split; [reflexivity|]. split; [exact Ha|]. apply Hne. by eexists.
  - rewrite (remove_pedestal_present pedestal_store 1%positive 1%positive
               pedestal_frame pedestal_header (VNum 655) 655%Q
               eq_refl eq_refl eq_refl eq_refl) in Hrun.
    discriminate Hrun.
  - destruct H.
Defined.

(** ** [save_as_fits] and [read_fits_as_float] *)

Lemma omap_cons {C : Type} (f : nat → option C) (i : nat) (l : list nat) :
  omap f (i :: l) = match f i with Some y => y :: omap f l | None => omap f l end.
Proof. done. Qed.

Section ListFacts.
Context {A B : Type}.

Lemma tabulate_eq (F : nat → A) (l : list A) (n : nat) :
  length l = n → (∀ i x, l !! i = Some x → F i = x) → F <$> seq 0 n = l.
Proof.
  intros Hlen HF. apply list_eq. intros i. rewrite list_lookup_fmap.
  destruct (decide (i < n)%nat) as [Hi|Hi].
  - rewrite lookup_seq_lt by done. simpl.
    destruct (lookup_lt_is_Some_2 l i) as [x Hx]; [lia|].
    rewrite Hx. f_equal. by apply HF.
  - rewrite lookup_seq_ge by lia. simpl. symmetry. apply lookup_ge_None. lia.
Qed.

Lemma omap_ext_seq (f g : nat → option A) (m n : nat) :
  (∀ i, (m ≤ i < m + n)%nat → f i = g i) → omap f (seq m n) = omap g (seq m n).
Proof.
  revert m. induction n as [|n IH]; intros m Hfg; [done|].
  cbn [seq]. rewrite (omap_cons f), (omap_cons g), Hfg by lia.
  rewrite (IH (S m)) by (intros; apply Hfg; lia). done.
Qed.

Lemma omap_lookup_seq_from (pre l : list A) :
  omap (λ i, (pre ++ l) !! i) (seq (length pre) (length l)) = l.
Proof.
  revert pre. induction l as [|x l IH]; intros pre; [done|].
  cbn [length seq]. rewrite omap_cons.
  rewrite lookup_app_r by lia. rewrite Nat.sub_diag. simpl. f_equal.
  specialize (IH (pre ++ [x])). rewrite length_app in IH. simpl in IH.
  rewrite Nat.add_1_r, <- app_assoc in IH. exact IH.
Qed.

Lemma omap_lookup_seq (l : list A) (n : nat) :
  length l = n → omap (λ i, l !! i) (seq 0 n) = l.
Proof. intros <-. apply (omap_lookup_seq_from [] l). Qed.

Lemma lookup_omap_seq (f : nat → option A) (m n k : nat) :
  (∀ i, (m ≤ i < m + n)%nat → is_Some (f i)) → (k < n)%nat →
  omap f (seq m n) !! k = f (m + k)%nat.
Proof.
  revert m k. induction n as [|n IH]; intros m k Hf Hk; [lia|].
  cbn [seq]. rewrite omap_cons. destruct (Hf m) as [x Hx]; [lia|]. rewrite Hx.
  destruct k as [|k]; simpl.
  - by rewrite Nat.add_0_r.
  - rewrite IH by (try lia; intros; apply Hf; lia). f_equal. lia.
Qed.

Lemma length_omap_seq (f : nat → option A) (m n : nat) :
  (∀ i, (m ≤ i < m + n)%nat → is_Some (f i)) → length (omap f (seq m n)) = n.
Proof.
  revert m. induction n as [|n IH]; intros m Hf; [done|].
  cbn [seq]. rewrite omap_cons. destruct (Hf m) as [x ->]; [lia|]. simpl.
  rewrite IH; [done|]. intros. apply Hf. lia.
Qed.

Lemma fmap_omap (h : A → B) (f : nat → option A) (l : list nat) :
  h <$> omap f l = omap (λ i, h <$> f i) l.
Proof.
  induction l as [|i l IH]; [done|].
  rewrite (omap_cons f), (omap_cons (λ i, h <$> f i)).
  destruct (f i) as [y|]; [rewrite fmap_cons|]; by rewrite IH.
Qed.
End ListFacts.

Section CubeAxes.
Context {A : Type}.
Implicit Types (a : Cube.t A).

Lemma Cube_cell_wf a i j :
  Cube.wf a → (i < Cube.shape0 a)%nat → (j < Cube.shape1 a)%nat →
  ∃ r, Cube.cell a i j = Some r ∧ length r = Cube.shape2 a.
Proof.
  intros [Hlen Hp] Hi Hj. unfold Cube.cell.
  destruct (lookup_lt_is_Some_2 (Cube.planes a) i) as [p Hpi]; [lia|].
  rewrite Hpi. simpl. destruct (Forall_lookup_1 _ _ _ _ Hp Hpi) as [Hl Hr].
  destruct (lookup_lt_is_Some_2 p j) as [r Hrj]; [lia|].
  exists r. split; [done|]. exact (Forall_lookup_1 _ _ _ _ Hr Hrj).
Qed.

Lemma Cube_get_wf a i j k :
  Cube.wf a → (i < Cube.shape0 a)%nat → (j < Cube.shape1 a)%nat →
  (k < Cube.shape2 a)%nat → is_Some (Cube.get a i j k).
Proof.
  intros Hwf Hi Hj Hk. unfold Cube.get.
  destruct (Cube_cell_wf a i j Hwf Hi Hj) as (r & -> & Hr). simpl.
  apply lookup_lt_is_Some_2. lia.
Qed.

Lemma Cube_get_moveaxis_2_0 a k i j :
  Cube.wf a → (i < Cube.shape0 a)%nat → (j < Cube.shape1 a)%nat →
  (k < Cube.shape2 a)%nat →
  Cube.get (Cube.moveaxis_2_0 a) k i j = Cube.get a i j k.
Proof.
  intros Hwf Hi Hj Hk. unfold Cube.get at 1. unfold Cube.cell, Cube.moveaxis_2_0. simpl.
  rewrite list_lookup_fmap, lookup_seq_lt by done. simpl.
  rewrite list_lookup_fmap, lookup_seq_lt by done. simpl.
  rewrite lookup_omap_seq; [done| |done].
  intros j' Hj'. apply Cube_get_wf; (done || lia).
Qed.

(** Moving the last axis first and the first axis last again gives the
    array back. *)
Lemma Cube_moveaxis_round_trip a :
  Cube.wf a → Cube.moveaxis_0_2 (Cube.moveaxis_2_0 a) = a.
Proof.
  intros Hwf. destruct a as [n0 n1 n2 planes].
  unfold Cube.moveaxis_0_2. simpl. f_equal.
  pose proof Hwf as [Hlen Hp]. simpl in Hlen, Hp.
  apply tabulate_eq; [done|]. intros i p Hpi.
  assert (Hi : (i < n0)%nat) by (apply lookup_lt_Some in Hpi; lia).
  destruct (Forall_lookup_1 _ _ _ _ Hp Hpi) as [Hl Hr].
  apply tabulate_eq; [done|]. intros j r Hrj.
  assert (Hj : (j < n1)%nat) by (apply lookup_lt_Some in Hrj; lia).
  pose proof (Forall_lookup_1 _ _ _ _ Hr Hrj) as Hrl.
  rewrite (omap_ext_seq _ (λ k, r !! k)).
  - by apply omap_lookup_seq.
  - intros k Hk.
    rewrite (Cube_get_moveaxis_2_0 (Cube.Make n0 n1 n2 planes)); [|done|simpl; lia..].
    unfold Cube.get, Cube.cell. simpl. rewrite Hpi. simpl. by rewrite Hrj.
Qed.

Lemma Cube_wf_map {B : Type} (f : A → B) a : Cube.wf a → Cube.wf (Cube.map f a).
Proof.
  intros [Hlen Hp]. split; simpl; [by rewrite length_fmap|].
  apply Forall_fmap. eapply Forall_impl; [exact Hp|].
  intros p [Hl Hr]. simpl. split; [by rewrite length_fmap|].
  apply Forall_fmap. eapply Forall_impl; [exact Hr|].
  intros r Hrl. simpl. by rewrite length_fmap.
Qed.

Lemma Cube_get_map {B : Type} (f : A → B) a i j k :
  Cube.get (Cube.map f a) i j k = f <$> Cube.get a i j k.
Proof.
  unfold Cube.get, Cube.cell, Cube.map. simpl. rewrite list_lookup_fmap.
  destruct (Cube.planes a !! i) as [p|]; simpl; [|done].
  rewrite list_lookup_fmap. destruct (p !! j) as [r|]; simpl; [|done].
  by rewrite list_lookup_fmap.
Qed.

Lemma Cube_map_moveaxis_2_0 {B : Type} (f : A → B) a :
  Cube.map f (Cube.moveaxis_2_0 a) = Cube.moveaxis_2_0 (Cube.map f a).
Proof.
  unfold Cube.map, Cube.moveaxis_2_0. simpl. f_equal.
  rewrite <- list_fmap_compose. apply list_fmap_ext. intros _ k _. simpl.
  rewrite <- list_fmap_compose. apply list_fmap_ext. intros _ i _. simpl.
  rewrite fmap_omap. apply omap_ext_seq. intros j _.
  symmetry. apply (Cube_get_map f a).
Qed.
End CubeAxes.

(** Truncation of a non-negative float is its floor. *)
Lemma trunc_floor (q : Q) :
  (0 <= q)%Q → (inject_Z (trunc q) <= q)%Q ∧ (q < inject_Z (trunc q) + 1)%Q.
Proof.
  intros Hq. unfold trunc. destruct q as [n d].
  assert (Hn : 0 ≤ n) by (unfold Qle in Hq; simpl in Hq; lia).
  cbn [Qnum Qden]. rewrite Z.quot_div_nonneg by lia.
  change (n / Z.pos d) with (Qfloor (n # d)).
  split; [apply Qfloor_le|].
  pose proof (Qlt_floor (n # d)) as H. rewrite inject_Z_plus in H. exact H.
Qed.

(** Saving a value of [[0, 1]] as [uint16] and reading it back moves it
    by less than one quantisation step. *)
Lemma quantise_within_step (v : Q) :
  unit_interval v → within_step v (astype_uint16 (Np.clip 0 1 v * 65535) / 65535).
Proof.
  intros [Hv0 Hv1]. unfold within_step, astype_uint16.
  set (c := Np.clip 0 1 v).
  assert (Hc : (c == v)%Q).
  { unfold c, Np.clip. rewrite (Q.max_l v 0) by done. by rewrite Q.min_l. }
  assert (Hy : (0 <= c * 65535)%Q) by (rewrite Hc; nra).
  destruct (trunc_floor (c * 65535) Hy) as [Hlo Hhi].
  set (t := trunc (c * 65535)) in *.
  assert (Ht0 : 0 ≤ t).
  { apply Z.lt_succ_r. rewrite (Zlt_Qlt 0 (Z.succ t)).
    unfold Z.succ. rewrite inject_Z_plus. change (inject_Z 0) with 0%Q.
    change (inject_Z 1) with 1%Q. lra. }
  assert (Ht1 : t ≤ 65535).
  { rewrite (Zle_Qle t 65535). change (inject_Z 65535) with 65535%Q.
    rewrite Hc in Hlo. nra. }
  rewrite Z.mod_small by lia.
  apply Qabs_Qle_condition. rewrite Hc in Hlo, Hhi.
  set (T := inject_Z t) in *. clearbody T.
  change (1 / 65535)%Q with (1 # 65535)%Q.
  change (T / 65535)%Q with (T * (1 # 65535))%Q. lra.
Qed.

Lemma Forall2_fmap_diag {A B : Type} (R : A → B → Prop) (f : A → B) (l : list A) :
  Forall (λ x, R x (f x)) l → List.Forall2 R l (f <$> l).
Proof. induction 1; constructor; auto. Qed.

Lemma Nd_Forall2_map {A B : Type} (R : A → B → Prop) (f : A → B) (x : ndarray A) :
  Nd.Forall (λ v, R v (f v)) x → Nd.Forall2 R x (Nd.map f x).
Proof.
  unfold Nd.Forall. destruct x as [a|a]; simpl.
  - intros H. split; [done|]. split; [done|].
    apply Forall_concat in H. apply Forall2_fmap_diag.
    eapply Forall_impl; [exact H|]. intros r Hr. by apply Forall2_fmap_diag.
  - intros H. split; [done|]. split; [done|]. split; [done|].
    pose proof (proj1 (Forall_concat _ _) H) as H1.
    pose proof (proj1 (Forall_concat _ _) H1) as H2.
    apply Forall2_fmap_diag.
    eapply Forall_impl; [exact H2|]. intros p Hp. apply Forall2_fmap_diag.
    eapply Forall_impl; [exact Hp|]. intros r Hr. by apply Forall2_fmap_diag.
Qed.

Lemma Nd_wf_map {A B : Type} (f : A → B) (x : ndarray A) : Nd.wf x → Nd.wf (Nd.map f x).
Proof.
  destruct x as [a|a]; simpl; [|apply Cube_wf_map].
  intros [Hlen Hr]. split; simpl; [by rewrite length_fmap|].
  apply Forall_fmap. eapply Forall_impl; [exact Hr|].
  intros r Hrl. simpl. by rewrite length_fmap.
Qed.

(** The two guarded transpositions undo each other. *)
Lemma moveaxis_round_trip {A : Type} (x : ndarray A) :
  Nd.wf x → moveaxis_0_2_if_rank3 (moveaxis_2_0_if_rank3 x) = x.
Proof.
  destruct x as [a|a]; simpl; [done|]. intros Hwf.
  by rewrite Cube_moveaxis_round_trip.
Qed.

Lemma map_moveaxis_2_0 {A B : Type} (f : A → B) (x : ndarray A) :
  Nd.map f (moveaxis_2_0_if_rank3 x) = moveaxis_2_0_if_rank3 (Nd.map f x).
Proof. destruct x as [a|a]; simpl; [done|]. by rewrite Cube_map_moveaxis_2_0. Qed.

(** C3.  With a codec that reads back what it wrote: a float array with
    values in [[0, 1]], saved with [convert_to_uint16] and read again,
    comes back with its shape and with every element within [1/65535]
    of the original; saved without the conversion it comes back equal;
    and the transposition of the channel axis on saving is undone by
    the one on reading. *)
Theorem save_read_round_trip {filesystem : Type}
    (fits_open : string → filesystem → option hdu)
    (fits_writeto : hdu → string → filesystem → filesystem)
    (x : ndarray Q) (header : Header) (filepath : string) (fs : filesystem) :
  codec_lossless fits_open fits_writeto →
  Nd.wf x →
  (Nd.Forall unit_interval x →
   ∃ y header',
     read_fits_as_float fits_open filepath
       (save_as_fits fits_writeto x header filepath true fs) = Ok (y, header')
     ∧ Nd.Forall2 within_step x y)
  ∧ (∃ header',
       read_fits_as_float fits_open filepath
         (save_as_fits fits_writeto x header filepath false fs) = Ok (x, header'))
  ∧ moveaxis_0_2_if_rank3 (moveaxis_2_0_if_rank3 x) = x.
Proof.
  intros Hcodec Hwf. split; [|split].
  - intros Hx. unfold save_as_fits, read_fits_as_float.
    destruct (Hcodec (PrimaryHDU uint16
                (moveaxis_2_0_if_rank3
                   (Nd.map (λ v, astype_uint16 (Np.clip 0 1 v * 65535)) x))
                header) filepath fs) as [header' ->].
    simpl. eexists _, header'. split; [done|].
    rewrite map_moveaxis_2_0, Nd_map_map.
    rewrite moveaxis_round_trip by (by apply Nd_wf_map).
    apply Nd_Forall2_map. unfold Nd.Forall in *.
    eapply Forall_impl; [exact Hx|]. intros v Hv. by apply quantise_within_step.
  - unfold save_as_fits, read_fits_as_float.
    destruct (Hcodec (PrimaryHDU float64 (moveaxis_2_0_if_rank3 x) header) filepath fs)
      as [header' ->].
    simpl. exists header'. by rewrite moveaxis_round_trip.
  - by apply moveaxis_round_trip.
Qed.

Lemma map_codec_lossless : codec_lossless map_open map_writeto.
Proof.
  intros [dt d h] filepath fs. exists h. unfold map_open, map_writeto.
  by rewrite lookup_insert_eq.
Qed.

Lemma save_read_round_trip_witness :
  (∃ y header',
     read_fits_as_float map_open "frame.fits"
       (save_as_fits map_writeto colour_frame ∅ "frame.fits" true ∅) = Ok (y, header')
     ∧ Nd.Forall2 within_step colour_frame y)
  ∧ (∃ header',
       read_fits_as_float map_open "frame.fits"
         (save_as_fits map_writeto colour_frame ∅ "frame.fits" false ∅)
       = Ok (colour_frame, header')).
Proof.
  assert (Hwf : Nd.wf colour_frame).
  { split; [reflexivity|]. repeat constructor. }
  assert (Hunit : Nd.Forall unit_interval colour_frame).
  { unfold Nd.Forall. simpl.
    repeat (apply Forall_cons; split; [split; discriminate|]). constructor. }
  destruct (save_read_round_trip map_open map_writeto colour_frame ∅ "frame.fits" ∅
              map_codec_lossless Hwf) as (Hconv & Hraw & _).
  split; [exact (Hconv Hunit) | exact Hraw].
Defined.

(** ** [crop_inset] *)

Section CropInsetFacts.
Context {A : Type}.
Implicit Types (a b : Image.t A) (s : Store.t (Image.t A)) (img : Store.loc).

Lemma run_setitem_scalar s img a rs cs v :
  Store.arrays s !! img = Some a →
  setitem_scalar img rs cs v s =
    Store.Return ()
      (Store.Make (<[img := Image.setslice_scalar a rs cs v]> (Store.arrays s))
                  (Store.headers s)).
Proof.
  intros Ha. unfold setitem_scalar. run_store. rewrite Ha. simpl. by rewrite Ha.
Qed.

Lemma run_setitem_array s img a a' rs cs b :
  Store.arrays s !! img = Some a →
  Image.setslice_array a rs cs b = Ok a' →
  setitem_array img rs cs b s =
    Store.Return ()
      (Store.Make (<[img := a']> (Store.arrays s)) (Store.headers s)).
Proof.
  intros Ha Hb. unfold setitem_array. run_store. rewrite Ha. simpl.
  rewrite Hb. simpl. by rewrite Ha.
Qed.

Lemma Image_get_repeat0 (n : Z) a a' i j :
  0 < n → Image.repeat0 n a = Ok a' →
  Image.get a' i j = Image.get a (i / Z.to_nat n) j.
Proof.
  intros Hn. unfold Image.repeat0.
  destruct (n <? 0) eqn:E; [lia|]. intros [= <-].
  unfold Image.get. simpl. by rewrite lookup_bind_replicate by lia.
Qed.

Lemma Image_get_repeat1 (n : Z) a a' i j :
  0 < n → Image.repeat1 n a = Ok a' →
  Image.get a' i j = Image.get a i (j / Z.to_nat n).
Proof.
  intros Hn. unfold Image.repeat1.
  destruct (n <? 0) eqn:E; [lia|]. intros [= <-].
  unfold Image.get. simpl. rewrite list_lookup_fmap.
  destruct (Image.rows a !! i) as [r|]; simpl; [|done].
  by rewrite lookup_bind_replicate by lia.
Qed.

Lemma Image_get_setslice_scalar_out a rs cs v i j :
  Slice.mem (Image.shape0 a) rs i && Slice.mem (Image.shape1 a) cs j = false →
  Image.get (Image.setslice_scalar a rs cs v) i j = Image.get a i j.
Proof. intros H. by rewrite Image_get_setslice_scalar, H. Qed.

(** [crop_inset] overwrites the array at [img] with [crop_inset_array] of
    it and returns nothing; when numpy raises, the call raises and the
    array at [img] keeps the border already painted. *)
Lemma run_crop_inset s img a crop_center crop_radii scale border_value border_thickness :
  Store.arrays s !! img = Some a →
  crop_inset img crop_center crop_radii scale border_value border_thickness s =
    match crop_inset_array a crop_center crop_radii scale border_value border_thickness with
    | Ok a' =>
        Store.Return () (Store.Make (<[img := a']> (Store.arrays s)) (Store.headers s))
    | Raise e =>
        Store.Throw e
          (Store.Make
             (<[img := crop_border_array a crop_center crop_radii border_value
                         border_thickness]> (Store.arrays s))
             (Store.headers s))
    end.
Proof.
  intros Ha.
  remember (crop_inset_array a crop_center crop_radii scale border_value
              border_thickness) as r eqn:Hr.
  unfold crop_inset.
  do 4 (unfold mbind at 1, Store.M_bind;
        erewrite (run_setitem_scalar _ img);
          [|first [exact Ha | simpl; apply lookup_insert_eq]];
        cbn beta iota).
  simpl Store.arrays. simpl Store.headers. rewrite !insert_insert_eq.
  unfold mbind at 1, Store.M_bind, Store.get_array. simpl Store.arrays.
  rewrite lookup_insert_eq. cbn beta iota.
  subst r. unfold crop_inset_array. fold (crop_border_array a crop_center crop_radii
                                            border_value border_thickness).
  set (a4 := crop_border_array _ _ _ _ _).
  unfold mbind, Store.M_bind, result_bind, Store.lift.
  destruct (Image.repeat0 scale _) as [inset0|e]; [|done].
  destruct (Image.repeat1 scale inset0) as [inset|e]; [|done].
  destruct (Image.setslice_array a4 _ _ inset) as [a5|e] eqn:H5.
  - rewrite (run_setitem_array _ img a4 a5)
      by (first [exact H5 | simpl; apply lookup_insert_eq]).
    do 2 (erewrite (run_setitem_scalar _ img); [|simpl; apply lookup_insert_eq]).
    simpl. by rewrite !insert_insert_eq.
  - unfold setitem_array. run_store. rewrite lookup_insert_eq. simpl.
    by rewrite H5.
Qed.

Lemma Image_setslice_array_inv a rs cs b a' :
  Image.setslice_array a rs cs b = Ok a' →
  Image.shape0 a' = Image.shape0 a ∧ Image.shape1 a' = Image.shape1 a
  ∧ (Image.wf a → Image.wf a')
  ∧ ∀ i j,
      Image.get a' i j =
        if Slice.mem (Image.shape0 a) rs i && Slice.mem (Image.shape1 a) cs j
        then (λ x, default x
                     (Image.get b
                        (Image.bindex (Image.shape0 b) (i - Slice.lo (Image.shape0 a) rs))
                        (Image.bindex (Image.shape1 b) (j - Slice.lo (Image.shape1 a) cs))))
               <$> Image.get a i j
        else Image.get a i j.
Proof.
  unfold Image.setslice_array. destruct (_ && _); [|done]. intros [= <-].
  split; [done|]. split; [done|]. split.
  - intros [Hlen Hrows]. split; simpl; [by rewrite length_imap|].
    apply Forall_lookup_2. intros i r. rewrite list_lookup_imap.
    destruct (Image.rows a !! i) as [r'|] eqn:Hr; simpl; [|done].
    intros [= <-]. pose proof (Forall_lookup_1 _ _ _ _ Hrows Hr) as Hl.
    destruct (Slice.mem _ rs i); [by rewrite length_imap | done].
  - intros i j. unfold Image.get at 1. simpl. rewrite list_lookup_imap.
    change (Image.get a i j) with (Image.rows a !! i ≫= λ r, r !! j).
    destruct (Image.rows a !! i) as [r|]; simpl;
      [|by destruct (Slice.mem _ rs i), (Slice.mem _ cs j)].
    destruct (Slice.mem (Image.shape0 a) rs i); simpl; [|done].
    rewrite list_lookup_imap.
    by destruct (Slice.mem (Image.shape1 a) cs j), (r !! j).
Qed.

Lemma Slice_mem_range n (x y : Z) (k : nat) :
  0 ≤ x → x ≤ y → y ≤ Z.of_nat n →
  Slice.mem n (Slice.range x y) k = bool_decide (x ≤ Z.of_nat k < y).
Proof.
  intros. unfold Slice.mem.
  destruct (Slice_range_inside n x y) as (-> & -> & _); [lia..|].
  case_bool_decide as Hd.
  - apply andb_true_iff. rewrite Nat.leb_le, Nat.ltb_lt. lia.
  - apply andb_false_iff. rewrite Nat.leb_gt, Nat.ltb_ge. lia.
Qed.

Lemma Slice_mem_range_end n (x y : Z) (k : nat) :
  - Z.of_nat n ≤ x → x ≤ y → y < 0 →
  Slice.mem n (Slice.range x y) k
  = bool_decide (Z.of_nat n + x ≤ Z.of_nat k < Z.of_nat n + y).
Proof.
  intros. unfold Slice.mem, Slice.lo, Slice.hi, Slice.range. simpl.
  rewrite !Slice_index_neg by lia.
  case_bool_decide as Hd.
  - apply andb_true_iff. rewrite Nat.leb_le, Nat.ltb_lt. lia.
  - apply andb_false_iff. rewrite Nat.leb_gt, Nat.ltb_ge. lia.
Qed.

Lemma Slice_mem_from_end n (h : Z) (k : nat) :
  0 < h → h ≤ Z.of_nat n →
  Slice.mem n (Slice.from (- h)) k
  = bool_decide (Z.of_nat n - h ≤ Z.of_nat k < Z.of_nat n).
Proof.
  intros. unfold Slice.mem, Slice.lo, Slice.hi, Slice.from. simpl.
  rewrite !Slice_index_neg by lia.
  case_bool_decide as Hd.
  - apply andb_true_iff. rewrite Nat.leb_le, Nat.ltb_lt. lia.
  - apply andb_false_iff. rewrite Nat.leb_gt, Nat.ltb_ge. lia.
Qed.

(** The border around the crop box leaves the crop box as it was. *)
Lemma crop_border_array_box a crop_center crop_radii scale border_value border_thickness
    (i j : nat) :
  inset_fits a crop_center crop_radii scale border_thickness →
  crop_center.1 - crop_radii.1 ≤ Z.of_nat i ≤ crop_center.1 + crop_radii.1 →
  crop_center.2 - crop_radii.2 ≤ Z.of_nat j ≤ crop_center.2 + crop_radii.2 →
  Image.get (crop_border_array a crop_center crop_radii border_value border_thickness) i j
  = Image.get a i j.
Proof.
  unfold inset_fits. intros (Hr0 & Hr1 & Hsc & Hbt & Hil & Hir & Hjt & Hjb & _) Hi Hj.
  unfold crop_border_array.
  rewrite !Image_get_setslice_scalar_out; [done|..]; simpl;
    rewrite !Slice_mem_range by lia;
    apply andb_false_iff; rewrite !bool_decide_eq_false; lia.
Qed.

Lemma crop_border_array_wf a crop_center crop_radii border_value border_thickness :
  Image.wf a →
  Image.wf (crop_border_array a crop_center crop_radii border_value border_thickness).
Proof. intros Hwf. unfold crop_border_array. by repeat apply Image_wf_setslice_scalar. Qed.

Lemma result_bind_Ok {X Y : Type} (x : X) (k : X → result Y) : (Ok x ≫= k) = k x.
Proof. done. Qed.

Lemma Image_repeat0_Ok (n : Z) a :
  0 < n →
  ∃ a', Image.repeat0 n a = Ok a'
        ∧ Image.shape0 a' = (Image.shape0 a * Z.to_nat n)%nat
        ∧ Image.shape1 a' = Image.shape1 a.
Proof.
  intros Hn. unfold Image.repeat0. destruct (n <? 0) eqn:E; [lia|]. by eexists.
Qed.

Lemma Image_repeat1_Ok (n : Z) a :
  0 < n →
  ∃ a', Image.repeat1 n a = Ok a'
        ∧ Image.shape0 a' = Image.shape0 a
        ∧ Image.shape1 a' = (Image.shape1 a * Z.to_nat n)%nat.
Proof.
  intros Hn. unfold Image.repeat1. destruct (n <? 0) eqn:E; [lia|]. by eexists.
Qed.

Lemma Image_setslice_array_Ok a rs cs b :
  Image.shape0 b = Slice.len (Image.shape0 a) rs →
  Image.shape1 b = Slice.len (Image.shape1 a) cs →
  ∃ a', Image.setslice_array a rs cs b = Ok a'.
Proof.
  intros H0 H1. unfold Image.setslice_array, Image.broadcastable.
  rewrite H0, H1, !Nat.eqb_refl. by eexists.
Qed.

(** What [crop_inset] makes of an array that satisfies its
    precondition. *)
Lemma crop_inset_array_spec a (c0 c1 r0 r1 scale : Z) border_value (border_thickness : Z) :
  Image.wf a →
  inset_fits a (c0, c1) (r0, r1) scale border_thickness →
  let h := Z.to_nat ((2 * r0 + 1) * scale) in
  let w := Z.to_nat ((2 * r1 + 1) * scale) in
  ∃ a', crop_inset_array a (c0, c1) (r0, r1) scale border_value border_thickness = Ok a'
    ∧ Image.wf a'
    ∧ Image.shape0 a' = Image.shape0 a ∧ Image.shape1 a' = Image.shape1 a
    ∧ (∀ u v : nat, (u < h)%nat → (v < w)%nat →
         Image.get a' (Image.shape0 a - h + u) (Image.shape1 a - w + v)
         = Image.get a (Z.to_nat (c0 - r0) + u / Z.to_nat scale)
                       (Z.to_nat (c1 - r1) + v / Z.to_nat scale))
    ∧ (∀ i j : nat,
         c0 - r0 ≤ Z.of_nat i ≤ c0 + r0 → c1 - r1 ≤ Z.of_nat j ≤ c1 + r1 →
         Image.get a' i j = Image.get a i j).
Proof.
  intros Hwf Hfit h w. pose proof Hfit as Hfit'.
  unfold inset_fits in Hfit'. simpl in Hfit'.
  destruct Hfit' as (Hr0 & Hr1 & Hsc & Hbt & Hil & Hir & Hjt & Hjb & Hih & Hiw & Hdis).
  unfold crop_inset_array. cbn [fst snd].
  assert (Hborder :
    ∃ a4, crop_border_array a (c0, c1) (r0, r1) border_value border_thickness = a4
      ∧ Image.wf a4
      ∧ Image.shape0 a4 = Image.shape0 a ∧ Image.shape1 a4 = Image.shape1 a
      ∧ ∀ i j : nat,
          c0 - r0 ≤ Z.of_nat i ≤ c0 + r0 → c1 - r1 ≤ Z.of_nat j ≤ c1 + r1 →
          Image.get a4 i j = Image.get a i j).
  { eexists. split; [done|]. split; [by apply crop_border_array_wf|].
    split; [done|]. split; [done|].
    intros i j Hi Hj. by apply (crop_border_array_box a (c0, c1) (r0, r1) scale). }
  destruct Hborder as (a4 & -> & Hwf4 & H40 & H41 & Hbox).
  destruct (Slice_range_inside (Image.shape0 a) (c0 - r0) (c0 + r0 + 1))
    as (Hlo0 & _ & Hlen0); [lia..|].
  destruct (Slice_range_inside (Image.shape1 a) (c1 - r1) (c1 + r1 + 1))
    as (Hlo1 & _ & Hlen1); [lia..|].
  assert (Hcropped :
    ∃ crop, Image.getslice a4 (Slice.range (c0 - r0) (c0 + r0 + 1))
                              (Slice.range (c1 - r1) (c1 + r1 + 1)) = crop
      ∧ Image.shape0 crop = Z.to_nat (2 * r0 + 1)
      ∧ Image.shape1 crop = Z.to_nat (2 * r1 + 1)
      ∧ ∀ p q : nat, (p < Z.to_nat (2 * r0 + 1))%nat → (q < Z.to_nat (2 * r1 + 1))%nat →
          Image.get crop p q
          = Image.get a (Z.to_nat (c0 - r0) + p) (Z.to_nat (c1 - r1) + q)).
  { eexists. split; [done|].
    split; [simpl; rewrite H40, Hlen0; f_equal; lia|].
    split; [simpl; rewrite H41, Hlen1; f_equal; lia|].
    intros p q Hp Hq. rewrite Image_get_getslice.
    rewrite H40, H41, Hlo0, Hlo1, Hlen0, Hlen1.
    rewrite decide_True by lia. apply Hbox; lia. }
  destruct Hcropped as (crop & -> & Hc0 & Hc1 & Hcrop).
  destruct (Image_repeat0_Ok scale crop) as (inset0 & Hi0 & Hi00 & Hi01); [lia|].
  rewrite Hi0, result_bind_Ok.
  destruct (Image_repeat1_Ok scale inset0) as (inset & Hi1 & Hi10 & Hi11); [lia|].
  rewrite Hi1, result_bind_Ok.
  assert (Hh : Image.shape0 inset = h).
  { rewrite Hi10, Hi00, Hc0. unfold h. rewrite Z2Nat.inj_mul by lia. done. }
  assert (Hw : Image.shape1 inset = w).
  { rewrite Hi11, Hi01, Hc1. unfold w. rewrite Z2Nat.inj_mul by lia. done. }
  assert (Hp0 : 0 < (2 * r0 + 1) * scale) by (apply Z.mul_pos_pos; lia).
  assert (Hp1 : 0 < (2 * r1 + 1) * scale) by (apply Z.mul_pos_pos; lia).
  assert (Hhpos : Z.of_nat h = (2 * r0 + 1) * scale) by (unfold h; lia).
  assert (Hwpos : Z.of_nat w = (2 * r1 + 1) * scale) by (unfold w; lia).
  rewrite Hh, Hw.
  assert (Hinset : ∀ u v : nat,
             Image.get inset u v
             = Image.get crop (u / Z.to_nat scale) (v / Z.to_nat scale)).
  { intros u v. rewrite (Image_get_repeat1 scale inset0 inset) by (done || lia).
    by rewrite (Image_get_repeat0 scale crop inset0) by (done || lia). }
  destruct (Slice_from_end (Image.shape0 a) h) as (Hflo0 & _ & Hflen0); [lia..|].
  destruct (Slice_from_end (Image.shape1 a) w) as (Hflo1 & _ & Hflen1); [lia..|].
  destruct (Image_setslice_array_Ok a4 (Slice.from (- Z.of_nat h))
              (Slice.from (- Z.of_nat w)) inset) as [a5 H5].
  { by rewrite Hh, H40, Hflen0. }
  { by rewrite Hw, H41, Hflen1. }
  rewrite H5, result_bind_Ok.
  destruct (Image_setslice_array_inv _ _ _ _ _ H5) as (H50 & H51 & Hwf5 & Hget5).
  eexists. split; [done|].
  split; [by apply Image_wf_setslice_scalar, Image_wf_setslice_scalar, Hwf5|].
  split; [simpl; congruence|]. split; [simpl; congruence|].
  split.
  - intros u v Hu Hv.
    rewrite !Image_get_setslice_scalar_out.
    2,3: simpl; rewrite ?H50, ?H51, ?H40, ?H41;
         rewrite ?Slice_mem_from_end, ?Slice_mem_range_end by lia;
         apply andb_false_iff; rewrite !bool_decide_eq_false; lia.
    rewrite Hget5, H40, H41, Hflo0, Hflo1.
    rewrite !Slice_mem_from_end by lia.
    rewrite !bool_decide_eq_true_2 by lia. simpl.
    destruct (Image_get_is_Some a4 (Image.shape0 a - h + u) (Image.shape1 a - w + v))
      as [x Hx]; [done|lia..|].
    rewrite Hx. simpl. rewrite Hh, Hw.
    replace (Image.shape0 a - h + u - (Image.shape0 a - h))%nat with u by lia.
    replace (Image.shape1 a - w + v - (Image.shape1 a - w))%nat with v by lia.
    rewrite !bindex_lt by done.
    assert (Hud : (u / Z.to_nat scale < Z.to_nat (2 * r0 + 1))%nat).
    { apply Nat.Div0.div_lt_upper_bound. unfold h in Hu.
      rewrite Z2Nat.inj_mul in Hu by lia. lia. }
    assert (Hvd : (v / Z.to_nat scale < Z.to_nat (2 * r1 + 1))%nat).
    { apply Nat.Div0.div_lt_upper_bound. unfold w in Hv.
      rewrite Z2Nat.inj_mul in Hv by lia. lia. }
    rewrite Hinset, Hcrop by done.
    destruct (Image_get_is_Some a (Z.to_nat (c0 - r0) + u / Z.to_nat scale)
                (Z.to_nat (c1 - r1) + v / Z.to_nat scale)) as [y Hy]; [done|lia..|].
    by rewrite Hy.
  - intros i j Hi Hj.
    rewrite !Image_get_setslice_scalar_out.
    2,3: simpl; rewrite ?H50, ?H51, ?H40, ?H41;
         rewrite ?Slice_mem_from_end, ?Slice_mem_range_end by lia;
         apply andb_false_iff; rewrite !bool_decide_eq_false; lia.
    rewrite Hget5, H40, H41.
    rewrite !Slice_mem_from_end by lia.
    replace (bool_decide _ && bool_decide _) with false.
    + by apply Hbox.
    + symmetry. apply andb_false_iff. rewrite !bool_decide_eq_false. lia.
Qed.
End CropInsetFacts.

Lemma ramp_wf n0 n1 : Image.wf (ramp n0 n1).
Proof.
  split; simpl.
  - by rewrite length_fmap, length_seq.
  - apply Forall_fmap, Forall_forall. intros i _. simpl.
    by rewrite length_fmap, length_seq.
Qed.

(** C5.  For an image that satisfies the precondition [inset_fits],
    [crop_inset] returns nothing and replaces the array at [img] by one
    of the same shape in which the bottom-right block of
    [(2 * r0 + 1) * scale] by [(2 * r1 + 1) * scale] cells is the source
    crop of the original with every cell repeated [scale] times along
    both axes, and in which the cells of the crop box are those of the
    original. *)
Theorem crop_inset_in_place {A : Type} (s : Store.t (Image.t A)) (img : Store.loc)
    (a : Image.t A) (c0 c1 r0 r1 scale : Z) (border_value : A) (border_thickness : Z) :
  Store.arrays s !! img = Some a →
  Image.wf a →
  inset_fits a (c0, c1) (r0, r1) scale border_thickness →
  let h := Z.to_nat ((2 * r0 + 1) * scale) in
  let w := Z.to_nat ((2 * r1 + 1) * scale) in
  ∃ a',
    crop_inset img (c0, c1) (r0, r1) scale border_value border_thickness s
    = Store.Return () (Store.Make (<[img := a']> (Store.arrays s)) (Store.headers s))
    ∧ Image.wf a'
    ∧ Image.shape0 a' = Image.shape0 a ∧ Image.shape1 a' = Image.shape1 a
    ∧ (∀ u v : nat, (u < h)%nat → (v < w)%nat →
         Image.get a' (Image.shape0 a - h + u) (Image.shape1 a - w + v)
         = Image.get a (Z.to_nat (c0 - r0) + u / Z.to_nat scale)
                       (Z.to_nat (c1 - r1) + v / Z.to_nat scale))
    ∧ (∀ i j : nat,
         c0 - r0 ≤ Z.of_nat i ≤ c0 + r0 → c1 - r1 ≤ Z.of_nat j ≤ c1 + r1 →
         Image.get a' i j = Image.get a i j).
Proof.
  intros Ha Hwf Hfit h w.
  destruct (crop_inset_array_spec a c0 c1 r0 r1 scale border_value border_thickness
              Hwf Hfit) as (a' & Harr & Hrest).
  exists a'. split; [|exact Hrest].
  rewrite (run_crop_inset s img a) by done. by rewrite Harr.
Qed.

Lemma crop_inset_in_place_witness :
  ∃ a',
    crop_inset 1%positive (3, 4) (1, 1) 2 (-1) 1 ramp_store
    = Store.Return () (Store.Make (<[1%positive := a']> (Store.arrays ramp_store)) ∅)
    ∧ Image.get a' 9 11 = Some 305
    ∧ Image.get a' 3 4 = Some 304.
Proof.
  assert (Hfit : inset_fits (ramp 12 12) (3, 4) (1, 1) 2 1).
  { unfold inset_fits. cbn. lia. }
  destruct (crop_inset_in_place ramp_store 1%positive (ramp 12 12) 3 4 1 1 2 (-1) 1
              eq_refl (ramp_wf 12 12) Hfit) as (a' & Hrun & _ & _ & _ & Hblock & Hbox).
  exists a'. split; [exact Hrun|]. split.
  - exact (Hblock 3%nat 5%nat ltac:(cbn; lia) ltac:(cbn; lia)).
  - exact (Hbox 3%nat 4%nat ltac:(lia) ltac:(lia)).
Defined.

(** * Further properties of the code *)

(** ** [crop] at the edges of the image *)

(** X1.  A window that starts inside the image is cut at the bottom and
    right edges: [crop] returns the part of the window that lies in the
    image, without an error. *)
Lemma crop_truncates {A : Type} (img : Image.t A) (x_c y_c w h : Z) :
  Image.wf img →
  0 ≤ w → 0 ≤ h → 0 ≤ y_c - h / 2 → 0 ≤ x_c - w / 2 →
  let r := crop img x_c y_c w h in
  Image.wf r
  ∧ Z.of_nat (Image.shape0 r)
    = Z.max 0 (Z.min (y_c + h / 2) (Z.of_nat (Image.shape0 img)) - (y_c - h / 2))
  ∧ Z.of_nat (Image.shape1 r)
    = Z.max 0 (Z.min (x_c + w / 2) (Z.of_nat (Image.shape1 img)) - (x_c - w / 2))
  ∧ ∀ i j : nat, (i < Image.shape0 r)%nat → (j < Image.shape1 r)%nat →
      Image.get r i j =
        Image.get img (Z.to_nat (y_c - h / 2) + i) (Z.to_nat (x_c - w / 2) + j).
Proof.
  intros Hwf Hw Hh Hy Hx r.
  assert (Hh2 : 0 ≤ h / 2) by (apply Z.div_pos; lia).
  assert (Hw2 : 0 ≤ w / 2) by (apply Z.div_pos; lia).
  assert (H0 : Z.of_nat (Image.shape0 r)
               = Z.max 0 (Z.min (y_c + h / 2) (Z.of_nat (Image.shape0 img)) - (y_c - h / 2))).
  { unfold r, crop. simpl. unfold Slice.len, Slice.hi, Slice.lo, Slice.range, Slice.index.
    simpl. repeat case_match; lia. }
  assert (H1 : Z.of_nat (Image.shape1 r)
               = Z.max 0 (Z.min (x_c + w / 2) (Z.of_nat (Image.shape1 img)) - (x_c - w / 2))).
  { unfold r, crop. simpl. unfold Slice.len, Slice.hi, Slice.lo, Slice.range, Slice.index.
    simpl. repeat case_match; lia. }
  split; [apply Image_wf_getslice, Hwf|]. split; [done|]. split; [done|].
  intros i j Hi Hj. unfold r, crop in *. rewrite Image_get_getslice.
  simpl in Hi, Hj. rewrite decide_True by done.
  f_equal; unfold Slice.lo, Slice.range, Slice.index; simpl.
  - unfold Slice.len, Slice.hi, Slice.lo, Slice.range, Slice.index in Hi. simpl in Hi.
    repeat case_match; lia.
  - unfold Slice.len, Slice.hi, Slice.lo, Slice.range, Slice.index in Hj. simpl in Hj.
    repeat case_match; lia.
Qed.

Lemma crop_truncates_witness :
  let r := crop (zeros 8 8) 6 7 4 4 in
  Image.wf r
  ∧ Z.of_nat (Image.shape0 r) = 3
  ∧ Z.of_nat (Image.shape1 r) = 4
  ∧ ∀ i j : nat, (i < Image.shape0 r)%nat → (j < Image.shape1 r)%nat →
      Image.get r i j = Image.get (zeros 8 8) (5 + i) (4 + j).
Proof.
  apply (crop_truncates (zeros 8 8) 6 7 4 4 (zeros_wf 8 8)); by vm_compute.
Defined.

(** X2.  A window that fits the image in height but whose centre is
    closer to the top edge than half its height has a negative start
    row, which Python counts from the bottom edge: [crop] returns an
    array without cells.  The same holds for the left edge. *)
Lemma crop_across_top_or_left_is_empty {A : Type} (img : Image.t A) (x_c y_c w h : Z) :
  (0 ≤ y_c ∧ y_c < h / 2 ∧ 2 * (h / 2) ≤ Z.of_nat (Image.shape0 img))
  ∨ (0 ≤ x_c ∧ x_c < w / 2 ∧ 2 * (w / 2) ≤ Z.of_nat (Image.shape1 img)) →
  let r := crop img x_c y_c w h in
  (Image.shape0 r = 0%nat ∨ Image.shape1 r = 0%nat)
  ∧ ∀ i j : nat, Image.get r i j = None.
Proof.
  intros Hedge r.
  assert (Hs : Image.shape0 r = 0%nat ∨ Image.shape1 r = 0%nat).
  { unfold r, crop. simpl. unfold Slice.len, Slice.hi, Slice.lo, Slice.range, Slice.index.
    simpl. destruct Hedge as [(? & ? & ?)|(? & ? & ?)]; [left | right];
      repeat case_match; lia. }
  split; [done|]. intros i j. unfold r, crop in *. rewrite Image_get_getslice.
  simpl in Hs. rewrite decide_False; [done | lia].
Qed.

Lemma crop_across_top_or_left_is_empty_witness :
  let r := crop (zeros 8 8) 4 1 4 4 in
  (Image.shape0 r = 0%nat ∨ Image.shape1 r = 0%nat)
  ∧ ∀ i j : nat, Image.get r i j = None.
Proof.
  apply (crop_across_top_or_left_is_empty (zeros 8 8) 4 1 4 4).
  left. by vm_compute.
Defined.

(** ** [combine_red_green] and broadcasting *)

Lemma bindex_broadcastable n m k :
  Image.broadcastable n m = true → (k < m)%nat → (Image.bindex n k < n)%nat.
Proof.
  unfold Image.broadcastable, Image.bindex. intros Hb Hk.
  destruct (n =? 1)%nat eqn:E1.
  - apply Nat.eqb_eq in E1. lia.
  - rewrite orb_false_r in Hb. apply Nat.eqb_eq in Hb. lia.
Qed.

(** X3.  A second plane of another shape that numpy can broadcast (one
    row, one column, or a single cell) is accepted and spread over
    channel 1: cell [(i, j)] of the channel is the cell of [img2] at
    the same position, or at position 0 along an axis of length 1. *)
Lemma combine_red_green_broadcasts (img1 img2 : Image.t Q) :
  Image.wf img1 → Image.wf img2 →
  broadcast_compatible img2 img1 = true →
  ∃ img, combine_red_green img1 img2 = Ok img
         ∧ Cube.wf img
         ∧ Cube.shape0 img = Image.shape0 img1
         ∧ Cube.shape1 img = Image.shape1 img1
         ∧ Cube.shape2 img = 3%nat
         ∧ ∀ i j, (i < Image.shape0 img1)%nat → (j < Image.shape1 img1)%nat →
             Cube.get img i j 0 = Image.get img1 i j
             ∧ Cube.get img i j 1
               = Image.get img2 (Image.bindex (Image.shape0 img2) i)
                                (Image.bindex (Image.shape1 img2) j)
             ∧ Cube.get img i j 2 = Some 0%Q.
Proof.
  intros Hwf1 Hwf2 Hbc. unfold combine_red_green.
  set (z := Cube.full 0%Q (Image.shape0 img1) (Image.shape1 img1) 3).
  destruct (Cube.set_channel z 0 img1) as [r|e] eqn:Hr.
  2: { exfalso. revert Hr. unfold Cube.set_channel. simpl.
       by rewrite !broadcastable_refl. }
  destruct (Cube_shape_set_channel _ _ _ _ Hr) as (Hr0 & Hr1 & Hr2).
  simpl in Hr0, Hr1, Hr2. cbn [mbind result_bind].
  destruct (Cube.set_channel r 1 img2) as [g|e] eqn:Hg.
  2: { exfalso. revert Hg. unfold Cube.set_channel.
       rewrite Hr0, Hr1, Hr2. simpl.
       unfold broadcast_compatible in Hbc. by rewrite Hbc. }
  destruct (Cube_shape_set_channel _ _ _ _ Hg) as (Hg0 & Hg1 & Hg2).
  exists g. split; [done|]. split.
  { eapply Cube_wf_set_channel; [exact Hg|].
    eapply Cube_wf_set_channel; [exact Hr|]. apply Cube_wf_full. }
  split; [congruence|]. split; [congruence|]. split; [congruence|].
  intros i j Hi Hj.
  unfold broadcast_compatible in Hbc. apply andb_true_iff in Hbc. destruct Hbc as [Hb0 Hb1].
  destruct (Image_get_is_Some img1 i j Hwf1 Hi Hj) as [v1 Hv1].
  destruct (Image_get_is_Some img2 (Image.bindex (Image.shape0 img2) i)
              (Image.bindex (Image.shape1 img2) j) Hwf2) as [v2 Hv2].
  { by eapply bindex_broadcastable. }
  { by eapply bindex_broadcastable. }
  assert (Hcell : Cube.cell g i j =
            Some (<[1%nat := v2]> (<[0%nat := v1]> (replicate 3 0%Q)))).
  { rewrite (Cube_cell_set_channel _ _ _ _ _ _ Hg).
    rewrite (Cube_cell_set_channel _ _ _ _ _ _ Hr).
    unfold z. rewrite Cube_cell_full by done. simpl.
    rewrite (bindex_lt (Image.shape0 img1) i), (bindex_lt (Image.shape1 img1) j) by lia. by rewrite Hv1, Hv2. }
  unfold Cube.get. rewrite Hcell, Hv1, Hv2. done.
Qed.

Lemma combine_red_green_broadcasts_witness :
  ∃ img, combine_red_green (Image.Make 2 2 [[1; 2]; [3; 4]]%Q)
                           (Image.Make 1 2 [[5; 6]]%Q) = Ok img
         ∧ Cube.get img 1 0 0 = Some 3%Q
         ∧ Cube.get img 1 0 1 = Some 5%Q
         ∧ Cube.get img 1 1 1 = Some 6%Q.
Proof.
  assert (Hwf1 : Image.wf (Image.Make 2 2 [[1; 2]; [3; 4]]%Q))
    by (split; [reflexivity | repeat constructor]).
  assert (Hwf2 : Image.wf (Image.Make 1 2 [[5; 6]]%Q))
    by (split; [reflexivity | repeat constructor]).
  destruct (combine_red_green_broadcasts _ _ Hwf1 Hwf2 eq_refl)
    as (img & Himg & _ & _ & _ & _ & Hget).
  exists img. split; [exact Himg|].
  destruct (Hget 1%nat 0%nat ltac:(simpl; lia) ltac:(simpl; lia)) as (H0 & H1 & _).
  destruct (Hget 1%nat 1%nat ltac:(simpl; lia) ltac:(simpl; lia)) as (_ & H1' & _).
  split; [exact H0|]. split; [exact H1 | exact H1'].
Defined.

(** ** The midtone transfer function as a tone curve *)

(** X4.  In exact arithmetic, the midtone balance is the input that
    [mtf] maps to one half. *)
Lemma mtf_midtone (m : Q) :
  (0 < m)%Q → (m < 1)%Q → (mtf m m == 1 # 2)%Q.
Proof. intros Hm0 Hm1. unfold mtf. field. nra. Qed.

Lemma mtf_midtone_witness : (mtf (1 # 4) (1 # 4) == 1 # 2)%Q.
Proof. apply mtf_midtone; reflexivity. Defined.

(** X5.  On the unit interval, [mtf] with balance [1 - m] undoes [mtf]
    with balance [m]. *)
Lemma mtf_inverse (x m : Q) :
  (0 < m)%Q → (m < 1)%Q → (0 <= x)%Q → (x <= 1)%Q →
  (mtf (mtf x m) (1 - m) == x)%Q.
Proof.
  intros Hm0 Hm1 Hx0 Hx1.
  pose proof (mtf_den_neg x m Hm0 Hm1 Hx0 Hx1) as Hd. unfold mtf_den in Hd.
  unfold mtf. field. split; [lra|].
  assert (He : ((2 * (1 - m) - 1) * ((m - 1) * x) - (1 - m) * ((2 * m - 1) * x - m)
                == m * (1 - m))%Q) by ring.
  rewrite He. nra.
Qed.

Lemma mtf_inverse_witness : (mtf (mtf (1 # 3) (1 # 4)) (1 - (1 # 4)) == 1 # 3)%Q.
Proof. apply mtf_inverse; (reflexivity || discriminate). Defined.

(** X6.  In exact arithmetic, for a balance strictly between 0 and 1,
    [mtf] is increasing on the unit interval: the formula does not swap
    the order of two pixel values. *)
Lemma mtf_monotone (x y m : Q) :
  (0 < m)%Q → (m < 1)%Q → (0 <= x)%Q → (x <= y)%Q → (y <= 1)%Q →
  (mtf x m <= mtf y m)%Q.
Proof.
  intros Hm0 Hm1 Hx0 Hxy Hy1.
  assert (Hdx : (mtf_den x m < 0)%Q) by (apply mtf_den_neg; lra).
  assert (Hdy : (mtf_den y m < 0)%Q) by (apply mtf_den_neg; lra).
  assert (Hdiff : ((mtf y m - mtf x m) * (mtf_den x m * mtf_den y m)
                   == m * (1 - m) * (y - x))%Q).
  { unfold mtf, mtf_den in *. field. split; lra. }
  assert (Hpos : (0 < mtf_den x m * mtf_den y m)%Q) by nra.
  assert (Hrhs : (0 <= m * (1 - m) * (y - x))%Q).
  { apply Qmult_le_0_compat; [apply Qmult_le_0_compat|]; lra. }
  rewrite <- Hdiff in Hrhs.
  set (d := (mtf_den x m * mtf_den y m)%Q) in *.
  set (e := (mtf y m - mtf x m)%Q) in *.
  assert (0 <= e)%Q; [|unfold e in *; lra].
  destruct (Qlt_le_dec e 0) as [Hneg|]; [|done]. exfalso. nra.
Qed.

Lemma mtf_monotone_witness : (mtf (1 # 3) (1 # 4) <= mtf (1 # 2) (1 # 4))%Q.
Proof. apply mtf_monotone; (reflexivity || discriminate). Defined.

(** ** [ht]: the stretch and its failure on an empty array *)

Lemma ht_stretches_elem (lo hi m v : Q) :
  (0 < m)%Q → (m < 1)%Q → (lo < hi)%Q →
  ht_stretches lo hi m v (mtf ((Np.clip lo hi v - lo) / (hi - lo)) m).
Proof.
  intros Hm0 Hm1 Hlh. unfold ht_stretches, Np.clip.
  set (c := Qmin (Qmax v lo) hi).
  assert (Hlo : (v <= lo)%Q → (c == lo)%Q).
  { intros Hv. unfold c. rewrite (Q.max_r v lo) by done. apply Q.min_l. lra. }
  assert (Hhi : (hi <= v)%Q → (c == hi)%Q).
  { intros Hv. unfold c. rewrite (Q.max_l v lo) by lra. by apply Q.min_r. }
  assert (Hmid : (lo <= v)%Q → (v <= hi)%Q → (c == v)%Q).
  { intros H1 H2. unfold c. rewrite (Q.max_l v lo) by done. by apply Q.min_l. }
  clearbody c. unfold mtf. split; [|split].
  - intros Hv. rewrite (Hlo Hv). field. split; [lra|].
    assert (He : ((2 * m - 1) * (lo - lo) - m * (hi - lo) == - m * (hi - lo))%Q) by ring.
    rewrite He. nra.
  - intros Hv. rewrite (Hhi Hv). field. split; lra.
  - intros Hv.
    assert (Hin : (lo <= v)%Q ∧ (v <= hi)%Q) by (rewrite Hv; split; nra).
    rewrite (Hmid (proj1 Hin) (proj2 Hin)).
    assert (Hr : ((v - lo) / (hi - lo) == m)%Q) by (rewrite Hv; field; lra).
    rewrite Hr. field. nra.
Qed.

(** X7.  In exact arithmetic, on an array of finite values, for a balance
    strictly between 0 and 1 and bounds [lo < hi], [ht] returns an array
    of the shape of its input in which every element at or below [lo]
    has become 0, every element at or above [hi] has become 1, and an
    element at [lo + m * (hi - lo)] has become one half. *)
Lemma ht_stretch (arr : ndarray Q) (m : Q) (low high : option Q) (shadow_clipping : bool)
    (lo hi : Q) :
  (0 < m)%Q → (m < 1)%Q →
  ht_bounds arr low high shadow_clipping = Ok (Some lo, hi) → (lo < hi)%Q →
  ∃ y, ht arr m low high shadow_clipping = Ok y
       ∧ Nd.Forall2 (ht_stretches lo hi m) arr y.
Proof.
  intros Hm0 Hm1 Hb Hlh. unfold ht. rewrite Hb. cbn [mbind result_bind].
  eexists. split; [done|]. rewrite !Nd_map_map.
  apply Nd_Forall2_map. apply Forall_forall. intros v _. simpl.
  by apply ht_stretches_elem.
Qed.

Lemma ht_stretch_witness :
  ∃ y, ht (Nd2 (Image.Make 1 3 [[0; 1; 4]%Q])) (1 # 4) None None false = Ok y
       ∧ Nd.Forall2 (ht_stretches 0 4 (1 # 4)) (Nd2 (Image.Make 1 3 [[0; 1; 4]%Q])) y.
Proof.
  apply (ht_stretch (Nd2 (Image.Make 1 3 [[0; 1; 4]%Q])) (1 # 4) None None false 0 4);
    reflexivity.
Defined.

(** X8.  On an array without elements [ht] raises [ValueError] whenever
    it has to compute the upper bound, or the lower bound as a minimum. *)
Lemma ht_empty (x : ndarray Q) (m : Q) (low high : option Q) (shadow_clipping : bool) :
  Nd.flat x = [] →
  ht x m low None shadow_clipping = Raise ValueError
  ∧ ht x m None high false = Raise ValueError.
Proof.
  intros Hx. unfold ht, ht_bounds, Np.amin, Np.amax. rewrite Hx.
  split; [|done]. destruct low; [done|]. by destruct shadow_clipping.
Qed.

Lemma ht_empty_witness :
  ht (Nd2 (Image.Make 0 5 [])) (1 # 4) (Some 0%Q) None true = Raise ValueError
  ∧ ht (Nd2 (Image.Make 0 5 [])) (1 # 4) None (Some 1%Q) false = Raise ValueError.
Proof. by apply (ht_empty (Nd2 (Image.Make 0 5 []))). Defined.

(** ** Files: channels, saturation, headers *)

Section CubeAxesBack.
Context {A : Type}.
Implicit Types (a : Cube.t A).

Lemma Cube_get_moveaxis_0_2 a j k i :
  Cube.wf a → (i < Cube.shape0 a)%nat → (j < Cube.shape1 a)%nat →
  (k < Cube.shape2 a)%nat →
  Cube.get (Cube.moveaxis_0_2 a) j k i = Cube.get a i j k.
Proof.
  intros Hwf Hi Hj Hk. unfold Cube.get at 1. unfold Cube.cell, Cube.moveaxis_0_2. simpl.
  rewrite list_lookup_fmap, lookup_seq_lt by done. simpl.
  rewrite list_lookup_fmap, lookup_seq_lt by done. simpl.
  rewrite lookup_omap_seq; [done| |done].
  intros i' Hi'. apply Cube_get_wf; (done || lia).
Qed.

Lemma Cube_wf_moveaxis_0_2 a : Cube.wf a → Cube.wf (Cube.moveaxis_0_2 a).
Proof.
  intros Hwf. split; simpl; [by rewrite length_fmap, length_seq|].
  apply Forall_fmap, Forall_forall. intros j Hj. apply elem_of_seq in Hj. simpl.
  split; [by rewrite length_fmap, length_seq|].
  apply Forall_fmap, Forall_forall. intros k Hk. apply elem_of_seq in Hk. simpl.
  apply length_omap_seq. intros i Hi. apply Cube_get_wf; (done || lia).
Qed.

(** Moving the first axis last and the last axis first again gives the
    array back. *)
Lemma Cube_moveaxis_round_trip_back a :
  Cube.wf a → Cube.moveaxis_2_0 (Cube.moveaxis_0_2 a) = a.
Proof.
  intros Hwf. destruct a as [n0 n1 n2 planes].
  unfold Cube.moveaxis_2_0. cbn [Cube.shape0 Cube.shape1 Cube.shape2 Cube.moveaxis_0_2].
  f_equal.
  pose proof Hwf as [Hlen Hp]. simpl in Hlen, Hp.
  apply tabulate_eq; [done|]. intros i p Hpi.
  assert (Hi : (i < n0)%nat) by (apply lookup_lt_Some in Hpi; lia).
  destruct (Forall_lookup_1 _ _ _ _ Hp Hpi) as [Hl Hr].
  apply tabulate_eq; [done|]. intros j r Hrj.
  assert (Hj : (j < n1)%nat) by (apply lookup_lt_Some in Hrj; lia).
  pose proof (Forall_lookup_1 _ _ _ _ Hr Hrj) as Hrl.
  rewrite (omap_ext_seq _ (λ k, r !! k)).
  - by apply omap_lookup_seq.
  - intros k Hk.
    change (Cube.Make n1 n2 n0 _) with (Cube.moveaxis_0_2 (Cube.Make n0 n1 n2 planes)).
    rewrite (Cube_get_moveaxis_0_2 (Cube.Make n0 n1 n2 planes)); [|done|simpl; lia..].
    unfold Cube.get, Cube.cell. simpl. rewrite Hpi. simpl. by rewrite Hrj.
Qed.
End CubeAxesBack.

Lemma moveaxis_round_trip_back {A : Type} (x : ndarray A) :
  Nd.wf x → moveaxis_2_0_if_rank3 (moveaxis_0_2_if_rank3 x) = x.
Proof.
  destruct x as [a|a]; simpl; [done|]. intros Hwf.
  by rewrite Cube_moveaxis_round_trip_back.
Qed.

(** X9.  A colour file holds its channels first, and reading it moves
    them last: from data of shape (C, H, W), of samples that are
    [uint16] or floats, [read_fits_as_float] returns a well-formed array
    of shape (H, W, C) whose element [(i, j, k)] is the sample
    [(k, i, j)] of the file, divided by 65535 when the samples are
    [uint16]. *)
Lemma read_fits_channels_last {filesystem : Type}
    (fits_open : string → filesystem → option hdu)
    (filepath : string) (fs : filesystem) (dt : dtype) (b : Cube.t Q) (h : Header) :
  fits_open filepath fs = Some (PrimaryHDU dt (Nd3 b) h) →
  dt ≠ other_dtype → Cube.wf b →
  ∃ a, read_fits_as_float fits_open filepath fs = Ok (Nd3 a, h)
       ∧ Cube.wf a
       ∧ Cube.shape0 a = Cube.shape1 b
       ∧ Cube.shape1 a = Cube.shape2 b
       ∧ Cube.shape2 a = Cube.shape0 b
       ∧ ∀ i j k, (i < Cube.shape1 b)%nat → (j < Cube.shape2 b)%nat →
                  (k < Cube.shape0 b)%nat →
           Cube.get a i j k = sample_to_float dt <$> Cube.get b k i j.
Proof.
  intros Hopen Hdt Hwf. unfold read_fits_as_float. rewrite Hopen.
  destruct dt; [| |done]; simpl; (eexists; split; [done|]).
  - split; [by apply Cube_wf_moveaxis_0_2, Cube_wf_map|]. split; [done|].
    split; [done|]. split; [done|]. intros i j k Hi Hj Hk.
    rewrite Cube_get_moveaxis_0_2 by (done || by apply Cube_wf_map).
    by rewrite Cube_get_map.
  - split; [by apply Cube_wf_moveaxis_0_2|]. split; [done|].
    split; [done|]. split; [done|]. intros i j k Hi Hj Hk.
    rewrite Cube_get_moveaxis_0_2 by done. by destruct (Cube.get b k i j).
Qed.

Lemma read_fits_channels_last_witness :
  ∃ a, read_fits_as_float map_open "rgb.fits" colour_file = Ok (Nd3 a, ∅)
       ∧ Cube.shape0 a = 1%nat ∧ Cube.shape1 a = 2%nat ∧ Cube.shape2 a = 3%nat
       ∧ Cube.get a 0 1 0 = Some (65535 / 65535)%Q.
Proof.
  destruct (read_fits_channels_last map_open "rgb.fits" colour_file uint16
              (Cube.Make 3 1 2 [[[0; 65535]]; [[1; 2]]; [[3; 4]]]%Q) ∅)
    as (a & Hread & _ & H0 & H1 & H2 & Hget).
  - reflexivity.
  - discriminate.
  - split; [reflexivity|]. repeat constructor.
  - exists a. split; [exact Hread|]. split; [exact H0|]. split; [exact H1|].
    split; [exact H2|]. apply (Hget 0%nat 1%nat 0%nat); simpl; lia.
Defined.

(** X10.  Reading a file of floats and saving the array unconverted writes
    the data that the file held, whatever the header and the path. *)
Lemma read_save_float_file {filesystem : Type}
    (fits_open : string → filesystem → option hdu)
    (fits_writeto : hdu → string → filesystem → filesystem)
    (filepath : string) (fs : filesystem) (b : ndarray Q) (h : Header) :
  fits_open filepath fs = Some (PrimaryHDU float64 b h) →
  Nd.wf b →
  ∃ img, read_fits_as_float fits_open filepath fs = Ok (img, h)
         ∧ ∀ header' filepath' fs',
             save_as_fits fits_writeto img header' filepath' false fs'
             = fits_writeto (PrimaryHDU float64 b header') filepath' fs'.
Proof.
  intros Hopen Hwf. unfold read_fits_as_float. rewrite Hopen. simpl.
  eexists. split; [done|]. intros header' filepath' fs'.
  unfold save_as_fits. by rewrite moveaxis_round_trip_back.
Qed.

Lemma read_save_float_file_witness :
  ∃ img, read_fits_as_float map_open "rgb.fits" float_file = Ok (img, features_header)
         ∧ ∀ header' filepath' fs',
             save_as_fits map_writeto img header' filepath' false fs'
             = map_writeto
                 (PrimaryHDU float64
                    (Nd3 (Cube.Make 3 1 2 [[[0; 1]]; [[1 # 2; 1 # 3]]; [[1 # 4; 1 # 5]]]%Q))
                    header') filepath' fs'.
Proof.
  apply (read_save_float_file map_open map_writeto "rgb.fits" float_file).
  - reflexivity.
  - split; [reflexivity|]. repeat constructor.
Defined.

Lemma quantise_saturated (v : Q) :
  saturated v (astype_uint16 (Np.clip 0 1 v * 65535) / 65535).
Proof.
  unfold saturated, within_step, astype_uint16.
  set (c := Np.clip 0 1 v).
  assert (Hc : (0 <= c)%Q ∧ (c <= 1)%Q).
  { unfold c, Np.clip. split; [|apply Q.le_min_r].
    apply Q.min_glb; [apply Q.le_max_r | lra]. }
  assert (Hc0 : (v <= 0)%Q → (c == 0)%Q).
  { intros Hv. unfold c, Np.clip. rewrite (Q.max_r v 0) by done. by apply Q.min_l. }
  assert (Hc1 : (1 <= v)%Q → (c == 1)%Q).
  { intros Hv. unfold c, Np.clip. rewrite (Q.max_l v 0) by lra. by apply Q.min_r. }
  clearbody c. destruct Hc as [Hcl Hch].
  assert (Hy : (0 <= c * 65535)%Q) by nra.
  destruct (trunc_floor (c * 65535) Hy) as [Hlo Hhi].
  set (t := trunc (c * 65535)) in *.
  assert (Ht0 : 0 ≤ t).
  { apply Z.lt_succ_r. rewrite (Zlt_Qlt 0 (Z.succ t)).
    unfold Z.succ. rewrite inject_Z_plus. change (inject_Z 0) with 0%Q.
    change (inject_Z 1) with 1%Q. lra. }
  assert (Ht1 : t ≤ 65535).
  { rewrite (Zle_Qle t 65535). change (inject_Z 65535) with 65535%Q. nra. }
  rewrite Z.mod_small by lia.
  assert (HT0 : (0 <= inject_Z t)%Q) by (by rewrite (Zle_Qle 0 t) in Ht0).
  assert (HT1 : (inject_Z t <= 65535)%Q) by (by rewrite (Zle_Qle t 65535) in Ht1).
  assert (Hz : (c == 0)%Q → (inject_Z t == 0)%Q).
  { intros Hcz. rewrite Hcz in Hlo. lra. }
  assert (Ho : (c == 1)%Q → (inject_Z t == 65535)%Q).
  { intros Hco. rewrite Hco in Hhi.
    assert (Hlt : 65535 < t + 1).
    { rewrite (Zlt_Qlt 65535 (t + 1)), inject_Z_plus.
      change (inject_Z 65535) with 65535%Q. change (inject_Z 1) with 1%Q. lra. }
    assert (t = 65535) as -> by lia. reflexivity. }
  set (T := inject_Z t) in *. clearbody T.
  change (1 / 65535)%Q with (1 # 65535)%Q.
  change (T / 65535)%Q with (T * (1 # 65535))%Q.
  split; [split; lra|]. split; [apply Qabs_Qle_condition; lra|].
  split.
  - intros Hv. rewrite (Hz (Hc0 Hv)). reflexivity.
  - intros Hv. rewrite (Ho (Hc1 Hv)). reflexivity.
Qed.

(** X11.  With a codec that reads back what it wrote, any array of finite
    values (no NaN, no infinity), saved with [convert_to_uint16] and
    read again, comes back with its shape and with every element in
    [[0, 1]], within [1/65535] of the original clipped to [[0, 1]], in
    exact arithmetic: an element at or below 0 comes back as 0 and one
    at or above 1 as 1. *)
Lemma save_read_saturates {filesystem : Type}
    (fits_open : string → filesystem → option hdu)
    (fits_writeto : hdu → string → filesystem → filesystem)
    (x : ndarray Q) (header : Header) (filepath : string) (fs : filesystem) :
  codec_lossless fits_open fits_writeto →
  Nd.wf x →
  ∃ y header',
    read_fits_as_float fits_open filepath
      (save_as_fits fits_writeto x header filepath true fs) = Ok (y, header')
    ∧ Nd.Forall2 saturated x y.
Proof.
  intros Hcodec Hwf. unfold save_as_fits, read_fits_as_float.
  destruct (Hcodec (PrimaryHDU uint16
              (moveaxis_2_0_if_rank3
                 (Nd.map (λ v, astype_uint16 (Np.clip 0 1 v * 65535)) x))
              header) filepath fs) as [header' ->].
  simpl. eexists _, header'. split; [done|].
  rewrite map_moveaxis_2_0, Nd_map_map.
  rewrite moveaxis_round_trip by (by apply Nd_wf_map).
  apply Nd_Forall2_map. apply Forall_forall. intros v _. apply quantise_saturated.
Qed.

Lemma save_read_saturates_witness :
  ∃ y header',
    read_fits_as_float map_open "frame.fits"
      (save_as_fits map_writeto bright_frame ∅ "frame.fits" true ∅) = Ok (y, header')
    ∧ Nd.Forall2 saturated bright_frame y.
Proof.
  apply (save_read_saturates map_open map_writeto bright_frame ∅ "frame.fits" ∅
           map_codec_lossless).
  split; [reflexivity|]. repeat constructor.
Defined.

(** ** [remove_pedestal]: a card that is not a number, and the sign of
    the result *)

(** X13.  A [PEDESTAL] card that holds a string makes [remove_pedestal]
    raise [TypeError] before it has changed anything: the card is still
    in the header and no array has been created. *)
Lemma remove_pedestal_string_card (s : Store.t (ndarray Q)) (img header : Store.loc)
    (h : Header) (t : string) :
  Store.headers s !! header = Some h →
  h !! "PEDESTAL"%string = Some (VStr t) →
  remove_pedestal img header s = Store.Throw TypeError s.
Proof.
  intros Hh Hv. unfold remove_pedestal. run_store. rewrite Hh. simpl. by rewrite Hv.
Qed.

Lemma remove_pedestal_string_card_witness :
  remove_pedestal 1%positive 1%positive text_pedestal_store
  = Store.Throw TypeError text_pedestal_store.
Proof.
  apply (remove_pedestal_string_card text_pedestal_store 1%positive 1%positive
           (<["PEDESTAL"%string := VStr "655"]> pedestal_header) "655"%string);
    reflexivity.
Defined.



(** ** [extract_subheader] and [combine_headers] *)

Section DictFacts.
Context {V : Type}.
Implicit Types (d : list (string * V)) (k : string).

Lemma dict_setitem_keys d k x :
  (dict_setitem d k x).*1 = if bool_decide (k ∈ d.*1) then d.*1 else d.*1 ++ [k].
Proof.
  induction d as [|[k' x'] d IH]; [done|]. cbn [dict_setitem].
  destruct (decide (k' = k)) as [->|Hne].
  - rewrite bool_decide_eq_true_2 by (by left). done.
  - rewrite !fmap_cons, IH. cbn [fst].
    destruct (decide (k ∈ d.*1)) as [Hin|Hin].
    + rewrite !bool_decide_eq_true_2 by (done || by right). done.
    + rewrite (bool_decide_eq_false_2 (k ∈ d.*1)) by done.
      rewrite bool_decide_eq_false_2; [done|].
      rewrite elem_of_cons. naive_solver.
Qed.

Lemma dict_setitem_NoDup d k x : NoDup d.*1 → NoDup (dict_setitem d k x).*1.
Proof.
  intros Hd. rewrite dict_setitem_keys. case_bool_decide; [done|].
  apply NoDup_app. split; [done|]. split; [|apply NoDup_singleton].
  intros k' Hk' ->%list_elem_of_singleton. done.
Qed.

Lemma dict_setitem_lookup d k x :
  (list_to_map (dict_setitem d k x) : gmap string V) = <[k := x]> (list_to_map d).
Proof.
  induction d as [|[k' x'] d IH]; [done|]. cbn [dict_setitem].
  destruct (decide (k' = k)) as [->|Hne]; cbn [list_to_map foldr uncurry].
  - by rewrite insert_insert_eq.
  - simpl. rewrite IH. by apply insert_insert_ne.
Qed.

Lemma dict_setitem_fmap {W : Type} (f : V → W) d k x :
  dict_setitem (prod_map id f <$> d) k (f x) = prod_map id f <$> dict_setitem d k x.
Proof.
  induction d as [|[k' x'] d IH]; [done|].
  rewrite fmap_cons. cbn [dict_setitem prod_map fst snd id].
  destruct (decide (k' = k)); [done|]. by rewrite fmap_cons, IH.
Qed.

Lemma dict_setitem_Forall (P : string * V → Prop) d k x :
  Forall P d → P (k, x) → Forall P (dict_setitem d k x).
Proof.
  intros Hd Hk. induction Hd as [|[k' x'] d Hk' Hd IH]; cbn [dict_setitem].
  - by constructor.
  - destruct (decide (k' = k)); constructor; done.
Qed.
End DictFacts.


Section HeaderFacts.
Context {item : Type}.
Variable plain : value → item.
Variable header_keys : Header → list string.
Variable header_getitem : Header → string → result item.
Variable Header_of_dict : list (string * item) → result Header.
Hypothesis api : header_is_map plain header_keys header_getitem Header_of_dict.

Lemma copy_cards_fold header keys kv_dict :
  copy_cards header_getitem header keys kv_dict
  = foldl (copy_step header_getitem header) (Ok kv_dict) keys.
Proof. done. Qed.

Lemma copy_loop_raise header keys e :
  foldl (copy_step header_getitem header) (Raise e) keys = Raise e.
Proof. induction keys as [|k keys IH]; [done|]. apply IH. Qed.

(** The loop over keywords the header has: the dict gets their cards,
    the later ones replacing the earlier. *)
Lemma copy_cards_present header keys (d : list (string * value)) :
  standard_header header →
  Forall (λ k, is_Some (header !! k)) keys →
  NoDup d.*1 → Forall standard_card d →
  ∃ d' : list (string * value),
    copy_cards header_getitem header keys (prod_map id plain <$> d)
    = Ok (prod_map id plain <$> d')
    ∧ (list_to_map d' : Header) = filter (λ kv, kv.1 ∈ keys) header ∪ list_to_map d
    ∧ NoDup d'.*1
    ∧ Forall standard_card d'.
Proof.
  destruct api as (_ & Hget & _). rewrite copy_cards_fold. intros Hh.
  revert d. induction keys as [|k keys IH]; intros d HF Hnd Hstd.
  - exists d. split; [done|]. split; [|done].
    apply map_eq. intros k. rewrite lookup_union, map_lookup_filter.
    destruct (header !! k) as [v|]; simpl; by destruct (list_to_map d !! k).
  - inversion HF as [|? ? [v Hv] HF']; subst. cbn [foldl].
    destruct (Hh k v Hv) as [Hk Hcv]. cbn [fst snd] in Hk, Hcv.
    unfold copy_step at 2. cbn [mbind result_bind].
    rewrite (Hget header k Hk), Hv. cbn [mbind result_bind].
    rewrite dict_setitem_fmap.
    destruct (IH (dict_setitem d k v) HF') as (d' & -> & Hmap & Hnd' & Hstd').
    { by apply dict_setitem_NoDup. }
    { by apply dict_setitem_Forall. }
    exists d'. split; [done|]. split; [|done].
    rewrite Hmap, dict_setitem_lookup. apply map_eq. intros k'.
    rewrite !lookup_union, !map_lookup_filter. simpl.
    destruct (decide (k' = k)) as [->|Hne];
      [rewrite lookup_insert_eq, Hv
      |rewrite lookup_insert_ne by done; destruct (header !! k')];
      simpl; repeat case_guard; simpl;
      try (destruct (list_to_map d !! _); done);
      exfalso; set_solver.
Qed.

(** The loop over standard keywords one of which the header lacks. *)
Lemma copy_loop_missing header keys (acc : result (list (string * item))) :
  Forall (λ k, standard_keyword k = true) keys →
  Exists (λ k, header !! k = None) keys →
  ∃ e, foldl (copy_step header_getitem header) acc keys = Raise e
       ∧ (acc = Raise e ∨ e = KeyError).
Proof.
  destruct api as (_ & Hget & _).
  revert acc. induction keys as [|k keys IH]; intros acc Hstd HE; [by inversion HE|].
  inversion Hstd as [|? ? Hk Hstd']; subst.
  cbn [foldl]. destruct acc as [kv|e].
  2:{ exists e. split; [|by left]. apply copy_loop_raise. }
  unfold copy_step at 2. cbn [mbind result_bind]. rewrite (Hget header k Hk).
  destruct (header !! k) as [v|] eqn:Hv; cbn [mbind result_bind].
  - inversion HE as [? ? Hk'|? ? HE']; subst; [congruence|].
    destruct (IH (Ok (dict_setitem kv k (plain v))) Hstd' HE') as (e & -> & Hor).
    exists e. split; [done|]. right. by destruct Hor as [?| ->].
  - exists KeyError. split; [apply copy_loop_raise | by right].
Qed.

(** [extract_subheader] restricts the header to the keys, when it has
    them all, and raises otherwise. *)
Lemma extract_subheader_present header keys :
  standard_header header →
  Forall (λ k, is_Some (header !! k)) keys →
  extract_subheader header_getitem Header_of_dict header keys
  = Ok (filter (λ kv, kv.1 ∈ keys) header).
Proof.
  intros Hh HF. unfold extract_subheader.
  destruct (copy_cards_present header keys [] Hh HF) as (d' & Hcopy & Hmap & Hnd & Hstd);
    [constructor..|].
  change (@nil (string * item)) with (prod_map id plain <$> @nil (string * value)).
  rewrite Hcopy. cbn [mbind result_bind].
  destruct api as (_ & _ & Hmake). rewrite (Hmake d' Hstd Hnd). cbn [mbind result_bind].
  rewrite Hmap. cbn [list_to_map foldr]. by rewrite (right_id_L ∅ (∪)).
Qed.

Lemma extract_subheader_absent header keys :
  Forall (λ k, standard_keyword k = true) keys →
  Exists (λ k, header !! k = None) keys →
  extract_subheader header_getitem Header_of_dict header keys = Raise KeyError.
Proof.
  intros Hstd HE. unfold extract_subheader. rewrite copy_cards_fold.
  destruct (copy_loop_missing header keys (Ok []) Hstd HE) as (e & -> & Hor).
  destruct Hor as [?| ->]; [discriminate | done].
Qed.

Lemma extract_subheader_Ok_inv header subheader keys :
  standard_header header →
  Forall (λ k, standard_keyword k = true) keys →
  extract_subheader header_getitem Header_of_dict header keys = Ok subheader →
  subheader = filter (λ kv, kv.1 ∈ keys) header.
Proof.
  intros Hh Hstd He.
  destruct (decide (Forall (λ k, is_Some (header !! k)) keys)) as [HF|HF].
  - rewrite extract_subheader_present in He by done. congruence.
  - apply not_Forall_Exists in HF; [|apply _].
    rewrite extract_subheader_absent in He; [done|done|].
    eapply Exists_impl; [exact HF|]. intros k Hk. simpl in Hk.
    destruct (header !! k); [|done]. exfalso. apply Hk. by eexists.
Qed.

Lemma lookup_filter_keys (header : Header) (keys : list string) (k : string) :
  filter (λ kv, kv.1 ∈ keys) header !! k
  = if bool_decide (k ∈ keys) then header !! k else None.
Proof.
  rewrite map_lookup_filter.
  destruct (header !! k) as [v|]; simpl; [|by case_bool_decide].
  case_bool_decide; [by rewrite option_guard_True | by rewrite option_guard_False].
Qed.

Lemma header_keys_spec h k : k ∈ header_keys h ↔ is_Some (h !! k).
Proof.
  destruct api as (Hkeys & _). rewrite (Hkeys h), list_elem_of_fmap. split.
  - intros [[k' v] [-> Hin]]. apply elem_of_map_to_list in Hin. by eexists.
  - intros [v Hv]. exists (k, v). split; [done|]. by apply elem_of_map_to_list.
Qed.

Lemma filter_header_keys h : filter (λ kv, kv.1 ∈ header_keys h) h = h.
Proof.
  apply map_eq. intros k. rewrite lookup_filter_keys.
  case_bool_decide as Hk; [done|].
  destruct (h !! k) eqn:Hv; [|done]. exfalso. apply Hk, header_keys_spec. by eexists.
Qed.

(** [combine_headers] of standard headers is the union that prefers
    [header2]. *)
Lemma combine_headers_union h1 h2 :
  standard_header h1 → standard_header h2 →
  combine_headers header_keys header_getitem Header_of_dict h1 h2 = Ok (h2 ∪ h1).
Proof.
  intros H1 H2. unfold combine_headers.
  assert (Hk : ∀ h, Forall (λ k, is_Some (h !! k)) (header_keys h)).
  { intros h. apply Forall_forall. intros k Hin. by apply header_keys_spec in Hin. }
  destruct (copy_cards_present h1 (header_keys h1) [] H1 (Hk h1))
    as (d1 & Hcopy1 & Hmap1 & Hnd1 & Hstd1); [constructor..|].
  change (@nil (string * item)) with (prod_map id plain <$> @nil (string * value)).
  rewrite Hcopy1. cbn [mbind result_bind].
  destruct (copy_cards_present h2 (header_keys h2) d1 H2 (Hk h2) Hnd1 Hstd1)
    as (d2 & Hcopy2 & Hmap2 & Hnd2 & Hstd2).
  rewrite Hcopy2. cbn [mbind result_bind].
  destruct api as (_ & _ & Hmake). rewrite (Hmake d2 Hstd2 Hnd2). cbn [mbind result_bind].
  rewrite Hmap2, Hmap1, !filter_header_keys. cbn [list_to_map foldr].
  by rewrite (right_id_L ∅ (∪)).
Qed.

Lemma standard_header_union h1 h2 :
  standard_header h1 → standard_header h2 → standard_header (h2 ∪ h1).
Proof.
  intros H1 H2 k v Hv. apply lookup_union_Some_raw in Hv.
  destruct Hv as [Hv|[_ Hv]]; [by apply H2 | by apply H1].
Qed.

Lemma standard_header_filter (P : string * value → Prop) `{∀ x, Decision (P x)} h :
  standard_header h → standard_header (filter P h).
Proof.
  intros Hh k v Hv. apply map_lookup_filter_Some in Hv. destruct Hv as [Hv _].
  by apply Hh.
Qed.

(** X15.  Given that astropy's [Header] acts as a map on standard
    keywords ([header_is_map]): for a header of standard cards that has
    every requested keyword, [extract_subheader] returns a header that
    has exactly the requested keywords, each with the value it has in
    the header. *)
Lemma extract_subheader_lookup (header : Header) (keys : list string) :
  standard_header header →
  Forall (λ k, is_Some (header !! k)) keys →
  ∃ subheader,
    extract_subheader header_getitem Header_of_dict header keys = Ok subheader
    ∧ ∀ k, subheader !! k = if bool_decide (k ∈ keys) then header !! k else None.
Proof.
  intros Hh HF. rewrite extract_subheader_present by done.
  eexists; split; [done|]. apply lookup_filter_keys.
Qed.

(** X16.  Given [header_is_map]: when the requested keywords are
    standard ones (upper case, no commentary keyword) and the header
    lacks one of them, [extract_subheader] raises [KeyError], whatever
    the other keywords are. *)
Lemma extract_subheader_missing (header : Header) (keys : list string) (k : string) :
  Forall (λ k, standard_keyword k = true) keys →
  k ∈ keys → header !! k = None →
  extract_subheader header_getitem Header_of_dict header keys = Raise KeyError.
Proof.
  intros Hstd Hin Hk. apply extract_subheader_absent; [done|].
  apply Exists_exists. eauto.
Qed.

(** X17.  Given [header_is_map]: for two headers of standard cards
    (no [COMMENT], [HISTORY] or blank cards) [combine_headers] returns,
    and in its header a keyword holds [header2]'s value when [header2]
    has the keyword and [header1]'s value otherwise (it is absent when
    neither has it). *)
Lemma combine_headers_lookup (header1 header2 : Header) :
  standard_header header1 → standard_header header2 →
  ∃ header,
    combine_headers header_keys header_getitem Header_of_dict header1 header2 = Ok header
    ∧ ∀ k, header !! k = match header2 !! k with
                         | Some v => Some v
                         | None => header1 !! k
                         end.
Proof.
  intros H1 H2. rewrite combine_headers_union by done.
  eexists; split; [done|]. intros k. rewrite lookup_union.
  destruct (header2 !! k), (header1 !! k); reflexivity.
Qed.

(** X18.  Given [header_is_map]: on headers of standard cards
    [combine_headers] is associative: both ways of combining three
    headers return, with the same cards (the order of the cards in the
    header is not modelled). *)
Lemma combine_headers_assoc (header1 header2 header3 : Header) :
  standard_header header1 → standard_header header2 → standard_header header3 →
  (header12 ← combine_headers header_keys header_getitem Header_of_dict header1 header2;
   combine_headers header_keys header_getitem Header_of_dict header12 header3)
  = (header23 ← combine_headers header_keys header_getitem Header_of_dict header2 header3;
     combine_headers header_keys header_getitem Header_of_dict header1 header23).
Proof.
  intros H1 H2 H3.
  rewrite (combine_headers_union header1 header2), (combine_headers_union header2 header3)
    by done.
  cbn [mbind result_bind].
  rewrite !combine_headers_union by (done || by apply standard_header_union).
  by rewrite (assoc_L (∪)).
Qed.

(** X19.  Given [header_is_map]: if [extract_subheader] returns
    [subheader] for standard keywords of a header of standard cards,
    then combining [subheader] with [header], in either order, returns
    a header with the cards of [header] (their order is not
    modelled). *)
Lemma combine_headers_extract_subheader (header subheader : Header) (keys : list string) :
  standard_header header →
  Forall (λ k, standard_keyword k = true) keys →
  extract_subheader header_getitem Header_of_dict header keys = Ok subheader →
  combine_headers header_keys header_getitem Header_of_dict subheader header = Ok header
  ∧ combine_headers header_keys header_getitem Header_of_dict header subheader = Ok header.
Proof.
  intros Hh Hstd He. apply extract_subheader_Ok_inv in He; [|done..]. subst subheader.
  rewrite !combine_headers_union by (done || by apply standard_header_filter).
  split; f_equal; apply map_eq; intros k; rewrite lookup_union, lookup_filter_keys;
    case_bool_decide; by destruct (header !! k).
Qed.

(** X20.  Given [header_is_map]: for headers of standard cards and
    keywords that [header2] has, extracting from
    [combine_headers(header1, header2)] returns what extracting from
    [header2] alone returns. *)
Lemma extract_subheader_combine_headers (header1 header2 : Header) (keys : list string) :
  standard_header header1 → standard_header header2 →
  Forall (λ k, is_Some (header2 !! k)) keys →
  (header ← combine_headers header_keys header_getitem Header_of_dict header1 header2;
   extract_subheader header_getitem Header_of_dict header keys)
  = extract_subheader header_getitem Header_of_dict header2 keys.
Proof.
  intros H1 H2 HF. rewrite combine_headers_union by done. cbn [mbind result_bind].
  rewrite (extract_subheader_present header2) by done.
  rewrite extract_subheader_present; [|by apply standard_header_union|].
  2:{ eapply Forall_impl; [exact HF|]. intros k [v Hv]. simpl.
      exists v. by apply lookup_union_Some_l. }
  f_equal. apply map_eq. intros k. rewrite !lookup_filter_keys.
  case_bool_decide as Hin; [|done].
  rewrite Forall_forall in HF. destruct (HF k Hin) as [v Hv].
  rewrite Hv. by apply lookup_union_Some_l.
Qed.
End HeaderFacts.

Lemma map_header_is_map : header_is_map id map_keys map_getitem map_Header_of_dict.
Proof.
  split; [done|]. split; [done|]. intros d _ _. unfold map_Header_of_dict. do 2 f_equal.
  rewrite <- (list_fmap_id d) at 2. apply list_fmap_ext. by intros _ [k v] _.
Qed.

Lemma standard_header_of_list (h : Header) :
  forallb (λ kv, standard_keyword kv.1 && card_value kv.2) (map_to_list h) = true →
  standard_header h.
Proof.
  intros HF k v Hv. apply elem_of_map_to_list, list_elem_of_In in Hv.
  rewrite forallb_forall in HF. by apply andb_true_iff, (HF (k, v)).
Qed.

Lemma standard_header_features : standard_header features_header.
Proof. apply standard_header_of_list. by vm_compute. Qed.

Lemma standard_header_pedestal : standard_header pedestal_header.
Proof. apply standard_header_of_list. by vm_compute. Qed.

Lemma extract_subheader_lookup_witness :
  ∃ subheader,
    extract_subheader map_getitem map_Header_of_dict features_header
      ["SUN-X"; "EXPTIME"]%string = Ok subheader
    ∧ ∀ k, subheader !! k
           = if bool_decide (k ∈ ["SUN-X"; "EXPTIME"]%string)
             then features_header !! k else None.
Proof.
  apply (extract_subheader_lookup id map_keys map_getitem map_Header_of_dict
           map_header_is_map features_header _ standard_header_features).
  repeat constructor; eexists; reflexivity.
Defined.

Lemma extract_subheader_missing_witness :
  extract_subheader map_getitem map_Header_of_dict features_header
    ["SUN-X"; "PEDESTAL"]%string = Raise KeyError.
Proof.
  apply (extract_subheader_missing id map_keys map_getitem map_Header_of_dict
           map_header_is_map features_header _ "PEDESTAL"%string).
  - repeat constructor.
  - repeat constructor.
  - reflexivity.
Defined.

Lemma combine_headers_lookup_witness :
  ∃ header,
    combine_headers map_keys map_getitem map_Header_of_dict pedestal_header
      features_header = Ok header
    ∧ ∀ k, header !! k = match features_header !! k with
                         | Some v => Some v
                         | None => pedestal_header !! k
                         end.
Proof.
  exact (combine_headers_lookup id map_keys map_getitem map_Header_of_dict
           map_header_is_map pedestal_header features_header
           standard_header_pedestal standard_header_features).
Defined.

Lemma combine_headers_assoc_witness :
  (header12 ← combine_headers map_keys map_getitem map_Header_of_dict
                pedestal_header features_header;
   combine_headers map_keys map_getitem map_Header_of_dict header12 pedestal_header)
  = (header23 ← combine_headers map_keys map_getitem map_Header_of_dict
                  features_header pedestal_header;
     combine_headers map_keys map_getitem map_Header_of_dict pedestal_header header23).
Proof.
  exact (combine_headers_assoc id map_keys map_getitem map_Header_of_dict
           map_header_is_map pedestal_header features_header pedestal_header
           standard_header_pedestal standard_header_features standard_header_pedestal).
Defined.

Lemma combine_headers_extract_subheader_witness :
  ∃ subheader,
    extract_subheader map_getitem map_Header_of_dict features_header
      ["SUN-X"; "EXPTIME"]%string = Ok subheader
    ∧ combine_headers map_keys map_getitem map_Header_of_dict subheader features_header
      = Ok features_header
    ∧ combine_headers map_keys map_getitem map_Header_of_dict features_header subheader
      = Ok features_header.
Proof.
  eexists. split; [reflexivity|].
  apply (combine_headers_extract_subheader id map_keys map_getitem map_Header_of_dict
           map_header_is_map features_header _ ["SUN-X"; "EXPTIME"]%string
           standard_header_features).
  - repeat constructor.
  - reflexivity.
Defined.

Lemma extract_subheader_combine_headers_witness :
  (header ← combine_headers map_keys map_getitem map_Header_of_dict pedestal_header
              features_header;
   extract_subheader map_getitem map_Header_of_dict header ["SUN-X"; "EXPTIME"]%string)
  = extract_subheader map_getitem map_Header_of_dict features_header
      ["SUN-X"; "EXPTIME"]%string.
Proof.
  apply (extract_subheader_combine_headers id map_keys map_getitem map_Header_of_dict
           map_header_is_map pedestal_header features_header _
           standard_header_pedestal standard_header_features).
  repeat constructor; eexists; reflexivity.
Defined.

(** ** [get_filepaths_per_exptime] *)

Lemma endswith_spec (s suffix : string) :
  endswith s suffix = true ↔ ∃ p, s = p +:+ suffix.
Proof.
  induction s as [|c s IH]; cbn [endswith].
  - rewrite orb_false_r, String.eqb_eq. split.
    + intros <-. by exists ""%string.
    + intros [p Hp]. destruct p; [done | discriminate].
  - rewrite orb_true_iff, String.eqb_eq, IH. split.
    + intros [<-|[p ->]]; [by exists ""%string | by exists (String c p)].
    + intros [[|c' p] Hp]; [by left|]. right. exists p.
      change (String c' p +:+ suffix) with (String c' (p +:+ suffix)) in Hp. congruence.
Qed.

Section ExptimeFacts.
Context {filesystem : Type}.
Variable fits_open : string → filesystem → option hdu.
Variable walk : string → filesystem → option (string * list string).
Variable str : value → string.

Lemma exptime_step_skip dirpath fs d filename :
  endswith filename ".fits" = false →
  exptime_step fits_open str dirpath fs (Ok d) filename = Ok d.
Proof. intros H. unfold exptime_step. cbn [mbind result_bind]. by rewrite H. Qed.

Lemma exptime_step_file dirpath fs d filename key :
  endswith filename ".fits" = true →
  exptime_key fits_open str fs (path_join dirpath filename) = Some key →
  exptime_step fits_open str dirpath fs (Ok d) filename
  = Ok (<[key := default [] (d !! key) ++ [path_join dirpath filename]]> d).
Proof.
  intros H Hk. unfold exptime_step, exptime_key, read_fits_header in *.
  cbn [mbind result_bind]. rewrite H.
  destruct (fits_open _ fs) as [hdul0|]; [|done]. simpl in *.
  destruct (hdu_header hdul0 !! "EXPTIME"%string) as [v|]; [|done].
  simpl in Hk. injection Hk as <-. by destruct (d !! str v).
Qed.

Lemma exptime_step_bad dirpath fs d filename :
  endswith filename ".fits" = true →
  exptime_key fits_open str fs (path_join dirpath filename) = None →
  ∃ e, exptime_step fits_open str dirpath fs (Ok d) filename = Raise e ∧ (e = OSError ∨ e = KeyError).
Proof.
  intros H Hk. unfold exptime_step, exptime_key, read_fits_header in *.
  cbn [mbind result_bind]. rewrite H.
  destruct (fits_open _ fs) as [hdul0|]; [|by eauto]. simpl in *.
  destruct (hdu_header hdul0 !! "EXPTIME"%string) as [v|]; [done|by eauto].
Qed.

Lemma exptime_loop_raise dirpath fs e filenames :
  foldl (exptime_step fits_open str dirpath fs) (Raise e) filenames = Raise e.
Proof. induction filenames as [|f l IH]; [done|]. apply IH. Qed.

Lemma exptime_loop_ok dirpath fs filenames d :
  (∀ f, f ∈ filenames → endswith f ".fits" = true →
        is_Some (exptime_key fits_open str fs (path_join dirpath f))) →
  ∃ d', foldl (exptime_step fits_open str dirpath fs) (Ok d) filenames = Ok d'
    ∧ ∀ key, d' !! key
             = match d !! key, paths_of_key fits_open str fs key (fits_paths dirpath filenames) with
               | None, [] => None
               | o, l => Some (default [] o ++ l)
               end.
Proof.
  revert d. induction filenames as [|f l IH]; intros d Hgood.
  - exists d. split; [done|]. intros key. unfold fits_paths, paths_of_key. simpl.
    destruct (d !! key); [|done]. by rewrite app_nil_r.
  - cbn [foldl].
    assert (Hl : ∀ f', f' ∈ l → endswith f' ".fits" = true →
                       is_Some (exptime_key fits_open str fs (path_join dirpath f'))).
    { intros f' Hf'. apply Hgood. by apply elem_of_cons; right. }
    destruct (endswith f ".fits") eqn:Hf.
    + destruct (Hgood f) as [k Hk]; [by apply elem_of_cons; left | done |].
      rewrite (exptime_step_file dirpath fs d f k Hf Hk).
      destruct (IH (<[k := default [] (d !! k) ++ [path_join dirpath f]]> d) Hl)
        as (d' & -> & Hd'). exists d'. split; [done|].
      intros key. rewrite Hd'. unfold fits_paths, paths_of_key.
      rewrite (filter_cons_True _ f) by done. rewrite fmap_cons.
      destruct (decide (key = k)) as [->|Hne].
      * rewrite lookup_insert_eq. rewrite (filter_cons_True _ (path_join dirpath f)) by done.
        destruct (d !! k) as [l0|]; simpl.
        -- by rewrite <- app_assoc.
        -- done.
      * rewrite lookup_insert_ne by done.
        rewrite (filter_cons_False _ (path_join dirpath f)); [done|].
        rewrite Hk. congruence.
    + rewrite (exptime_step_skip dirpath fs d f Hf).
      destruct (IH d Hl) as (d' & -> & Hd'). exists d'. split; [done|].
      intros key. rewrite Hd'. unfold fits_paths.
      rewrite (filter_cons_False _ f); [done|]. by rewrite Hf.
Qed.

Lemma exptime_loop_bad dirpath fs filenames acc f :
  f ∈ filenames → endswith f ".fits" = true →
  exptime_key fits_open str fs (path_join dirpath f) = None →
  ∃ e, foldl (exptime_step fits_open str dirpath fs) acc filenames = Raise e
       ∧ (acc = Raise e ∨ e = OSError ∨ e = KeyError).
Proof.
  revert acc. induction filenames as [|f' l IH]; intros acc Hin Hf Hk.
  - by apply elem_of_nil in Hin.
  - cbn [foldl]. destruct acc as [d|e].
    2:{ exists e. split; [apply exptime_loop_raise | by left]. }
    apply elem_of_cons in Hin. destruct Hin as [<-|Hin].
    + destruct (exptime_step_bad dirpath fs d f Hf Hk) as (e & -> & He).
      exists e. split; [apply exptime_loop_raise | by right].
    + destruct (IH (exptime_step fits_open str dirpath fs (Ok d) f') Hin Hf Hk) as (e & -> & He).
      exists e. split; [done|]. right.
      destruct He as [He|He]; [|done].
      unfold exptime_step, read_fits_header in He. cbn [mbind result_bind] in He.
      destruct (endswith f' ".fits"); [|done].
      destruct (fits_open _ fs) as [hdul0|]; simpl in He; [|left; congruence].
      destruct (hdu_header hdul0 !! "EXPTIME"%string) as [v|]; [|right; congruence].
      by destruct (d !! str v).
Qed.

(** X21.  When every FITS file of the directory can be opened and has an
    [EXPTIME] card, the result lists under each key the paths of the
    FITS files with that key, in the order of the directory listing;
    a key without files is absent, and other files are ignored. *)
Lemma get_filepaths_per_exptime_groups (dirname : string) (fs : filesystem)
    (dirpath : string) (filenames : list string) :
  walk dirname fs = Some (dirpath, filenames) →
  (∀ f, f ∈ filenames → endswith f ".fits" = true →
        is_Some (exptime_key fits_open str fs (path_join dirpath f))) →
  ∃ d, get_filepaths_per_exptime fits_open walk str dirname fs = Ok d
       ∧ ∀ key, d !! key
                = match paths_of_key fits_open str fs key (fits_paths dirpath filenames) with
                  | [] => None
                  | l => Some l
                  end.
Proof.
  intros Hwalk Hgood. unfold get_filepaths_per_exptime. rewrite Hwalk.
  change (foldl _ (Ok ∅) filenames)
    with (foldl (exptime_step fits_open str dirpath fs) (Ok ∅) filenames).
  destruct (exptime_loop_ok dirpath fs filenames ∅ Hgood) as (d & -> & Hd).
  exists d. split; [done|]. intros key. rewrite Hd, lookup_empty.
  by destruct (paths_of_key _ _ _ _ _).
Qed.

(** X22.  A FITS file of the directory that cannot be opened, or that has no
    [EXPTIME] card, makes the call raise [OSError] or [KeyError]: no
    file is skipped silently. *)
Lemma get_filepaths_per_exptime_bad_file (dirname : string) (fs : filesystem)
    (dirpath : string) (filenames : list string) (f : string) :
  walk dirname fs = Some (dirpath, filenames) →
  f ∈ filenames → endswith f ".fits" = true →
  exptime_key fits_open str fs (path_join dirpath f) = None →
  get_filepaths_per_exptime fits_open walk str dirname fs = Raise OSError
  ∨ get_filepaths_per_exptime fits_open walk str dirname fs = Raise KeyError.
Proof.
  intros Hwalk Hin Hf Hk. unfold get_filepaths_per_exptime. rewrite Hwalk.
  change (foldl _ (Ok ∅) filenames)
    with (foldl (exptime_step fits_open str dirpath fs) (Ok ∅) filenames).
  destruct (exptime_loop_bad dirpath fs filenames (Ok ∅) f Hin Hf Hk) as (e & -> & He).
  destruct He as [?|[->| ->]]; [done | by left | by right].
Qed.

End ExptimeFacts.

Lemma get_filepaths_per_exptime_groups_witness :
  ∃ d, get_filepaths_per_exptime map_open frames_walk str_of_text "night" frames_dir = Ok d
       ∧ d !! "10"%string = Some ["night/a.fits"; "night/c.fits"]%string
       ∧ d !! "30"%string = Some ["night/b.fits"]%string
       ∧ d !! "60"%string = None.
Proof.
  destruct (get_filepaths_per_exptime_groups map_open frames_walk str_of_text
              "night" frames_dir "night" ["a.fits"; "log.txt"; "b.fits"; "c.fits"]%string
              eq_refl) as (d & Hd & Hkeys).
  - intros f Hf Hfits.
    repeat (apply elem_of_cons in Hf; destruct Hf as [->|Hf]);
      [by eexists | discriminate Hfits | by eexists | by eexists |].
    by apply elem_of_nil in Hf.
  - exists d. split; [exact Hd|]. rewrite !Hkeys. split; [|split]; reflexivity.
Defined.

Lemma get_filepaths_per_exptime_bad_file_witness :
  get_filepaths_per_exptime map_open frames_walk str_of_text "lost" frames_dir
  = Raise OSError
  ∨ get_filepaths_per_exptime map_open frames_walk str_of_text "lost" frames_dir
    = Raise KeyError.
Proof.
  apply (get_filepaths_per_exptime_bad_file map_open frames_walk str_of_text
           "lost" frames_dir "lost" ["a.fits"; "log.txt"; "b.fits"; "c.fits"]%string
           "b.fits"%string eq_refl).
  - repeat constructor.
  - reflexivity.
  - reflexivity.
Defined.

(** ** [crop_inset]: the borders, the rest of the image, and failure *)

Section CropInsetCells.
Context {A : Type}.
Implicit Types (a b : Image.t A) (s : Store.t (Image.t A)) (img : Store.loc).

Lemma classic_on_inset_border a crop_radii scale border_thickness (i j : nat) :
  on_inset_border a crop_radii scale border_thickness i j
  ∨ ¬ on_inset_border a crop_radii scale border_thickness i j.
Proof. unfold on_inset_border. lia. Qed.

Lemma inset_fits_crop_box a crop_center crop_radii scale border_thickness :
  inset_fits a crop_center crop_radii scale border_thickness →
  crop_box_fits a crop_center crop_radii border_thickness.
Proof. unfold inset_fits, crop_box_fits. tauto. Qed.

Lemma crop_border_array_get a (c0 c1 r0 r1 : Z) border_value (border_thickness : Z)
    (i j : nat) :
  crop_box_fits a (c0, c1) (r0, r1) border_thickness →
  (on_crop_border (c0, c1) (r0, r1) border_thickness i j →
   Image.get (crop_border_array a (c0, c1) (r0, r1) border_value border_thickness) i j
   = (λ _, border_value) <$> Image.get a i j)
  ∧ (¬ on_crop_border (c0, c1) (r0, r1) border_thickness i j →
     Image.get (crop_border_array a (c0, c1) (r0, r1) border_value border_thickness) i j
     = Image.get a i j).
Proof.
  unfold crop_box_fits, on_crop_border. cbn [fst snd].
  intros (Hr0 & Hr1 & Hbt & Hil & Hir & Hjt & Hjb).
  unfold crop_border_array. cbn [fst snd].
  rewrite !Image_get_setslice_scalar. cbn [Image.setslice_scalar Image.shape0 Image.shape1].
  rewrite !Slice_mem_range by lia.
  split; intros Hon; repeat case_bool_decide; simpl;
    try (by destruct (Image.get a i j)); exfalso; lia.
Qed.

(** The cells of the array [crop_inset] leaves, outside the inset: the
    strips along the inset hold the border value, and every other cell
    is as the frame around the crop box left it. *)
Lemma crop_inset_array_cells a (c0 c1 r0 r1 scale : Z) border_value (border_thickness : Z) :
  Image.wf a →
  inset_fits a (c0, c1) (r0, r1) scale border_thickness →
  ∃ a', crop_inset_array a (c0, c1) (r0, r1) scale border_value border_thickness = Ok a'
    ∧ ∀ i j : nat,
        (on_inset_border a (r0, r1) scale border_thickness i j →
         Image.get a' i j = Some border_value)
        ∧ (¬ on_inset_border a (r0, r1) scale border_thickness i j →
           ¬ in_inset a (r0, r1) scale i j →
           Image.get a' i j
           = Image.get (crop_border_array a (c0, c1) (r0, r1) border_value
                          border_thickness) i j).
Proof.
  intros Hwf Hfit. pose proof Hfit as Hfit'.
  unfold inset_fits in Hfit'. simpl in Hfit'.
  destruct Hfit' as (Hr0 & Hr1 & Hsc & Hbt & Hil & Hir & Hjt & Hjb & Hih & Hiw & Hdis).
  unfold crop_inset_array, on_inset_border, in_inset. cbn [fst snd].
  assert (Hborder :
    ∃ a4, crop_border_array a (c0, c1) (r0, r1) border_value border_thickness = a4
      ∧ Image.wf a4
      ∧ Image.shape0 a4 = Image.shape0 a ∧ Image.shape1 a4 = Image.shape1 a).
  { eexists. split; [done|]. split; [by apply crop_border_array_wf|]. done. }
  destruct Hborder as (a4 & -> & Hwf4 & H40 & H41).
  destruct (Slice_range_inside (Image.shape0 a) (c0 - r0) (c0 + r0 + 1))
    as (_ & _ & Hlen0); [lia..|].
  destruct (Slice_range_inside (Image.shape1 a) (c1 - r1) (c1 + r1 + 1))
    as (_ & _ & Hlen1); [lia..|].
  assert (Hcropped :
    ∃ crop, Image.getslice a4 (Slice.range (c0 - r0) (c0 + r0 + 1))
                              (Slice.range (c1 - r1) (c1 + r1 + 1)) = crop
      ∧ Image.shape0 crop = Z.to_nat (2 * r0 + 1)
      ∧ Image.shape1 crop = Z.to_nat (2 * r1 + 1)).
  { eexists. split; [done|].
    split; [simpl; rewrite H40, Hlen0; f_equal; lia|].
    simpl; rewrite H41, Hlen1; f_equal; lia. }
  destruct Hcropped as (crop & -> & Hc0 & Hc1).
  destruct (Image_repeat0_Ok scale crop) as (inset0 & Hi0 & Hi00 & Hi01); [lia|].
  rewrite Hi0, result_bind_Ok.
  destruct (Image_repeat1_Ok scale inset0) as (inset & Hi1 & Hi10 & Hi11); [lia|].
  rewrite Hi1, result_bind_Ok.
  set (h := Z.to_nat ((2 * r0 + 1) * scale)).
  set (w := Z.to_nat ((2 * r1 + 1) * scale)).
  assert (Hh : Image.shape0 inset = h).
  { rewrite Hi10, Hi00, Hc0. unfold h. rewrite Z2Nat.inj_mul by lia. done. }
  assert (Hw : Image.shape1 inset = w).
  { rewrite Hi11, Hi01, Hc1. unfold w. rewrite Z2Nat.inj_mul by lia. done. }
  assert (Hp0 : 0 < (2 * r0 + 1) * scale) by (apply Z.mul_pos_pos; lia).
  assert (Hp1 : 0 < (2 * r1 + 1) * scale) by (apply Z.mul_pos_pos; lia).
  assert (Hhpos : (2 * r0 + 1) * scale = Z.of_nat h) by (unfold h; lia).
  assert (Hwpos : (2 * r1 + 1) * scale = Z.of_nat w) by (unfold w; lia).
  rewrite Hh, Hw, Hhpos, Hwpos. rewrite Hhpos in Hih, Hp0. rewrite Hwpos in Hiw, Hp1.
  clear Hdis Hhpos Hwpos Hi0 Hi1 Hi00 Hi01 Hi10 Hi11 Hc0 Hc1 Hlen0 Hlen1.
  clearbody h w.
  destruct (Slice_from_end (Image.shape0 a) h) as (_ & _ & Hflen0); [lia..|].
  destruct (Slice_from_end (Image.shape1 a) w) as (_ & _ & Hflen1); [lia..|].
  destruct (Image_setslice_array_Ok a4 (Slice.from (- Z.of_nat h))
              (Slice.from (- Z.of_nat w)) inset) as [a5 H5].
  { by rewrite Hh, H40, Hflen0. }
  { by rewrite Hw, H41, Hflen1. }
  rewrite H5, result_bind_Ok.
  destruct (Image_setslice_array_inv _ _ _ _ _ H5) as (H50 & H51 & Hwf5 & Hget5).
  specialize (Hwf5 Hwf4).
  eexists. split; [done|]. intros i j.
  rewrite !Image_get_setslice_scalar.
  cbn [Image.setslice_scalar Image.shape0 Image.shape1].
  rewrite H50, H51, H40, H41.
  rewrite !Slice_mem_from_end, !Slice_mem_range_end by lia.
  split.
  - intros Hon.
    destruct (Image_get_is_Some a5 i j) as [x Hx]; [done|lia..|].
    rewrite Hx. repeat case_bool_decide; simpl; try done; exfalso; lia.
  - intros Hoff Hout. rewrite Hget5, H40, H41.
    rewrite !Slice_mem_from_end by lia.
    repeat case_bool_decide; simpl; try done; exfalso; lia.
Qed.

(** With a scale that is not positive, or an inset that is taller or
    wider than the image, numpy raises. *)
Lemma crop_inset_array_raises a (c0 c1 r0 r1 scale : Z) border_value (border_thickness : Z) :
  crop_box_fits a (c0, c1) (r0, r1) border_thickness →
  scale ≤ 0
  ∨ Z.of_nat (Image.shape0 a) < (2 * r0 + 1) * scale
  ∨ Z.of_nat (Image.shape1 a) < (2 * r1 + 1) * scale →
  crop_inset_array a (c0, c1) (r0, r1) scale border_value border_thickness
  = Raise ValueError.
Proof.
  unfold crop_box_fits. cbn [fst snd].
  intros (Hr0 & Hr1 & Hbt & Hil & Hir & Hjt & Hjb) Hbad.
  unfold crop_inset_array. cbn [fst snd].
  assert (Hborder :
    ∃ a4, crop_border_array a (c0, c1) (r0, r1) border_value border_thickness = a4
      ∧ Image.shape0 a4 = Image.shape0 a ∧ Image.shape1 a4 = Image.shape1 a).
  { eexists. split; [done|]. done. }
  destruct Hborder as (a4 & -> & H40 & H41).
  destruct (Slice_range_inside (Image.shape0 a) (c0 - r0) (c0 + r0 + 1))
    as (_ & _ & Hlen0); [lia..|].
  destruct (Slice_range_inside (Image.shape1 a) (c1 - r1) (c1 + r1 + 1))
    as (_ & _ & Hlen1); [lia..|].
  assert (Hcropped :
    ∃ crop, Image.getslice a4 (Slice.range (c0 - r0) (c0 + r0 + 1))
                              (Slice.range (c1 - r1) (c1 + r1 + 1)) = crop
      ∧ Image.shape0 crop = Z.to_nat (2 * r0 + 1)
      ∧ Image.shape1 crop = Z.to_nat (2 * r1 + 1)).
  { eexists. split; [done|].
    split; [simpl; rewrite H40, Hlen0; f_equal; lia|].
    simpl; rewrite H41, Hlen1; f_equal; lia. }
  destruct Hcropped as (crop & -> & Hc0 & Hc1).
  destruct (decide (scale < 0)) as [Hneg|Hnn].
  { unfold Image.repeat0. by rewrite (proj2 (Z.ltb_lt scale 0) Hneg). }
  unfold Image.repeat0, Image.repeat1. rewrite (proj2 (Z.ltb_ge scale 0)) by lia.
  rewrite !result_bind_Ok. cbn [Image.shape0 Image.shape1].
  rewrite Hc0, Hc1.
  unfold Image.setslice_array. cbn [Image.shape0 Image.shape1].
  rewrite H40, H41.
  set (h := (Z.to_nat (2 * r0 + 1) * Z.to_nat scale)%nat).
  set (w := (Z.to_nat (2 * r1 + 1) * Z.to_nat scale)%nat).
  assert (Hh : Z.of_nat h = (2 * r0 + 1) * scale) by (unfold h; nia).
  assert (Hw : Z.of_nat w = (2 * r1 + 1) * scale) by (unfold w; nia).
  replace (Image.broadcastable h (Slice.len (Image.shape0 a) (Slice.from (- Z.of_nat h)))
           && Image.broadcastable w (Slice.len (Image.shape1 a) (Slice.from (- Z.of_nat w))))
    with false; [done|].
  symmetry. apply andb_false_iff.
  unfold Image.broadcastable, Slice.len, Slice.hi, Slice.lo, Slice.from, Slice.index.
  cbn [Slice.start Slice.stop].
  rewrite !orb_false_iff, !Nat.eqb_neq.
  destruct (decide (scale = 0)) as [->|Hpos].
  - left. assert (h = 0%nat) as -> by lia. simpl. lia.
  - assert (Hsc : 0 < scale) by lia.
    assert (Hhp : 2 * r0 + 1 ≤ Z.of_nat h) by nia.
    assert (Hwp : 2 * r1 + 1 ≤ Z.of_nat w) by nia.
    destruct Hbad as [?|[Hbad|Hbad]]; [lia| |]; [left | right];
      rewrite <- ?Hh, <- ?Hw in Hbad; case_match; lia.
Qed.
End CropInsetCells.

(** X23.  Under the precondition of [crop_inset], the frame around the
    crop box (where the inset does not cover it) and the two strips
    along the inset hold the border value afterwards. *)
Lemma crop_inset_paints_borders {A : Type} (s : Store.t (Image.t A)) (img : Store.loc)
    (a : Image.t A) (c0 c1 r0 r1 scale : Z) (border_value : A) (border_thickness : Z) :
  Store.arrays s !! img = Some a →
  Image.wf a →
  inset_fits a (c0, c1) (r0, r1) scale border_thickness →
  ∃ a',
    crop_inset img (c0, c1) (r0, r1) scale border_value border_thickness s
    = Store.Return () (Store.Make (<[img := a']> (Store.arrays s)) (Store.headers s))
    ∧ ∀ i j : nat,
        on_inset_border a (r0, r1) scale border_thickness i j
        ∨ (on_crop_border (c0, c1) (r0, r1) border_thickness i j
           ∧ ¬ in_inset a (r0, r1) scale i j) →
        Image.get a' i j = Some border_value.
Proof.
  intros Ha Hwf Hfit.
  destruct (crop_inset_array_cells a c0 c1 r0 r1 scale border_value border_thickness
              Hwf Hfit) as (a' & Harr & Hcells).
  exists a'. split; [rewrite (run_crop_inset s img a) by done; by rewrite Harr|].
  intros i j Hij. destruct (Hcells i j) as [Hon Hoff].
  destruct (classic_on_inset_border a (r0, r1) scale border_thickness i j) as [Hb|Hb];
    [by apply Hon|].
  destruct Hij as [?|[Hring Hout]]; [done|].
  rewrite (Hoff Hb Hout).
  destruct (crop_border_array_get a c0 c1 r0 r1 border_value border_thickness i j
              (inset_fits_crop_box _ _ _ _ _ Hfit)) as [Hring' _].
  rewrite (Hring' Hring).
  destruct (Image_get_is_Some a i j) as [x ->]; [done| | |done].
  - unfold on_crop_border, inset_fits in *. simpl in *. lia.
  - unfold on_crop_border, inset_fits in *. simpl in *. lia.
Qed.

Lemma crop_inset_paints_borders_witness :
  ∃ a',
    crop_inset 1%positive (3, 4) (1, 1) 2 (-1) 1 ramp_store
    = Store.Return () (Store.Make (<[1%positive := a']> (Store.arrays ramp_store)) ∅)
    ∧ Image.get a' 1 2 = Some (-1)
    ∧ Image.get a' 6 5 = Some (-1)
    ∧ Image.get a' 5 11 = Some (-1).
Proof.
  assert (Hfit : inset_fits (ramp 12 12) (3, 4) (1, 1) 2 1).
  { unfold inset_fits. cbn. lia. }
  destruct (crop_inset_paints_borders ramp_store 1%positive (ramp 12 12) 3 4 1 1 2 (-1) 1
              eq_refl (ramp_wf 12 12) Hfit) as (a' & Hrun & Hb).
  exists a'. split; [exact Hrun|]. split; [|split]; apply Hb.
  - right. unfold on_crop_border, in_inset. cbn. lia.
  - left. unfold on_inset_border. cbn. lia.
  - left. unfold on_inset_border. cbn. lia.
Defined.

(** X24.  Under the precondition of [crop_inset], every cell outside the
    frame around the crop box, the inset and the two strips along the
    inset is left as it was; this includes the crop box, and the corner
    between the two strips. *)
Lemma crop_inset_frame {A : Type} (s : Store.t (Image.t A)) (img : Store.loc)
    (a : Image.t A) (c0 c1 r0 r1 scale : Z) (border_value : A) (border_thickness : Z) :
  Store.arrays s !! img = Some a →
  Image.wf a →
  inset_fits a (c0, c1) (r0, r1) scale border_thickness →
  ∃ a',
    crop_inset img (c0, c1) (r0, r1) scale border_value border_thickness s
    = Store.Return () (Store.Make (<[img := a']> (Store.arrays s)) (Store.headers s))
    ∧ ∀ i j : nat,
        ¬ on_crop_border (c0, c1) (r0, r1) border_thickness i j →
        ¬ in_inset a (r0, r1) scale i j →
        ¬ on_inset_border a (r0, r1) scale border_thickness i j →
        Image.get a' i j = Image.get a i j.
Proof.
  intros Ha Hwf Hfit.
  destruct (crop_inset_array_cells a c0 c1 r0 r1 scale border_value border_thickness
              Hwf Hfit) as (a' & Harr & Hcells).
  exists a'. split; [rewrite (run_crop_inset s img a) by done; by rewrite Harr|].
  intros i j Hring Hout Hb. destruct (Hcells i j) as [_ Hoff].
  rewrite (Hoff Hb Hout).
  by apply (crop_border_array_get a c0 c1 r0 r1 border_value border_thickness i j
              (inset_fits_crop_box _ _ _ _ _ Hfit)).
Qed.

Lemma crop_inset_frame_witness :
  ∃ a',
    crop_inset 1%positive (2, 2) (1, 1) 2 (-1) 1 ramp_store
    = Store.Return () (Store.Make (<[1%positive := a']> (Store.arrays ramp_store)) ∅)
    ∧ Image.get a' 0 5 = Some 5
    ∧ Image.get a' 2 2 = Some 202
    ∧ Image.get a' 5 5 = Some 505.
Proof.
  assert (Hfit : inset_fits (ramp 12 12) (2, 2) (1, 1) 2 1).
  { unfold inset_fits. cbn. lia. }
  destruct (crop_inset_frame ramp_store 1%positive (ramp 12 12) 2 2 1 1 2 (-1) 1
              eq_refl (ramp_wf 12 12) Hfit) as (a' & Hrun & Hf).
  exists a'. split; [exact Hrun|].
  split; [|split]; rewrite Hf; try reflexivity;
    unfold on_crop_border, in_inset, on_inset_border; cbn; lia.
Defined.

(** X25.  When the scale is not positive, or the inset is taller or wider
    than the image, [crop_inset] raises [ValueError] after it has drawn
    the frame around the crop box: the caller's array is left with the
    frame, and otherwise as it was. *)
Lemma crop_inset_failure_keeps_frame {A : Type} (s : Store.t (Image.t A)) (img : Store.loc)
    (a : Image.t A) (c0 c1 r0 r1 scale : Z) (border_value : A) (border_thickness : Z) :
  Store.arrays s !! img = Some a →
  Image.wf a →
  crop_box_fits a (c0, c1) (r0, r1) border_thickness →
  scale ≤ 0
  ∨ Z.of_nat (Image.shape0 a) < (2 * r0 + 1) * scale
  ∨ Z.of_nat (Image.shape1 a) < (2 * r1 + 1) * scale →
  ∃ a',
    crop_inset img (c0, c1) (r0, r1) scale border_value border_thickness s
    = Store.Throw ValueError
        (Store.Make (<[img := a']> (Store.arrays s)) (Store.headers s))
    ∧ (∀ i j : nat, on_crop_border (c0, c1) (r0, r1) border_thickness i j →
         Image.get a' i j = Some border_value)
    ∧ (∀ i j : nat, ¬ on_crop_border (c0, c1) (r0, r1) border_thickness i j →
         Image.get a' i j = Image.get a i j).
Proof.
  intros Ha Hwf Hbox Hbad.
  exists (crop_border_array a (c0, c1) (r0, r1) border_value border_thickness).
  split.
  { rewrite (run_crop_inset s img a) by done.
    by rewrite (crop_inset_array_raises a c0 c1 r0 r1 scale border_value border_thickness). }
  split; intros i j Hring;
    destruct (crop_border_array_get a c0 c1 r0 r1 border_value border_thickness i j Hbox)
      as [Hon Hoff]; [|by apply Hoff].
  rewrite (Hon Hring).
  destruct (Image_get_is_Some a i j) as [x ->]; [done| | |done].
  - unfold on_crop_border, crop_box_fits in *. simpl in *. lia.
  - unfold on_crop_border, crop_box_fits in *. simpl in *. lia.
Qed.

Lemma crop_inset_failure_keeps_frame_witness :
  ∃ a',
    crop_inset 1%positive (3, 4) (1, 1) 5 (-1) 1 ramp_store
    = Store.Throw ValueError
        (Store.Make (<[1%positive := a']> (Store.arrays ramp_store)) ∅)
    ∧ Image.get a' 1 2 = Some (-1)
    ∧ Image.get a' 3 4 = Some 304.
Proof.
  assert (Hbox : crop_box_fits (ramp 12 12) (3, 4) (1, 1) 1).
  { unfold crop_box_fits. cbn. lia. }
  destruct (crop_inset_failure_keeps_frame ramp_store 1%positive (ramp 12 12) 3 4 1 1 5
              (-1) 1 eq_refl (ramp_wf 12 12) Hbox ltac:(cbn; lia))
    as (a' & Hrun & Hon & Hoff).
  exists a'. split; [exact Hrun|]. split.
  - apply Hon. unfold on_crop_border. cbn. lia.
  - rewrite Hoff; [reflexivity|]. unfold on_crop_border. cbn. lia.
Defined.

(** ** [crop_img]: the array, non-numeric coordinates, and cropping twice *)

(** X26.  [crop] is [crop_img] with inclusive bounds: whenever [crop_img]
    returns, with or without a header, its array is the one [crop]
    returns for the window of the same corners. *)
Lemma crop_img_of_window {A : Type} (img : Image.t A) (x_c y_c w h : Z)
    (header : option Header) (new_img : Image.t A) (new_header : option Header) :
  crop_img img (x_c - w / 2) (x_c + w / 2 - 1) (y_c - h / 2) (y_c + h / 2 - 1) header
  = Ok (new_img, new_header) →
  new_img = crop img x_c y_c w h.
Proof.
  unfold crop_img, crop.
  replace (y_c + h / 2 - 1 + 1) with (y_c + h / 2) by lia.
  replace (x_c + w / 2 - 1 + 1) with (x_c + w / 2) by lia.
  destruct header as [header|]; [|by intros [= <- _]].
  destruct (map_fold _ _ _); simpl; [by intros [= <- _] | done].
Qed.

Lemma crop_img_of_window_witness :
  ∃ new_img new_header,
    crop_img (zeros 8 8) 2 5 2 5 (Some features_header) = Ok (new_img, new_header)
    ∧ new_img = crop (zeros 8 8) 4 4 4 4.
Proof.
  destruct (crop_img_header (zeros 8 8) 2 5 2 5 features_header numeric_coords_features)
    as (new_header & E & _).
  eexists _, _. split; [exact E|].
  exact (crop_img_of_window (zeros 8 8) 4 4 4 4 (Some features_header) _ _ E).
Defined.

(** X27.  The bounds of [crop_img] are inclusive: for a rectangle inside a
    well-formed image the cropped array has [bottom - top + 1] rows of
    [right - left + 1] cells (a single row or column when the bounds
    coincide), and its cell [(i, j)] is the cell [(top + i, left + j)]
    of the image. *)
Lemma crop_img_cells {A : Type} (img : Image.t A) (left right top bottom : Z) :
  Image.wf img →
  0 ≤ left → left ≤ right → right < Z.of_nat (Image.shape1 img) →
  0 ≤ top → top ≤ bottom → bottom < Z.of_nat (Image.shape0 img) →
  ∃ new_img,
    crop_img img left right top bottom None = Ok (new_img, None)
    ∧ Image.wf new_img
    ∧ Z.of_nat (Image.shape0 new_img) = bottom - top + 1
    ∧ Z.of_nat (Image.shape1 new_img) = right - left + 1
    ∧ ∀ i j : nat, Z.of_nat i ≤ bottom - top → Z.of_nat j ≤ right - left →
        Image.get new_img i j = Image.get img (Z.to_nat top + i) (Z.to_nat left + j).
Proof.
  intros Hwf Hl Hlr Hr Ht Htb Hb. eexists. split; [reflexivity|].
  destruct (Slice_range_inside (Image.shape0 img) top (bottom + 1))
    as (Hlo0 & _ & Hlen0); [lia..|].
  destruct (Slice_range_inside (Image.shape1 img) left (right + 1))
    as (Hlo1 & _ & Hlen1); [lia..|].
  split; [apply Image_wf_getslice, Hwf|]. simpl.
  split; [lia|]. split; [lia|].
  intros i j Hi Hj. rewrite Image_get_getslice, Hlo0, Hlo1.
  rewrite decide_True by lia. done.
Qed.

Lemma crop_img_cells_witness :
  ∃ new_img,
    crop_img (ramp 12 12) 3 3 2 5 None = Ok (new_img, None)
    ∧ Image.wf new_img
    ∧ Z.of_nat (Image.shape0 new_img) = 4
    ∧ Z.of_nat (Image.shape1 new_img) = 1
    ∧ ∀ i j : nat, Z.of_nat i ≤ 3 → Z.of_nat j ≤ 0 →
        Image.get new_img i j = Image.get (ramp 12 12) (2 + i) (3 + j).
Proof.
  apply (crop_img_cells (ramp 12 12) 3 3 2 5 (ramp_wf 12 12)); by vm_compute.
Defined.

Lemma crop_img_step_Raise left top k v e :
  crop_img_step left top k v (Raise e) = Raise e.
Proof. done. Qed.

Lemma crop_img_step_exn left top k v h e :
  crop_img_step left top k v (Ok h) = Raise e → e = TypeError.
Proof.
  unfold crop_img_step, Value.sub. cbn [mbind result_bind].
  destruct (Value.number v); repeat case_bool_decide; cbn [mbind result_bind];
    congruence.
Qed.

Lemma crop_img_step_str left top k s h :
  k ∈ x_keys ++ y_keys →
  crop_img_step left top k (VStr s) (Ok h) = Raise TypeError.
Proof.
  intros Hk. unfold crop_img_step. fold x_keys y_keys. cbn [mbind result_bind].
  destruct (decide (k ∈ x_keys)) as [Hx|Hx].
  - rewrite (bool_decide_eq_true_2 _ Hx). done.
  - rewrite (bool_decide_eq_false_2 _ Hx). cbn [mbind result_bind].
    rewrite bool_decide_eq_true_2 by solve_keys. done.
Qed.

(** X28.  A coordinate card that holds a string makes [crop_img] raise
    [TypeError] (from the subtraction), whatever else the header holds. *)
Lemma crop_img_string_coordinate {A : Type} (img : Image.t A)
    (left right top bottom : Z) (header : Header) (k s : string) :
  k ∈ x_keys ++ y_keys → header !! k = Some (VStr s) →
  crop_img img left right top bottom (Some header) = Raise TypeError.
Proof.
  intros Hk Hs. unfold crop_img.
  set (h0 := <["NAXIS2"%string := _]> (<["NAXIS1"%string := _]> header)).
  assert (H0 : h0 !! k = Some (VStr s)).
  { unfold h0. rewrite !lookup_insert_ne by (intros <-; solve_keys). done. }
  cut (map_fold (crop_img_step left top) (Ok h0) h0 = Raise TypeError).
  { by intros ->. }
  revert H0. generalize h0 at 1 3 as m. intros m.
  cut ((∀ e, map_fold (crop_img_step left top) (Ok h0) m = Raise e → e = TypeError)
       ∧ (m !! k = Some (VStr s) →
          map_fold (crop_img_step left top) (Ok h0) m = Raise TypeError)).
  { tauto. }
  apply (map_fold_weak_ind
           (λ r (m : Header),
              (∀ e, r = Raise e → e = TypeError)
              ∧ (m !! k = Some (VStr s) → r = Raise TypeError))).
  - split; [done|]. by rewrite lookup_empty.
  - clear m. intros i x m r Hi [IHe IHs].
    destruct r as [h|e].
    + split; [intros e; apply crop_img_step_exn|].
      destruct (decide (i = k)) as [->|Hne].
      * rewrite lookup_insert_eq. intros [= ->]. by apply crop_img_step_str.
      * rewrite lookup_insert_ne by done. intros Hm. by specialize (IHs Hm).
    + rewrite crop_img_step_Raise, (IHe e eq_refl). split; [congruence | done].
Qed.

Lemma crop_img_string_coordinate_witness :
  crop_img (zeros 8 8) 2 5 2 5 (Some (<["SUN-Y"%string := VStr "centre"]> features_header))
  = Raise TypeError.
Proof.
  apply (crop_img_string_coordinate _ _ _ _ _ _ "SUN-Y"%string "centre"%string).
  - rewrite coord_keys_spec. auto.
  - reflexivity.
Defined.

Lemma take_drop_take_drop {A : Type} (l : list A) (lo1 n1 lo2 n2 : nat) :
  (lo2 + n2 ≤ n1)%nat →
  take n2 (drop lo2 (take n1 (drop lo1 l))) = take n2 (drop (lo1 + lo2) l).
Proof.
  intros Hle. rewrite <- drop_drop.
  generalize (drop lo1 l) as m. clear l. intros m.
  apply list_eq. intros i. rewrite !lookup_take, !lookup_drop.
  case_decide; [|done]. rewrite lookup_take. by rewrite decide_True by lia.
Qed.

(** A slice of a slice, for ranges that lie inside one another. *)
Lemma Image_getslice_getslice {A : Type} (a : Image.t A) (t1 b1 l1 r1 t2 b2 l2 r2 : Z) :
  0 ≤ t1 → 0 ≤ t2 → t2 ≤ b2 → t1 + b2 ≤ b1 → b1 ≤ Z.of_nat (Image.shape0 a) →
  0 ≤ l1 → 0 ≤ l2 → l2 ≤ r2 → l1 + r2 ≤ r1 → r1 ≤ Z.of_nat (Image.shape1 a) →
  Image.getslice (Image.getslice a (Slice.range t1 b1) (Slice.range l1 r1))
                 (Slice.range t2 b2) (Slice.range l2 r2)
  = Image.getslice a (Slice.range (t1 + t2) (t1 + b2)) (Slice.range (l1 + l2) (l1 + r2)).
Proof.
  intros.
  destruct (Slice_range_inside (Image.shape0 a) t1 b1) as (Ha0 & _ & Hn0); [lia..|].
  destruct (Slice_range_inside (Image.shape1 a) l1 r1) as (Ha1 & _ & Hn1); [lia..|].
  destruct (Slice_range_inside (Image.shape0 a) (t1 + t2) (t1 + b2))
    as (Hc0 & _ & Hm0); [lia..|].
  destruct (Slice_range_inside (Image.shape1 a) (l1 + l2) (l1 + r2))
    as (Hc1 & _ & Hm1); [lia..|].
  unfold Image.getslice at 1 3. cbn [Image.shape0 Image.shape1 Image.rows Image.getslice].
  rewrite Ha0, Ha1, Hn0, Hn1, Hc0, Hc1, Hm0, Hm1.
  destruct (Slice_range_inside (Z.to_nat (b1 - t1)) t2 b2) as (-> & _ & ->); [lia..|].
  destruct (Slice_range_inside (Z.to_nat (r1 - l1)) l2 r2) as (-> & _ & ->); [lia..|].
  replace (Z.to_nat (t1 + b2 - (t1 + t2))) with (Z.to_nat (b2 - t2)) by lia.
  replace (Z.to_nat (l1 + r2 - (l1 + l2))) with (Z.to_nat (r2 - l2)) by lia.
  f_equal.
  rewrite <- fmap_drop, <- fmap_take, <- list_fmap_compose.
  rewrite take_drop_take_drop by lia.
  replace (Z.to_nat (t1 + t2)) with (Z.to_nat t1 + Z.to_nat t2)%nat by lia.
  apply list_fmap_ext. intros _ r _. simpl.
  rewrite take_drop_take_drop by lia.
  by replace (Z.to_nat (l1 + l2)) with (Z.to_nat l1 + Z.to_nat l2)%nat by lia.
Qed.

Lemma Value_sub_of_Z (n l : Z) : Value.sub (Value.of_Z n) l = Ok (Value.of_Z (n - l)).
Proof.
  unfold Value.sub, Value.of_Z, Value.number, Qminus, Qplus, Qopp, inject_Z.
  cbn [Qnum Qden]. do 2 f_equal. f_equal. lia.
Qed.

Lemma integer_coords_numeric header : integer_coords header → numeric_coords header.
Proof. intros Hint k v Hk Hv. destruct (Hint k v Hk Hv) as [n ->]. by eexists. Qed.

Lemma coord_shift_of_Z left top k n :
  k ∈ x_keys ++ y_keys →
  coord_shift left top k (Value.of_Z n)
  = Ok (Value.of_Z (n - if bool_decide (k ∈ x_keys) then left else top)).
Proof.
  intros Hk. unfold coord_shift. case_bool_decide as Hx; [apply Value_sub_of_Z|].
  rewrite bool_decide_eq_true_2 by solve_keys. apply Value_sub_of_Z.
Qed.

Lemma integer_coords_features : integer_coords features_header.
Proof.
  intros k v Hk. apply coord_keys_spec in Hk.
  destruct Hk as [-> | [-> | [-> | ->]]]; vm_compute; intros [= <-];
    ((by exists 120%Z) || (by exists 80%Z)).
Qed.

(** X29.  Cropping a crop is cropping once, for coordinate cards that
    hold integers: for a rectangle inside the image and a second one
    inside the first, the second call returns the array that one call
    with the summed offsets returns, and a header whose cards, [NAXIS1]
    and [NAXIS2] apart, are the cards of that call: each coordinate is
    shifted by the sum of the offsets. *)
Lemma crop_img_twice {A : Type} (img : Image.t A) (header : Header)
    (left1 right1 top1 bottom1 left2 right2 top2 bottom2 : Z) :
  integer_coords header →
  0 ≤ left1 → 0 ≤ left2 → left2 ≤ right2 → left1 + right2 ≤ right1 →
  right1 < Z.of_nat (Image.shape1 img) →
  0 ≤ top1 → 0 ≤ top2 → top2 ≤ bottom2 → top1 + bottom2 ≤ bottom1 →
  bottom1 < Z.of_nat (Image.shape0 img) →
  ∃ img1 header1 img2 header2 header',
    crop_img img left1 right1 top1 bottom1 (Some header) = Ok (img1, Some header1)
    ∧ crop_img img1 left2 right2 top2 bottom2 (Some header1) = Ok (img2, Some header2)
    ∧ crop_img img (left1 + left2) (left1 + right2) (top1 + top2) (top1 + bottom2)
        (Some header) = Ok (img2, Some header')
    ∧ ∀ k, k ≠ "NAXIS1"%string → k ≠ "NAXIS2"%string → header2 !! k = header' !! k.
Proof.
  intros Hint Hl1 Hl2 Hlr2 Hr2 Hr1 Ht1 Ht2 Htb2 Hb2 Hb1.
  pose proof (integer_coords_numeric header Hint) as Hnum.
  destruct (crop_img_header img left1 right1 top1 bottom1 header Hnum)
    as (header1 & E1 & _ & _ & Hk1).
  assert (Hint1 : integer_coords header1).
  { intros k v Hk. rewrite Hk1 by (intros ->; solve_keys).
    destruct (header !! k) as [v0|] eqn:Hv0; simpl; [|done].
    destruct (Hint k v0 Hk Hv0) as [n ->].
    rewrite coord_shift_of_Z by done. intros [= <-]. by eexists. }
  destruct (crop_img_header
              (Image.getslice img (Slice.range top1 (bottom1 + 1))
                 (Slice.range left1 (right1 + 1)))
              left2 right2 top2 bottom2 header1 (integer_coords_numeric _ Hint1))
    as (header2 & E2 & _ & _ & Hk2).
  destruct (crop_img_header img (left1 + left2) (left1 + right2) (top1 + top2)
              (top1 + bottom2) header Hnum) as (header' & E' & _ & _ & Hk').
  eexists _, header1, _, header2, header'.
  split; [exact E1|]. split; [exact E2|]. split.
  { rewrite E'. do 2 f_equal.
    rewrite (Image_getslice_getslice img top1 (bottom1 + 1) left1 (right1 + 1)
               top2 (bottom2 + 1) left2 (right2 + 1)) by lia.
    f_equal; f_equal; lia. }
  intros k Hn1 Hn2. rewrite Hk2, Hk1, Hk' by done.
  destruct (header !! k) as [v|] eqn:Hv; simpl; [|done].
  destruct (decide (k ∈ x_keys ++ y_keys)) as [Hk|Hk].
  - destruct (Hint k v Hk Hv) as [n ->].
    rewrite !coord_shift_of_Z by done. simpl. rewrite coord_shift_of_Z by done.
    do 2 f_equal. case_bool_decide; lia.
  - rewrite !coord_shift_other by done. simpl. by rewrite coord_shift_other.
Qed.

Lemma crop_img_twice_witness :
  ∃ img1 header1 img2 header2 header',
    crop_img (ramp 12 12) 2 9 1 10 (Some features_header) = Ok (img1, Some header1)
    ∧ crop_img img1 3 5 2 4 (Some header1) = Ok (img2, Some header2)
    ∧ crop_img (ramp 12 12) 5 7 3 5 (Some features_header) = Ok (img2, Some header')
    ∧ header2 !! "SUN-Y"%string = header' !! "SUN-Y"%string.
Proof.
  destruct (crop_img_twice (ramp 12 12) features_header 2 9 1 10 3 5 2 4
              integer_coords_features
              ltac:(lia) ltac:(lia) ltac:(lia) ltac:(lia) ltac:(cbn; lia)
              ltac:(lia) ltac:(lia) ltac:(lia) ltac:(lia) ltac:(cbn; lia))
    as (img1 & header1 & img2 & header2 & header' & E1 & E2 & E' & Hk).
  exists img1, header1, img2, header2, header'.
  split; [exact E1|]. split; [exact E2|]. split; [exact E'|].
  by apply Hk.
Defined.
